(** * PublicLobbyBackend: a shallow embedding of the connection supervisor

    The development follows [src/backends/PublicLobbyBackend.ts].  The class
    is a single-threaded asynchronous object: its methods mutate the fields
    of [this], talk to a remote protocol client (the skeldjs library) and to
    an external token helper, and report to their consumer through the
    [emit...] family of the base class.

    The embedding is a state-and-exception monad over
    - the fields of the backend object,
    - a small object store (entities carrying a [room] back-reference and
      the arrays that are shared by reference),
    - a script of replies of the outside world, one per awaited external
      operation, in the order the operations are issued,
    - a chronological trace of what the backend did that is visible from
      outside: emitted domain events, log lines, calls on external objects.

    An awaited promise that never settles makes the computation [Hang]; a
    raced promise ([Promise.race] against [sleep]) turns that into the
    time-out value.  Numbers are integers: every number the modelled code
    handles is only copied, compared, counted or printed. *)

From Stdlib Require Import ZArith Lia String.
From stdpp Require Import base strings list gmap pretty.

Open Scope Z_scope.

(** ** Enumerations *)

Module LogMode.
Inductive t := Info | Log | Warn | Error | Fatal | Success.
End LogMode.

Module ConnectionErrorCode.
Inductive t := None | NoClient | FailedToConnect | TimedOut | GameNotFound | FailedToJoin.

Definition eqb (a b : t) : bool :=
    match a, b with
    | None, None | NoClient, NoClient | FailedToConnect, FailedToConnect
    | TimedOut, TimedOut | GameNotFound, GameNotFound | FailedToJoin, FailedToJoin => true
    | _, _ => false
    end.
End ConnectionErrorCode.

Module PlayerFlag.
Inductive t := None | IsImpostor | IsDead | OnCams.

Definition value (f : t) : Z :=
    match f with None => 0 | IsImpostor => 1 | IsDead => 2 | OnCams => 4 end.
End PlayerFlag.

(** ** Records of the data model *)

Record GameSettings := mkGameSettings { gs_map : Z; gs_crewmateVision : Z }.

Record PlayerInfo := mkPlayerInfo { pi_name : string; pi_color : Z }.

(** A [skeldjs.PlayerData] as the handlers see it: a client id and the
    attached data, which is absent until the shared game data has it. *)
Record PlayerData := mkPlayerData { pd_id : Z; pd_data : option PlayerInfo }.

(** A networked entity in the object store.  [ent_room] is the identity of
    the client object the entity belongs to. *)
Record Entity := mkEntity { ent_room : nat; ent_ownerid : Z }.

Definition Endpoint : Type := string * Z.

(** The protocol client.  [c_oid] is the identity of the JavaScript object;
    registries hold references into the object store, [c_components] is a
    reference to the array of room components. *)
Record SkeldjsClient := mkClient {
  c_oid : nat;
  c_identified : bool;
  c_me : bool;
  c_code : option Z;
  c_username : string;
  c_ip : string;
  c_port : Z;
  c_socket : bool;
  c_clientid : Z;
  c_host : option PlayerData;
  c_players : list PlayerData;
  c_objects : gmap Z nat;
  c_netobjects : gmap Z nat;
  c_components : nat;
  c_settings : option GameSettings
}.

(** Pure tables of the protocol library that the backend consults. *)
Record Library := mkLibrary {
  Code2Int : string -> Z;
  DisconnectMessages : Z -> string;
  MapID : Z -> string
}.

(** ** Domain events, calls and the trace *)

Inductive DomainEvent :=
| ErrorEvent (message : string) (fatal : bool)
| HostChange (name : string)
| PlayerColor (name : string) (color : Z)
| PlayerFlags (name : string) (flag : PlayerFlag.t) (value : bool)
| SettingsUpdate (settings : GameSettings).

Inductive ExternalCall :=
| NewClient (oid : nat)
| Connect (ip : string) (username : option string) (token : option Z) (port : Z)
| Identify (username : string) (token : Z)
| Disconnect
| SendJoinGame (code : Z)
| WaitPayload
| SpawnSelf
| RemoveListeners (event : string)
| GetAuthTokenProc (ip : string) (port : string)
| AwaitSpawnsAndSettings
| CheckName (name : string)
| CheckColor (color : Z)
| WaitSetName
| Chat.

Inductive Obs :=
| Emitted (e : DomainEvent)
| Logged (mode : LogMode.t) (text : string)
| Called (c : ExternalCall).

(** ** Replies of the outside world *)

Inductive JoinPayload :=
| JoinGameError (reason : Z)
| Redirect (ip : string) (port : Z)
| JoinedGame.

(** What the token helper process does: print a token, fail to start, or
    stay silent; [at_ms] is the time of the event after the spawn. *)
Inductive ProcEvent :=
| ProcToken (at_ms : Z) (token : Z)
| ProcError (at_ms : Z) (msg : string)
| ProcSilent.

(** One reply per awaited operation.  [upd] is what the library did to the
    client object while the backend was suspended. *)
Inductive Reply :=
| Settles (upd : SkeldjsClient -> SkeldjsClient)
| Throws (msg : string) (upd : SkeldjsClient -> SkeldjsClient)
| Delivers (p : JoinPayload) (upd : SkeldjsClient -> SkeldjsClient)
| Spawns (gamedata : list PlayerInfo) (result : option (option GameSettings))
         (upd : SkeldjsClient -> SkeldjsClient)
| Helper (ev : ProcEvent)
| Stalls.

(** ** The backend object and the machine state *)

Record Backend := mkBackend {
  destroyed : bool;
  client : option SkeldjsClient;
  authToken : Z;
  master : list Endpoint;
  server : nat;
  players_cache : option (gmap Z (option nat));
  components_cache : option (gmap Z (option nat));
  global_cache : option nat;
  settings : GameSettings;
  gameCode : string
}.

Record St := mkSt {
  this : Backend;
  ents : gmap nat Entity;
  arrs : gmap nat (list (option nat));
  next_oid : nat;
  lib : Library;
  script : list Reply;
  trace : list Obs
}.

(** Field updates. *)

Definition set_destroyed (v : bool) (b : Backend) : Backend :=
  mkBackend v (client b) (authToken b) (master b) (server b) (players_cache b)
            (components_cache b) (global_cache b) (settings b) (gameCode b).

Definition set_client (v : option SkeldjsClient) (b : Backend) : Backend :=
  mkBackend (destroyed b) v (authToken b) (master b) (server b) (players_cache b)
            (components_cache b) (global_cache b) (settings b) (gameCode b).

Definition set_authToken (v : Z) (b : Backend) : Backend :=
  mkBackend (destroyed b) (client b) v (master b) (server b) (players_cache b)
            (components_cache b) (global_cache b) (settings b) (gameCode b).

Definition set_server (v : nat) (b : Backend) : Backend :=
  mkBackend (destroyed b) (client b) (authToken b) (master b) v (players_cache b)
            (components_cache b) (global_cache b) (settings b) (gameCode b).

Definition set_caches (p c : option (gmap Z (option nat))) (g : option nat)
    (b : Backend) : Backend :=
  mkBackend (destroyed b) (client b) (authToken b) (master b) (server b) p c g
            (settings b) (gameCode b).

Definition set_settings (v : GameSettings) (b : Backend) : Backend :=
  mkBackend (destroyed b) (client b) (authToken b) (master b) (server b) (players_cache b)
            (components_cache b) (global_cache b) v (gameCode b).

Definition on_this (f : Backend -> Backend) (st : St) : St :=
  mkSt (f (this st)) (ents st) (arrs st) (next_oid st) (lib st) (script st) (trace st).

Definition set_ents (v : gmap nat Entity) (st : St) : St :=
  mkSt (this st) v (arrs st) (next_oid st) (lib st) (script st) (trace st).

Definition set_arrs (v : gmap nat (list (option nat))) (st : St) : St :=
  mkSt (this st) (ents st) v (next_oid st) (lib st) (script st) (trace st).

Definition set_next_oid (v : nat) (st : St) : St :=
  mkSt (this st) (ents st) (arrs st) v (lib st) (script st) (trace st).

Definition set_script (v : list Reply) (st : St) : St :=
  mkSt (this st) (ents st) (arrs st) (next_oid st) (lib st) v (trace st).

Definition observe (o : Obs) (st : St) : St :=
  mkSt (this st) (ents st) (arrs st) (next_oid st) (lib st) (script st) (trace st ++ [o]).

Definition with_oid (oid : nat) (c : SkeldjsClient) : SkeldjsClient :=
  mkClient oid (c_identified c) (c_me c) (c_code c) (c_username c) (c_ip c) (c_port c)
           (c_socket c) (c_clientid c) (c_host c) (c_players c) (c_objects c)
           (c_netobjects c) (c_components c) (c_settings c).

Definition with_objects (v : gmap Z nat) (c : SkeldjsClient) : SkeldjsClient :=
  mkClient (c_oid c) (c_identified c) (c_me c) (c_code c) (c_username c) (c_ip c) (c_port c)
           (c_socket c) (c_clientid c) (c_host c) (c_players c) v
           (c_netobjects c) (c_components c) (c_settings c).

Definition with_netobjects (v : gmap Z nat) (c : SkeldjsClient) : SkeldjsClient :=
  mkClient (c_oid c) (c_identified c) (c_me c) (c_code c) (c_username c) (c_ip c) (c_port c)
           (c_socket c) (c_clientid c) (c_host c) (c_players c) (c_objects c)
           v (c_components c) (c_settings c).

(** ** The monad *)

Inductive Res (A : Type) :=
| Val (a : A)
| Exn (msg : string)
| Hang.
Arguments Val {A} a.
Arguments Exn {A} msg.
Arguments Hang {A}.

Definition M (A : Type) : Type := St -> Res A * St.

Definition ret {A} (a : A) : M A := fun st => (Val a, st).

Definition bind {A B} (m : M A) (k : A -> M B) : M B :=
  fun st =>
    match m st with
    | (Val a, st') => k a st'
    | (Exn e, st') => (Exn e, st')
    | (Hang, st') => (Hang, st')
    end.

Definition throw {A} (msg : string) : M A := fun st => (Exn msg, st).

Definition hang {A} : M A := fun st => (Hang, st).

(** [try { m } catch (e) { h e }]. *)
Definition try_catch {A} (m : M A) (h : string -> M A) : M A :=
  fun st =>
    match m st with
    | (Exn e, st') => h e st'
    | r => r
    end.

(** [Promise.race([m, sleep(ms)])]: the value of [m] when it settles, the
    value of the sleep (undefined) when it does not settle in time. *)
Definition race {A} (m : M A) : M (option A) :=
  fun st =>
    match m st with
    | (Val a, st') => (Val (Some a), st')
    | (Exn e, st') => (Exn e, st')
    | (Hang, st') => (Val None, st')
    end.

Definition gets {A} (f : Backend -> A) : M A := fun st => (Val (f (this st)), st).

Definition modify (f : Backend -> Backend) : M unit := fun st => (Val tt, on_this f st).

Definition tell (o : Obs) : M unit := fun st => (Val tt, observe o st).

Declare Scope js_scope.
Delimit Scope js_scope with js.
Notation "'let*' x ':=' m 'in' k" := (bind m (fun x => k))
  (at level 10, x name, m at level 100, k at level 200, only parsing) : js_scope.
Notation "m ;; k" := (bind m (fun _ => k))
  (at level 100, k at level 200, only parsing, right associativity) : js_scope.
Open Scope js_scope.

Definition when (b : bool) (m : M unit) : M unit := if b then m else ret tt.

(** ** The base class

    Modelled from the spec: the [emit...] methods and the [log] sink live in
    the base class [BackendAdapter], whose file is not part of the sources.
    The spec's produced interface is [emit(eventKind, payload)] with the
    payloads listed there, so each [emit...] appends its domain event to the
    trace. *)

Definition log (mode : LogMode.t) (text : string) : M unit := tell (Logged mode text).

Definition emitError (message : string) (fatal : bool) : M unit :=
  tell (Emitted (ErrorEvent message fatal)).

Definition emitHostChange (name : string) : M unit := tell (Emitted (HostChange name)).

Definition emitPlayerColor (name : string) (color : Z) : M unit :=
  tell (Emitted (PlayerColor name color)).

Definition emitPlayerFlags (name : string) (flag : PlayerFlag.t) (value : bool) : M unit :=
  tell (Emitted (PlayerFlags name flag value)).

Definition emitSettingsUpdate (s : GameSettings) : M unit :=
  tell (Emitted (SettingsUpdate s)).

(** ** Awaiting the outside world *)

Definition pop_reply : M (option Reply) :=
  fun st =>
    match script st with
    | [] => (Val None, st)
    | r :: rs => (Val (Some r), set_script rs st)
    end.

(** The library mutates the client object in place while the backend is
    suspended; the identity of the object does not change. *)
Definition lib_update (upd : SkeldjsClient -> SkeldjsClient) : M unit :=
  modify (fun b =>
    match client b with
    | Some c => set_client (Some (with_oid (c_oid c) (upd c))) b
    | None => b
    end).

(** A promise of no value resolves, rejects, or stays pending. *)
Definition settle : M unit :=
  let* r := pop_reply in
  match r with
  | Some (Settles upd) => lib_update upd
  | Some (Throws msg upd) => lib_update upd;; throw msg
  | _ => hang
  end.

(** [await <call>]. *)
Definition await (c : ExternalCall) : M unit := tell (Called c);; settle.

(** [await this.client.<call>]: a method call on [undefined] is a TypeError. *)
Definition client_await (c : ExternalCall) : M unit :=
  let* cl := gets client in
  match cl with
  | Some _ => await c
  | None => throw "Cannot read properties of undefined"
  end.

(** ** Formatting *)

(** [fmtName]; the chalk colour functions only decorate the text and are
    taken as the identity. *)
Definition fmtName (player : option PlayerData) : string :=
  match player with
  | None => "<No Data>"
  | Some p =>
      let name :=
        match pd_data p with
        | Some d => if String.eqb (pi_name d) "" then "<No Name>" else pi_name d
        | None => "<No Data>"
        end in
      let id := if pd_id p =? 0 then "<No ID>" else pretty (pd_id p) in
      name ++ " (" ++ id ++ ")"
  end.

(** [s.includes(needle)]. *)
Definition includes (needle s : string) : bool :=
  match String.index 0 needle s with Some _ => true | None => false end.

(** [e.toString()] of an [Error] with message [msg]. *)
Definition error_toString (msg : string) : string := "Error: " ++ msg.

(** ** JavaScript values *)

(** [arr[i] = v] on a JavaScript array: an index past the end extends the
    array, the skipped slots are holes. *)
Definition js_array_set {A} (i : nat) (v : A) (l : list (option A)) : list (option A) :=
  if decide (i < length l)%nat then <[i := Some v]> l
  else l ++ replicate (i - length l) None ++ [Some v].

(** [!code] for a room code that may be undefined, null or 0. *)
Definition falsy_code (code : option Z) : bool :=
  match code with Some n => n =? 0 | None => true end.

(** A room code is a string or a number. *)
Inductive RoomID :=
| RoomStr (s : string)
| RoomInt (n : Z).

(** The array behind a reference; a reference that was never written is an
    empty array. *)
Definition array_at (a : nat) (st : St) : list (option nat) := default [] (arrs st !! a).

Definition get_lib : M Library := fun st => (Val (lib st), st).

(** [this.client] where the code dereferences it unguarded. *)
Definition the_client : M SkeldjsClient :=
  let* cl := gets client in
  match cl with
  | Some c => ret c
  | None => throw "Cannot read properties of undefined"
  end.

(** [for (const x of l) body(x)]. *)
Fixpoint for_each {A} (l : list A) (body : A -> M unit) : M unit :=
  match l with
  | [] => ret tt
  | x :: l => body x;; for_each l body
  end.

(** ** getAuthToken, tryGetAuthToken *)

Definition token_timeout : Z := 2000.

(** The promise built by [getAuthToken] settles once: with the token when
    the helper prints one, with the process error, or with the rejection of
    [sleep(2000)], whichever comes first.  The result is the outcome and the
    time at which the promise settles. *)
Definition settle_token (ev : ProcEvent) : (Z + string) * Z :=
  match ev with
  | ProcToken t tok =>
      if t <? token_timeout then (inl tok, t)
      else (inr "GetAuthToken took too long to get a token.", token_timeout)
  | ProcError t msg =>
      if t <? token_timeout then (inr msg, t)
      else (inr "GetAuthToken took too long to get a token.", token_timeout)
  | ProcSilent => (inr "GetAuthToken took too long to get a token.", token_timeout)
  end.

(** [getAuthToken(server)].  With [server] undefined the promise executor
    throws before the helper is spawned, which rejects the promise.  A world
    that has no reply for the helper is a helper that stays silent. *)
Definition getAuthToken (server : option Endpoint) : M Z :=
  match server with
  | None => throw "Cannot read properties of undefined"
  | Some (ip, port) =>
      tell (Called (GetAuthTokenProc ip (pretty (port + 2))));;
      let* r := pop_reply in
      let ev := match r with Some (Helper ev) => ev | _ => ProcSilent end in
      match fst (settle_token ev) with
      | inl tok => ret tok
      | inr msg => throw msg
      end
  end.

(** [e?.message?.toString() || e] inside a string concatenation. *)
Definition error_text (msg : string) : string :=
  if String.eqb msg "" then "Error" else msg.

Fixpoint tryGetAuthToken_fuel (fuel : nat) (ip : option Endpoint) (cur_attempt : Z) : M Z :=
  match fuel with
  | O => hang
  | S fuel =>
      try_catch (getAuthToken ip) (fun e =>
        let cur_attempt := cur_attempt + 1 in
        let remaining := 5 - cur_attempt in
        log LogMode.Error ("Failed to get authorisation token, trying " ++ pretty remaining
                           ++ " more times. " ++ error_text e);;
        if negb (remaining =? 0) then tryGetAuthToken_fuel fuel ip cur_attempt
        else
          log LogMode.Error "Failed to get authorisation token from the server, using 0.";;
          ret 0)
  end.

(** [tryGetAuthToken(ip)] with the default [cur_attempt = 0], as every call
    site has it.  Five rounds are all the recursion can take from there. *)
Definition tryGetAuthToken (ip : option Endpoint) : M Z := tryGetAuthToken_fuel 5 ip 0.

(** ** joinGame *)

Definition waitPayload : M JoinPayload :=
  let* _ := the_client in
  tell (Called WaitPayload);;
  let* r := pop_reply in
  match r with
  | Some (Delivers p upd) => lib_update upd;; ret p
  | Some (Throws msg upd) => lib_update upd;; throw msg
  | _ => hang
  end.

Definition join_error_message (l : Library) (reason : Z) : string :=
  "Join error: Failed to join game, code: " ++ pretty reason
  ++ " (Message: " ++ DisconnectMessages l reason ++ ")".

Fixpoint joinGame_fuel (fuel : nat) (code : RoomID) (doSpawn : bool) : M (option Z) :=
  match fuel with
  | O => hang
  | S fuel =>
      match code with
      | RoomStr s =>
          let* l := get_lib in
          joinGame_fuel fuel (RoomInt (Code2Int l s)) doSpawn
      | RoomInt code =>
          let* cl := gets client in
          match cl with
          | None => ret None
          | Some c =>
              if negb (c_identified c) then ret None
              else
                when (c_me c && negb (bool_decide (c_code c = Some code)))
                  (let username := c_username c in
                   client_await Disconnect;;
                   let* srv := gets (fun b => master b !! server b) in
                   let* tok := tryGetAuthToken srv in
                   modify (set_authToken tok);;
                   let* c := the_client in
                   client_await (Connect (c_ip c) (Some username) (Some tok) (c_port c)));;
                client_await (SendJoinGame code);;
                let* payload := waitPayload in
                let* c := the_client in
                let username := c_username c in
                match payload with
                | JoinGameError reason =>
                    let* l := get_lib in
                    throw (join_error_message l reason)
                | Redirect ip port =>
                    client_await Disconnect;;
                    let* tok := tryGetAuthToken (Some (ip, port)) in
                    modify (set_authToken tok);;
                    client_await (Connect ip (Some username) (Some tok) port);;
                    joinGame_fuel fuel (RoomInt code) doSpawn
                | JoinedGame =>
                    when doSpawn (client_await SpawnSelf);;
                    let* c := the_client in
                    ret (c_code c)
                end
          end
      end
  end.

(** Every round after the conversion of a string code consumes a reply of
    the world, so the length of the script bounds the recursion. *)
Definition joinGame (code : RoomID) (doSpawn : bool) : M (option Z) :=
  fun st => joinGame_fuel (length (script st) + 2) code doSpawn st.

(** ** The state cache *)

Definition resetObjectCaches : M unit :=
  fun st =>
    match client (this st) with
    | None => (Val tt, st)
    | Some c =>
        let players :=
          filter (fun kv : Z * nat => kv.1 ≠ c_clientid c ∧ 0 < kv.1) (c_objects c) in
        let components :=
          filter (fun kv : Z * nat => ent_ownerid <$> (ents st !! kv.2) ≠ Some (c_clientid c))
                 (c_netobjects c) in
        (Val tt, on_this (set_caches (Some (Some <$> players)) (Some (Some <$> components))
                                     (Some (c_components c))) st)
    end.

Definition disconnect : M unit :=
  resetObjectCaches;;
  let* cl := gets client in
  match cl with
  | Some _ => await Disconnect
  | None => ret tt
  end.

(** [entity.room = this.client]. *)
Definition rebind (oid : nat) (r : nat) (e : gmap nat Entity) : gmap nat Entity :=
  alter (fun x => mkEntity oid (ent_ownerid x)) r e.

(** Body of the loop over [this.players_cache]. *)
Definition attach_object (id : Z) (object : option nat) (st : St) : St :=
  match object, client (this st) with
  | Some r, Some c =>
      on_this (set_client (Some (with_objects (<[id := r]> (c_objects c)) c)))
              (set_ents (rebind (c_oid c) r (ents st)) st)
  | _, _ => st
  end.

(** Body of the loop over [this.components_cache]. *)
Definition attach_netobject (id : Z) (component : option nat) (st : St) : St :=
  match component, client (this st) with
  | Some r, Some c =>
      on_this (set_client (Some (with_netobjects (<[id := r]> (c_netobjects c)) c)))
              (set_ents (rebind (c_oid c) r (ents st)) st)
  | _, _ => st
  end.

(** Body of the loop over the indices of [this.global_cache]. *)
Definition attach_global (g : nat) (i : nat) (st : St) : St :=
  match array_at g st !! i, client (this st) with
  | Some (Some r), Some c =>
      set_arrs (<[c_components c := js_array_set i r (array_at (c_components c) st)]> (arrs st))
               (set_ents (rebind (c_oid c) r (ents st)) st)
  | _, _ => st
  end.

(** The three loops of [doJoin] that splice the cached entities into the
    current client.  The third loop reads [this.global_cache.length] at every
    round; its body never changes that length (lemma
    [attach_global_length]), so the indices are those of the array at entry. *)
Definition reattach (players components : gmap Z (option nat)) (g : nat) (st : St) : St :=
  let st := map_fold attach_object st players in
  let st := map_fold attach_netobject st components in
  foldl (fun st i => attach_global g i st) st (seq 0 (length (array_at g st))).

Definition do_reattach (players components : gmap Z (option nat)) (g : nat) : M unit :=
  fun st => (Val tt, reattach players components g st).

(** [this.global_cache.length]. *)
Definition array_length (g : nat) : M nat := fun st => (Val (length (array_at g st)), st).

(** ** awaitSpawns and awaitSettings, raced together *)

(** [Promise.all([this.awaitSpawns(), this.awaitSettings()])]: while it is
    pending the spawn handler emits the colour of every named player of a
    spawned game-data component.  [result] is the settings component of the
    resolved pair, or nothing when the pair does not resolve. *)
Definition awaitSpawnsAndSettings : M (option GameSettings) :=
  tell (Called AwaitSpawnsAndSettings);;
  let* r := pop_reply in
  match r with
  | Some (Spawns gamedata result upd) =>
      lib_update upd;;
      for_each gamedata (fun p =>
        when (negb (String.eqb (pi_name p) "")) (emitPlayerColor (pi_name p) (pi_color p)));;
      match result with
      | Some settings => ret settings
      | None => hang
      end
  | _ => hang
  end.

(** ** destroy *)

Definition destroy : M unit :=
  let* d := gets destroyed in
  if d then ret tt
  else
    let* cl := gets client in
    match cl with
    | Some c =>
        when (c_socket c)
          (tell (Called (RemoveListeners "client.disconnect"));;
           await Disconnect;;
           modify (set_client None))
    | None => ret tt
    end;;
    log LogMode.Info "Destroyed PublicLobbyBackend.";;
    modify (set_destroyed true).

(** ** initialSpawn *)

Definition connect_failed_message : string :=
  "Couldn't connect to the Among Us servers, the servers may be full. Try a different region or try again later.".

(** [this.master[this.server]] followed by an index into the pair: a
    TypeError when the entry is undefined. *)
Definition current_endpoint : M Endpoint :=
  let* srv := gets (fun b => master b !! server b) in
  match srv with
  | Some ep => ret ep
  | None => throw "Cannot read properties of undefined"
  end.

(** First [try] block: connect, then identify raced against two seconds.
    [Some err] is an early [return err]. *)
Definition initialSpawn_connect (isFinal : bool) (ip : string) (port : Z)
    : M (option ConnectionErrorCode.t) :=
  try_catch
    (client_await (Connect ip None None port);;
     let* cl := gets client in
     match cl with
     | None => ret (Some ConnectionErrorCode.NoClient)
     | Some _ =>
         let* tok := gets authToken in
         let* _ := race (client_await (Identify "Roundcar" tok)) in
         let* c := the_client in
         if negb (c_identified c) then
           when isFinal (emitError connect_failed_message true);;
           ret (Some ConnectionErrorCode.TimedOut)
         else ret None
     end)
    (fun e =>
       log LogMode.Fatal (error_toString e);;
       emitError connect_failed_message true;;
       ret (Some ConnectionErrorCode.FailedToConnect)).

(** Second [try] block: the join raced against five seconds. *)
Definition initialSpawn_join (isFinal : bool) : M (option ConnectionErrorCode.t) :=
  try_catch
    (let* gc := gets gameCode in
     let* code := race (joinGame (RoomStr gc) false) in
     if falsy_code (code ≫= id) then
       when isFinal (emitError "Timed out while connecting to servers." true);;
       ret (Some ConnectionErrorCode.TimedOut)
     else ret None)
    (fun e =>
       log LogMode.Fatal (error_toString e);;
       if includes "Could not find the game" (error_toString e)
       then ret (Some ConnectionErrorCode.GameNotFound)
       else ret (Some ConnectionErrorCode.FailedToJoin)).

(** The rest of [initialSpawn], from the read of [this.client.code] on. *)
Definition initialSpawn_warmup (isFinal : bool) : M ConnectionErrorCode.t :=
  let* c := the_client in
  if falsy_code (c_code c) then ret ConnectionErrorCode.FailedToJoin
  else
    tell (Called SpawnSelf);;
    let* result := race awaitSpawnsAndSettings in
    match result with
    | None =>
        log LogMode.Fatal "I didn't receive either spawns or settings from the host.";;
        when isFinal (emitError "Did not recieve players and settings, please restart your Among Us lobby, or wait a few minutes and try again." true);;
        ret ConnectionErrorCode.TimedOut
    | Some settings =>
        let* cl := gets client in
        match cl, settings with
        | None, _ => ret ConnectionErrorCode.NoClient
        | Some _, None =>
            log LogMode.Fatal "I didn't receive settings from the host.";;
            when isFinal (emitError "Did not recieve game settings, please restart your Among Us lobby, or wait a few minutes and try again." true);;
            ret ConnectionErrorCode.TimedOut
        | Some c, Some settings =>
            modify (set_settings (mkGameSettings (gs_map settings) (gs_crewmateVision settings)));;
            emitSettingsUpdate (mkGameSettings (gs_map settings) (gs_crewmateVision settings));;
            log LogMode.Info ("Crewmate vision is at " ++ pretty (gs_crewmateVision settings));;
            let* l := get_lib in
            log LogMode.Info ("Map is on " ++ MapID l (gs_map settings));;
            match c_host c ≫= pd_data with
            | Some d => emitHostChange (pi_name d)
            | None => ret tt
            end;;
            log LogMode.Success "Got spawns and settings.";;
            log LogMode.Info "Cleaning up and preparing for re-join..";;
            for_each (c_players c) (fun p =>
              match pd_data p with
              | Some d => emitPlayerColor (pi_name d) (pi_color d)
              | None => ret tt
              end);;
            (if c_me c then ret tt else throw "Cannot read properties of undefined");;
            await (CheckName "ㆍ");;
            await (CheckColor 1);;
            await WaitSetName;;
            await Chat;;
            disconnect;;
            ret ConnectionErrorCode.None
        end
    end.

Definition initialSpawn (isFinal : bool) : M ConnectionErrorCode.t :=
  let* ep := current_endpoint in
  let '(ip, port) := ep in
  let* cl := gets client in
  match cl with
  | None => ret ConnectionErrorCode.NoClient
  | Some _ =>
      log LogMode.Info ("Joining for the first time with server " ++ ip ++ ":" ++ pretty port);;
      let* r := initialSpawn_connect isFinal ip port in
      match r with
      | Some err => ret err
      | None =>
          log LogMode.Success "Successfully connected.";;
          let* cl := gets client in
          match cl with
          | None => ret ConnectionErrorCode.NoClient
          | Some _ =>
              log LogMode.Info "Joining room..";;
              let* r := initialSpawn_join isFinal in
              match r with
              | Some err => ret err
              | None =>
                  log LogMode.Success "Successfully joined room.";;
                  log LogMode.Info "Waiting for spawns and settings..";;
                  initialSpawn_warmup isFinal
              end
          end
      end
  end.

(** ** doJoin *)

(** A client as [new SkeldjsClient(...)] leaves it: not connected, nothing
    registered, an empty array of room components of its own. *)
Definition fresh_client (oid : nat) : SkeldjsClient :=
  mkClient oid false false None "" "" 0 false 0 None [] ∅ ∅ oid None.

Definition new_client : M unit :=
  fun st =>
    let oid := next_oid st in
    (Val tt,
     observe (Called (NewClient oid))
       (on_this (set_client (Some (fresh_client oid)))
          (set_arrs (<[oid := []]> (arrs st)) (set_next_oid (S oid) st)))).

(** [this.server++; this.server = this.server % this.master.length].  With an
    empty [master] JavaScript yields NaN; any index into the empty list is
    undefined either way. *)
Definition rotate_server : M unit :=
  modify (fun b => set_server ((server b + 1) mod length (master b)) b).

Definition plural (remaining : Z) : string := if remaining =? 1 then "" else "s".

(** Every [return this.doJoin(max_attempts, attempt)] of the source is a
    tail call; one round of the body either returns or names the call site
    that recurses and the attempt it recurses with. *)
Inductive Next :=
| Return (b : bool)
| RetryAfterWarmup (attempt : Z)
| RetryAfterConnect (attempt : Z)
| RetryAfterJoin (attempt : Z).

Definition exhausted_message (max_attempts : Z) : string :=
  "Couldn't join the game after " ++ pretty max_attempts
  ++ " attempts, make sure that the game hasn't started and there is a spot for the client.".

(** The warm-up part of the body: lines 219 to 254.  [Some n] leaves the
    body, [None] falls through to the rejoin.  The callee [this.initialSpawn]
    is a parameter, so that what [doJoin] passes to it can be stated. *)
Definition doJoin_warmup_with (spawn : bool -> M ConnectionErrorCode.t)
    (max_attempts attempt : Z) : M (option Next) :=
  let* err := spawn (attempt >=? max_attempts) in
  if ConnectionErrorCode.eqb err ConnectionErrorCode.GameNotFound then
    log LogMode.Fatal "Couldn't find game.";;
    emitError "Couldn't find the game, make sure that you entered the code correctly and you are using the correct region." true;;
    ret (Some (Return false))
  else if ConnectionErrorCode.eqb err ConnectionErrorCode.FailedToJoin then
    log LogMode.Fatal "Couldn't join game.";;
    emitError "Couldn't join the game, make sure that the game hasn't started and there is a spot for the client." true;;
    ret (Some (Return false))
  else if negb (ConnectionErrorCode.eqb err ConnectionErrorCode.None) then
    when (negb (ConnectionErrorCode.eqb err ConnectionErrorCode.NoClient))
      (client_await Disconnect);;
    rotate_server;;
    let attempt := attempt + 1 in
    let remaining := max_attempts - attempt in
    (if remaining =? 0 then
       log LogMode.Warn ("Failed to initially spawn after " ++ pretty max_attempts ++ " attempts.");;
       emitError ("Couldn't connect to the server after " ++ pretty max_attempts ++ " attempts.") false
     else
       log LogMode.Warn ("Failed to initially spawn, Retrying " ++ pretty remaining ++ " more time"
                         ++ plural remaining ++ " , also trying another server.");;
       emitError ("Couldn't connect to the server. Retrying " ++ pretty remaining ++ " more time "
                  ++ plural remaining ++ ".") false);;
    ret (Some (RetryAfterWarmup attempt))
  else ret None.

Definition doJoin_warmup : Z -> Z -> M (option Next) := doJoin_warmup_with initialSpawn.

(** The tail of the body after a successful join: lines 296 to 337. *)
Definition doJoin_replace : M bool :=
  log LogMode.Success "Successfully joined!";;
  let* pc := gets players_cache in
  let* cc := gets components_cache in
  let* gc := gets global_cache in
  match pc, cc, gc with
  | Some players, Some components, Some g =>
      let* len := array_length g in
      log LogMode.Info ("Replacing state with cached state.. (" ++ pretty (size players)
                        ++ " objects, " ++ pretty (size components) ++ " netobjects, "
                        ++ pretty len ++ " room components)");;
      let* cl := gets client in
      match cl with
      | None => destroy;; ret false
      | Some _ =>
          do_reattach players components g;;
          log LogMode.Success "Joined & successfully replaced state!";;
          let* c := the_client in
          match c_host c ≫= pd_data with
          | Some d =>
              log LogMode.Success ("Found host: " ++ fmtName (c_host c));;
              emitHostChange (pi_name d)
          | None => ret tt
          end;;
          ret true
      end
  | _, _, _ => throw "Cannot read properties of undefined"
  end.

(** The rejoin part of the body: lines 256 to 337. *)
Definition doJoin_rejoin (max_attempts attempt : Z) : M Next :=
  let* d := gets destroyed in
  if d then ret (Return false)
  else
    let* ep := current_endpoint in
    let '(ip, port) := ep in
    log LogMode.Info ("Joining game with server " ++ ip ++ ":" ++ pretty port
                      ++ ", not spawning, attempt #" ++ pretty (attempt + 1));;
    let* connected :=
      try_catch
        (client_await (Connect ip None None port);;
         let* tok := gets authToken in
         client_await (Identify "Roundcar" tok);;
         ret None)
        (fun e =>
           rotate_server;;
           let attempt := attempt + 1 in
           log LogMode.Warn ("Failed to connect (" ++ e ++ "), Retrying "
                             ++ pretty (max_attempts - attempt)
                             ++ " more times, also trying another server.");;
           emitError ("Couldn't connect to the server. Retrying "
                      ++ pretty (max_attempts - attempt) ++ " more times.") false;;
           ret (Some (RetryAfterConnect attempt)))
    in
    match connected with
    | Some n => ret n
    | None =>
        log LogMode.Info "Successfully connected to server.";;
        let* joined :=
          try_catch
            (let* gc := gets gameCode in
             let* _ := joinGame (RoomStr gc) false in
             ret None)
            (fun e =>
               let attempt := attempt + 1 in
               if includes "Could not find the game you're looking for." e then
                 log LogMode.Fatal (error_toString e);;
                 ret (Some (Return false))
               else
                 log LogMode.Warn ("Failed to join game (" ++ e ++ "), Retrying "
                                   ++ pretty (max_attempts - attempt) ++ " more times.");;
                 emitError (e ++ ". Retrying " ++ pretty (max_attempts - attempt)
                            ++ " more times.") false;;
                 ret (Some (RetryAfterJoin attempt)))
        in
        match joined with
        | Some n => ret n
        | None =>
            let* b := doJoin_replace in
            ret (Return b)
        end
    end.

(** [this.players_cache && this.components_cache && this.global_cache]. *)
Definition cached (b : Backend) : bool :=
  bool_decide (is_Some (players_cache b))
  && bool_decide (is_Some (components_cache b))
  && bool_decide (is_Some (global_cache b)).

(** One round of the body of [doJoin(max_attempts, attempt)]. *)
Definition doJoin_round_with (spawn : bool -> M ConnectionErrorCode.t)
    (max_attempts attempt : Z) : M Next :=
  let* d := gets destroyed in
  if d then ret (Return false)
  else if attempt >=? max_attempts then
    log LogMode.Fatal "Couldn't join game.";;
    emitError (exhausted_message max_attempts) true;;
    ret (Return false)
  else
    let* cl := gets client in
    when (negb (bool_decide (is_Some cl))) new_client;;
    let* have_caches := gets cached in
    if negb have_caches then
      let* w := doJoin_warmup_with spawn max_attempts attempt in
      match w with
      | Some n => ret n
      | None => doJoin_rejoin max_attempts attempt
      end
    else doJoin_rejoin max_attempts attempt.

Definition doJoin_round : Z -> Z -> M Next := doJoin_round_with initialSpawn.

Fixpoint doJoin_fuel_with (spawn : bool -> M ConnectionErrorCode.t)
    (fuel : nat) (max_attempts attempt : Z) : M bool :=
  match fuel with
  | O => hang
  | S fuel =>
      let* n := doJoin_round_with spawn max_attempts attempt in
      match n with
      | Return b => ret b
      | RetryAfterWarmup attempt
      | RetryAfterConnect attempt
      | RetryAfterJoin attempt => doJoin_fuel_with spawn fuel max_attempts attempt
      end
  end.

Definition doJoin_fuel : nat -> Z -> Z -> M bool := doJoin_fuel_with initialSpawn.

(** Every recursive call increases [attempt] and the body returns once
    [attempt >= max_attempts], so [max_attempts - attempt + 1] rounds are
    all the recursion can take. *)
Definition doJoin (max_attempts attempt : Z) : M bool :=
  doJoin_fuel (S (Z.to_nat (max_attempts - attempt))) max_attempts attempt.

(** ** Handlers installed by initialize *)

(** [player.syncsettings]. *)
Definition on_syncsettings (new : GameSettings) : M unit :=
  let* cur := gets settings in
  when (negb (gs_crewmateVision new =? gs_crewmateVision cur))
    (modify (fun b => set_settings (mkGameSettings (gs_map (settings b)) (gs_crewmateVision new)) b);;
     log LogMode.Info ("Crewmate vision is now set to " ++ pretty (gs_crewmateVision new) ++ "."));;
  let* cur := gets settings in
  when (negb (gs_map new =? gs_map cur))
    (modify (fun b => set_settings (mkGameSettings (gs_map new) (gs_crewmateVision (settings b))) b);;
     let* l := get_lib in
     log LogMode.Info ("Map is now set to " ++ MapID l (gs_map new) ++ "."));;
  let* s := gets settings in
  emitSettingsUpdate s.

(** [player.murder]. *)
Definition on_murder (player victim : option PlayerData) : M unit :=
  match victim ≫= pd_data with
  | Some d =>
      log LogMode.Info (fmtName player ++ " murdered " ++ fmtName victim ++ ".");;
      emitPlayerFlags (pi_name d) PlayerFlag.IsDead true
  | None => log LogMode.Warn "Someone got murdered, but there was no data."
  end.


(** * Observations on traces *)

#[global] Instance LogMode_eq_dec : EqDecision LogMode.t.
Proof. solve_decision. Defined.

#[global] Instance PlayerFlag_eq_dec : EqDecision PlayerFlag.t.
Proof. solve_decision. Defined.

#[global] Instance GameSettings_eq_dec : EqDecision GameSettings.
Proof. solve_decision. Defined.

#[global] Instance DomainEvent_eq_dec : EqDecision DomainEvent.
Proof. solve_decision. Defined.

#[global] Instance ExternalCall_eq_dec : EqDecision ExternalCall.
Proof. solve_decision. Defined.

(** The domain events of a stretch of trace, in order. *)
Definition events_of (tr : list Obs) : list DomainEvent :=
  omap (fun o => match o with Emitted e => Some e | _ => None end) tr.

(** The external calls of a stretch of trace, in order. *)
Definition calls_of (tr : list Obs) : list ExternalCall :=
  omap (fun o => match o with Called c => Some c | _ => None end) tr.

(** The log lines of one mode. *)
Definition logs_of (mode : LogMode.t) (tr : list Obs) : list string :=
  omap (fun o => match o with
                 | Logged m text => if decide (m = mode) then Some text else None
                 | _ => None
                 end) tr.


Definition is_fatal_error (e : DomainEvent) : bool :=
  match e with ErrorEvent _ true => true | _ => false end.

Definition is_host_change (e : DomainEvent) : bool :=
  match e with HostChange _ => true | _ => false end.

(** A sample library: the one disconnect message the backend looks for. *)
Definition sample_lib : Library :=
  mkLibrary (fun _ => 42)
            (fun reason => if reason =? 3 then "Could not find the game you're looking for."
                           else "The game you tried to join is full.")
            (fun m => if m =? 0 then "TheSkeld" else "MiraHQ").

Definition connected_client : SkeldjsClient :=
  mkClient 0 true true (Some 42) "Roundcar" "10.0.0.1" 22023 true 7 None [] ∅ ∅ 0 None.

Definition sample_backend : Backend :=
  mkBackend false (Some connected_client) 0 [("10.0.0.1", 22023); ("10.0.0.2", 22023)] 0
            None None None (mkGameSettings 0 1) "ABCDEF".

Definition sample_state (script : list Reply) : St :=
  mkSt sample_backend ∅ ∅ 1 sample_lib script [].

(** The backend of [sample_state] after a completed [destroy]. *)
Definition destroyed_state : St :=
  mkSt (set_destroyed true (set_client None sample_backend)) ∅ ∅ 1 sample_lib []
       [Called (RemoveListeners "client.disconnect"); Called Disconnect;
        Logged LogMode.Info "Destroyed PublicLobbyBackend."].

Definition count_where {A} (f : A -> bool) (l : list A) : nat := length (List.filter f l).

Definition is_helper_call (c : ExternalCall) : bool :=
  match c with GetAuthTokenProc _ _ => true | _ => false end.

(** Spawns of the token helper in a stretch of trace. *)
Definition helper_calls (tr : list Obs) : nat := count_where is_helper_call (calls_of tr).

(** Error log lines that report a failed token attempt. *)
Definition token_failure_logs (tr : list Obs) : nat :=
  count_where (String.prefix "Failed to get authorisation token, trying")
              (logs_of LogMode.Error tr).

(** Error log lines that announce the fall-back to token 0. *)
Definition token_fallback_logs (tr : list Obs) : nat :=
  count_where (String.prefix "Failed to get authorisation token from the server, using 0.")
              (logs_of LogMode.Error tr).

(** * Frames

    What a stretch of execution leaves alone.  [frame P st st'] says that
    going from [st] to [st'] did not touch the destroyed flag, the endpoint
    set, the endpoint index or the game code, kept the client handle present
    or absent as it was, dropped no cache, consumed replies of the world
    without inventing any, and only appended observations satisfying [P] to
    the trace. *)

Record frame (P : Obs -> Prop) (st st' : St) : Prop := mkFrame {
  fr_destroyed : destroyed (this st') = destroyed (this st);
  fr_master : master (this st') = master (this st);
  fr_server : server (this st') = server (this st);
  fr_gameCode : gameCode (this st') = gameCode (this st);
  fr_client : is_Some (client (this st')) <-> is_Some (client (this st));
  fr_cached : cached (this st) = true -> cached (this st') = true;
  fr_lib : lib st' = lib st;
  fr_script : (length (script st') <= length (script st))%nat;
  fr_trace : exists delta, trace st' = trace st ++ delta /\ Forall P delta
}.

(** A computation all of whose runs are framed by [P]. *)
Definition ran {A} (P : Obs -> Prop) (m : M A) : Prop := forall st, frame P st (m st).2.

(** The connect of a connection attempt: [connect(ip, undefined, undefined,
    port)], as [initialSpawn] and [doJoin] issue it.  The reconnects inside
    [joinGame] pass a user name. *)
Definition is_attempt_connect (c : ExternalCall) : bool :=
  match c with Connect _ None _ _ => true | _ => false end.

(** Calls that neither create a client nor start a connection attempt. *)
Definition inner_call (c : ExternalCall) : Prop :=
  match c with
  | NewClient _ => False
  | Connect _ None _ _ => False
  | _ => True
  end.

(** Observations of the protocol plumbing: logs and inner calls only. *)
Definition quiet (o : Obs) : Prop :=
  match o with
  | Emitted _ => False
  | Logged _ _ => True
  | Called c => inner_call c
  end.

Definition is_error (e : DomainEvent) : bool :=
  match e with ErrorEvent _ _ => true | _ => false end.

(** Observations that are neither an error report, nor the creation of a
    client, nor the connect of a connection attempt. *)
Definition no_error (o : Obs) : Prop :=
  match o with
  | Emitted e => is_error e = false
  | Logged _ _ => True
  | Called c => inner_call c
  end.

(** Any observation. *)
Definition any (o : Obs) : Prop := True.

(** Connection attempts in a stretch of trace. *)
Definition attempt_connects (tr : list Obs) : nat :=
  count_where is_attempt_connect (calls_of tr).

(** Fatal errors in a stretch of trace, in order. *)
Definition fatal_errors (tr : list Obs) : list DomainEvent :=
  List.filter is_fatal_error (events_of tr).

(** All error events in a stretch of trace, in order. *)
Definition error_events (tr : list Obs) : list DomainEvent :=
  List.filter is_error (events_of tr).

(** A computation whose every returned value satisfies [Q]. *)
Definition returns {A} (Q : A -> Prop) (m : M A) : Prop :=
  forall st, match (m st).1 with Val a => Q a | _ => True end.

(** [{pre} m {post}] for the runs of [m] that return. *)
Definition hoare {A} (pre : St -> Prop) (m : M A) (post : A -> St -> Prop) : Prop :=
  forall st, pre st -> match m st with (Val a, st') => post a st' | _ => True end.

Definition has_client (st : St) : Prop := is_Some (client (this st)).

(** The retries among the results of a round of [doJoin]. *)
Definition is_retry (n : Next) : bool :=
  match n with Return _ => false | _ => true end.

Definition is_warmup_retry (n : Next) : bool :=
  match n with RetryAfterWarmup _ => true | _ => false end.

(** The retries that move on to the next endpoint. *)
Definition rotates (n : Next) : bool :=
  match n with RetryAfterWarmup _ | RetryAfterConnect _ => true | _ => false end.

Definition next_attempt (n : Next) : Z :=
  match n with
  | Return _ => 0
  | RetryAfterWarmup a | RetryAfterConnect a | RetryAfterJoin a => a
  end.

(** Connection attempts of a failed round: one, and one more when the round
    first had to warm up and the warm-up went through. *)
Definition round_connects (was_cached : bool) (n : Next) : nat :=
  if was_cached || is_warmup_retry n then 1%nat else 2%nat.

Definition rotated (b : Backend) : nat := ((server b + 1) mod length (master b))%nat.

(** A run of rounds of [doJoin], each ending in a retry, from attempt [a]
    up to the exhaustion of the [max] attempts; [ns] lists the retries. *)
Inductive failing_run (max : Z) : Z -> St -> list Next -> St -> Prop :=
| failing_nil st : failing_run max max st [] st
| failing_cons a st n st1 ns st' :
    doJoin_round max a st = (Val n, st1) ->
    is_retry n = true ->
    failing_run max (a + 1) st1 ns st' ->
    failing_run max a st (n :: ns) st'.

(** The state in which [doJoin] gives up. *)
Definition gave_up (max : Z) (st : St) : St :=
  observe (Emitted (ErrorEvent (exhausted_message max) true))
          (observe (Logged LogMode.Fatal "Couldn't join game.") st).

(** One rotation of the endpoint index. *)
Definition rotate (len : nat) (s : nat) : nat := ((s + 1) mod len)%nat.

Definition is_nonfatal_error (e : DomainEvent) : bool :=
  match e with ErrorEvent _ false => true | _ => false end.

(** An executable check of [failing_run]: run [k] rounds and keep going
    only while each of them ends in a retry. *)
Fixpoint retry_rounds (k : nat) (max a : Z) (st : St) : option (list Next * St) :=
  match k with
  | O => if a =? max then Some ([], st) else None
  | S k =>
      match doJoin_round max a st with
      | (Val n, st1) =>
          if is_retry n then
            match retry_rounds k max (a + 1) st1 with
            | Some (ns, st') => Some (n :: ns, st')
            | None => None
            end
          else None
      | _ => None
      end
  end.

(** * Scenarios *)

Definition keep (c : SkeldjsClient) : SkeldjsClient := c.

(** A client that is not connected yet. *)
Definition idle_client : SkeldjsClient :=
  mkClient 0 false false None "" "" 0 false 7 None [] ∅ ∅ 0 None.

(** A backend before its first join: no caches. *)
Definition cold_state (script : list Reply) : St :=
  mkSt (mkBackend false (Some idle_client) 0 [("10.0.0.1", 22023); ("10.0.0.2", 22023)] 0
                  None None None (mkGameSettings 0 1) "ABCDEF")
       ∅ ∅ 1 sample_lib script [].

(** A backend that has been in the game: the caches are there. *)
Definition warm_state (script : list Reply) : St :=
  mkSt (mkBackend false (Some connected_client) 0 [("10.0.0.1", 22023); ("10.0.0.2", 22023)] 0
                  (Some ∅) (Some ∅) (Some 0%nat) (mkGameSettings 0 1) "ABCDEF")
       ∅ ∅ 1 sample_lib script [].

(** A warm-up round in which the server accepts the connection and never
    answers the identification; the disconnect that follows settles. *)
Definition identify_timeout_round : list Reply := [Settles keep; Stalls; Settles keep].

(** A rejoin round in which the server rejects the join: the game is full. *)
Definition join_rejected_round : list Reply :=
  [Settles keep; Settles keep; Settles keep; Delivers (JoinGameError 2) keep].

(** A warm-up round in which the connect throws. *)
Definition connect_refused_round : list Reply := [Throws "connect ECONNREFUSED" keep; Settles keep].

Definition five_timeouts : St :=
  cold_state (concat (replicate 5 identify_timeout_round)).

Definition five_timeouts_kinds : list Next :=
  match retry_rounds 5 5 0 five_timeouts with Some (ns, _) => ns | None => [] end.

Definition five_timeouts_end : St :=
  match retry_rounds 5 5 0 five_timeouts with Some (_, st) => st | None => five_timeouts end.

Definition five_rejections : St :=
  warm_state (concat (replicate 5 join_rejected_round)).

Definition connect_refused : St := cold_state connect_refused_round.

(** * The state cache, observed *)

(** The entries of a cache that hold an entity. *)
Definition live (cache : gmap Z (option nat)) : gmap Z nat := omap id cache.

(** [arr[i]]: a hole and an index past the end both read as undefined. *)
Definition js_get {A} (l : list (option A)) (i : nat) : option A := l !! i ≫= id.

(** The entities a cache refers to. *)
Definition refs_of (cache : gmap Z (option nat)) (r : nat) : Prop :=
  exists id, cache !! id = Some (Some r).

Definition refs_in (l : list (option nat)) (r : nat) : Prop :=
  exists i, l !! i = Some (Some r).

(** [e'] is [e] with the [room] of the entities in [S] set to [oid], and
    nothing else changed. *)
Record rebound (oid : nat) (S : nat -> Prop) (e e' : gmap nat Entity) : Prop := mkRebound {
  rb_either : forall r, e' !! r = e !! r
                        \/ e' !! r = (fun x => mkEntity oid (ent_ownerid x)) <$> e !! r;
  rb_inside : forall r, S r -> e' !! r = (fun x => mkEntity oid (ent_ownerid x)) <$> e !! r;
  rb_outside : forall r, ~ S r -> e' !! r = e !! r
}.

(** A snapshot whose singleton list ends in a hole, and a new session whose
    own list is empty. *)
Definition trailing_hole_client : SkeldjsClient :=
  mkClient 1 true true (Some 42) "Roundcar" "10.0.0.1" 22023 true 7 None [] ∅ ∅ 11 None.

Definition trailing_hole : St :=
  mkSt (mkBackend false (Some trailing_hole_client) 0 [("10.0.0.1", 22023)] 0
          (Some ∅) (Some ∅) (Some 10%nat) (mkGameSettings 0 1) "ABCDEF")
       {[ 5%nat := mkEntity 0 3 ]} {[ 10%nat := [Some 5%nat; None] ]} 12 sample_lib [] [].

(** The state after a reattachment: the client, the entities and the arrays
    are replaced, everything else stays. *)
Definition reattached (st : St) (c' : SkeldjsClient) (e' : gmap nat Entity)
    (a' : gmap nat (list (option nat))) : St :=
  mkSt (set_client (Some c') (this st)) e' a' (next_oid st) (lib st) (script st) (trace st).

(** What the reattach step has done to a state whose client is [c]. *)
Definition reattach_post (players components : gmap Z (option nat)) (g : nat)
    (st : St) (c : SkeldjsClient) : Prop :=
  exists c' e' a',
    do_reattach players components g st = (Val tt, reattached st c' e' a')
    /\ c' = with_netobjects (live components ∪ c_netobjects c)
                            (with_objects (live players ∪ c_objects c) c)
    /\ (forall id r, players !! id = Some (Some r) -> c_objects c' !! id = Some r)
    /\ (forall id r, components !! id = Some (Some r) -> c_netobjects c' !! id = Some r)
    /\ (forall id, live players !! id = None -> c_objects c' !! id = c_objects c !! id)
    /\ (forall id, live components !! id = None -> c_netobjects c' !! id = c_netobjects c !! id)
    /\ rebound (c_oid c)
               (fun r => refs_of players r \/ refs_of components r
                         \/ refs_in (array_at g st) r)
               (ents st) e'
    /\ (forall j, j <> c_components c -> a' !! j = arrs st !! j)
    /\ (forall i : nat,
          js_get (default [] (a' !! c_components c)) i
          = match js_get (array_at g st) i with
            | Some r => Some r
            | None => js_get (array_at (c_components c) st) i
            end).

(** * One handshake, observed *)


(** The state once the join request has been sent and the payload has
    arrived: the library has updated the client twice. *)
Definition joined_client (c : SkeldjsClient) (u1 u2 : SkeldjsClient -> SkeldjsClient)
    : SkeldjsClient :=
  with_oid (c_oid c) (u2 (with_oid (c_oid c) (u1 c))).

Definition after_payload (st : St) (c2 : SkeldjsClient) (code : Z) (rest : list Reply) : St :=
  mkSt (set_client (Some c2) (this st)) (ents st) (arrs st) (next_oid st) (lib st) rest
       (trace st ++ [Called (SendJoinGame code); Called WaitPayload]).



(** * The host-change handler, observed *)



(** What [disconnect] leaves in the three caches: the objects of the other
    clients, the components that the client does not own, and the array of
    room components of the client, by reference. *)
Definition snapshot_of (c : SkeldjsClient) (st : St) (b : Backend) : Prop :=
  players_cache b
  = Some (Some <$> filter (fun kv : Z * nat => kv.1 ≠ c_clientid c ∧ 0 < kv.1) (c_objects c))
  /\ components_cache b
     = Some (Some <$> filter (fun kv : Z * nat =>
                                ent_ownerid <$> (ents st !! kv.2) ≠ Some (c_clientid c))
                             (c_netobjects c))
  /\ global_cache b = Some (c_components c).


Definition red : PlayerData := mkPlayerData 9 (Some (mkPlayerInfo "Red" 0)).

Definition roundcar : PlayerData := mkPlayerData 7 (Some (mkPlayerInfo "Roundcar" 1)).

(** The client in a room with one other player. *)
Definition hosting_client (players : list PlayerData) : SkeldjsClient :=
  mkClient 0 true true (Some 42) "Roundcar" "10.0.0.1" 22023 true 7 (Some roundcar)
           players ∅ ∅ 0 None.

Definition hosting_state (players : list PlayerData) (script : list Reply) : St :=
  mkSt (mkBackend false (Some (hosting_client players)) 0
                  [("10.0.0.1", 22023); ("10.0.0.2", 22023)] 0
                  None None None (mkGameSettings 0 1) "ABCDEF")
       ∅ ∅ 1 sample_lib script [].




(** * The snapshot and its restoration, observed *)

(** The objects that [resetObjectCaches] keeps: not the client's own, not a
    global one. *)
Definition kept_objects (c : SkeldjsClient) : gmap Z nat :=
  filter (fun kv : Z * nat => kv.1 ≠ c_clientid c ∧ 0 < kv.1) (c_objects c).

(** The components that [resetObjectCaches] keeps: those of the others. *)
Definition kept_netobjects (c : SkeldjsClient) (e : gmap nat Entity) : gmap Z nat :=
  filter (fun kv : Z * nat => ent_ownerid <$> (e !! kv.2) ≠ Some (c_clientid c))
         (c_netobjects c).

Definition snapshot_restored (st0 st : St) (c0 c : SkeldjsClient) (g : nat) : Prop :=
  exists pc cc c',
    players_cache (this (resetObjectCaches st0).2) = Some pc
    /\ components_cache (this (resetObjectCaches st0).2) = Some cc
    /\ client (this (reattach pc cc g st)) = Some c'
    /\ c_objects c' = kept_objects c0 ∪ c_objects c
    /\ c_netobjects c' = kept_netobjects c0 (ents st0) ∪ c_netobjects c
    /\ (c_objects c = ∅ -> c_objects c' = kept_objects c0)
    /\ (c_objects c = c_objects c0 -> c_objects c' = c_objects c0)
    /\ c_objects c' !! c_clientid c0 = c_objects c !! c_clientid c0.

(** A client that knows two players and a global object, with one
    component of its own and one of another player. *)
Definition crowded_client : SkeldjsClient :=
  mkClient 0 true true (Some 42) "Roundcar" "10.0.0.1" 22023 true 7 None []
           {[ 7 := 20%nat; 9 := 21%nat; (-2) := 22%nat ]}
           {[ 30 := 23%nat; 31 := 24%nat ]} 0 None.

Definition crowded : St :=
  mkSt (mkBackend false (Some crowded_client) 0 [("10.0.0.1", 22023)] 0
                  None None None (mkGameSettings 0 1) "ABCDEF")
       {[ 20%nat := mkEntity 0 7; 21%nat := mkEntity 0 9; 22%nat := mkEntity 0 (-2);
          23%nat := mkEntity 0 7; 24%nat := mkEntity 0 9 ]}
       {[ 0%nat := [Some 22%nat] ]} 1 sample_lib [] [].

(** The same backend after the library has emptied the registries of the
    client. *)
Definition emptied : St :=
  mkSt (mkBackend false (Some connected_client) 0 [("10.0.0.1", 22023)] 0
                  None None None (mkGameSettings 0 1) "ABCDEF")
       (ents crowded) (arrs crowded) 1 sample_lib [] [].

(** A rejoin that the server answers with the game-not-found reason. *)
Definition game_is_gone : St :=
  warm_state [Settles keep; Settles keep; Settles keep; Delivers (JoinGameError 3) keep].

(** * resolveMMDNS

    [PublicLobbyBackend.OfficialServers] is a static table from regions to
    endpoint lists; [lookupDns] is [dns.lookup], awaited once per name, in
    the order of the names.  The answers of the resolver are a script, as
    the replies of the server are. *)

Record LookupAddress := mkLookupAddress { la_address : string; la_family : Z }.

(** What [lookupDns(name, { all: true, family: 4 })] settles with. *)
Inductive DnsReply :=
| Resolved (ips : list LookupAddress)
| Rejected (msg : string)
| Unanswered.

(** [ips.filter(ip => ip.family === 4).map(ip => [ ip.address, 22023 ])]. *)
Definition v4 (ips : list LookupAddress) : list Endpoint :=
  (fun ip => (la_address ip, 22023)) <$> List.filter (fun ip => la_family ip =? 4) ips.

(** The loop over [names]; [servers] is the array filled so far. *)
Fixpoint lookup_names (names : list string) (dns : list DnsReply) (servers : list Endpoint)
    : Res (list Endpoint) * list DnsReply :=
  match names with
  | [] => (Val servers, dns)
  | _ :: names =>
      match dns with
      | Resolved ips :: dns => lookup_names names dns (servers ++ v4 ips)
      | Rejected msg :: dns => (Exn msg, dns)
      | Unanswered :: dns => (Hang, dns)
      | [] => (Hang, [])
      end
  end.

(** [resolveMMDNS(region, names)]: the result, the table and the answers
    that are left. *)
Definition resolveMMDNS (region : string) (names : list string) (regions : gmap string (list Endpoint))
    (dns : list DnsReply) : Res (list Endpoint) * gmap string (list Endpoint) * list DnsReply :=
  match lookup_names names dns [] with
  | (Val servers, dns) =>
      let regions := if regions !! region is Some _ then regions else <[region := []]> regions in
      let all := default [] (regions !! region) ++ servers in
      (Val all, <[region := all]> regions, dns)
  | (Exn e, dns) => (Exn e, regions, dns)
  | (Hang, dns) => (Hang, regions, dns)
  end.

(** * awaitSpawns

    The promise of [awaitSpawns] is resolved by the listener [onSpawn] that
    it installs for [component.spawn]; the listener keeps two locals,
    [playersSpawned] and [gamedataSpawned], and removes itself when it
    resolves the promise. *)

Inductive Component :=
| GameData (players : list PlayerInfo)
| PlayerControl (ownerid : Z)
| OtherComponent (classname : string).

Record SpawnWait := mkSpawnWait { playersSpawned : list Z; gamedataSpawned : bool }.

(** One call of [onSpawn]; the boolean tells whether it resolved the
    promise. *)
Definition onSpawn (component : Component) (w : SpawnWait) : M (SpawnWait * bool) :=
  let* cl := gets client in
  match cl with
  | None => ret (w, false)
  | Some _ =>
      let* w :=
        match component with
        | GameData players =>
            for_each players (fun p =>
              when (negb (String.eqb (pi_name p) "")) (emitPlayerColor (pi_name p) (pi_color p)));;
            ret (mkSpawnWait (playersSpawned w) true)
        | PlayerControl ownerid =>
            ret (mkSpawnWait (playersSpawned w ++ [ownerid]) (gamedataSpawned w))
        | OtherComponent _ => ret w
        end in
      if gamedataSpawned w then
        let* c := the_client in
        if forallb (fun p => bool_decide (pd_id p ∈ playersSpawned w)) (c_players c)
        then ret (w, true)
        else ret (w, false)
      else ret (w, false)
  end.

(** The spawns that the library announces while the promise is pending,
    each after an update of the client by the library.  Without a further
    spawn the promise stays pending. *)
Fixpoint awaitSpawns_events (evs : list ((SkeldjsClient -> SkeldjsClient) * Component))
    (w : SpawnWait) : M bool :=
  match evs with
  | [] => hang
  | (upd, component) :: evs =>
      lib_update upd;;
      let* r := onSpawn component w in
      if r.2 then ret true else awaitSpawns_events evs r.1
  end.

Definition awaitSpawns (evs : list ((SkeldjsClient -> SkeldjsClient) * Component)) : M bool :=
  let* cl := gets client in
  match cl with
  | None => ret false
  | Some _ => awaitSpawns_events evs (mkSpawnWait [] false)
  end.

(** The game data and a player control of every player are among the
    spawned components. *)
Definition all_spawned (players : list PlayerData) (spawned : list Component) : Prop :=
  (exists ps, GameData ps ∈ spawned)
  /\ forall p, p ∈ players -> PlayerControl (pd_id p) ∈ spawned.

(** The library leaves the players of the room as they are. *)
Definition keeps_players (ev : (SkeldjsClient -> SkeldjsClient) * Component) : Prop :=
  forall c, c_players (ev.1 c) = c_players c.

(** The locals of the listener after one more spawn. *)
Definition spawn_noted (component : Component) (w : SpawnWait) : SpawnWait :=
  match component with
  | GameData _ => mkSpawnWait (playersSpawned w) true
  | PlayerControl ownerid => mkSpawnWait (playersSpawned w ++ [ownerid]) (gamedataSpawned w)
  | OtherComponent _ => w
  end.

Definition spawn_complete (players : list PlayerData) (w : SpawnWait) : bool :=
  gamedataSpawned w && forallb (fun p => bool_decide (pd_id p ∈ playersSpawned w)) players.

(** * More handlers installed by initialize *)

(** [player.setimpostors]. *)
Definition on_setimpostors (impostors : list (option PlayerData)) : M unit :=
  for_each impostors (fun player =>
    match player ≫= pd_data with
    | Some d =>
        log LogMode.Info (fmtName player ++ " was made impostor.");;
        emitPlayerFlags (pi_name d) PlayerFlag.IsImpostor true
    | None => log LogMode.Warn "Someone was made impostor, but there was no data."
    end).

(** An entry of the game data, as [gamedata.removeplayer] carries it. *)
Record GameDataPlayer := mkGameDataPlayer { gp_playerId : Z; gp_name : string }.

(** [gamedata.removeplayer].  [getPlayerByPlayerId] is the lookup of the
    library in the client; the handler reads [playerData.playerId] before
    it tests [playerData]. *)
Definition on_removeplayer (getPlayerByPlayerId : SkeldjsClient -> Z -> option PlayerData)
    (playerData : option GameDataPlayer) : M unit :=
  let* cl := gets client in
  match cl with
  | None => ret tt
  | Some c =>
      match playerData with
      | None => throw "Cannot read properties of undefined"
      | Some pd =>
          let player := getPlayerByPlayerId c (gp_playerId pd) in
          log LogMode.Info ("Removed " ++ fmtName player);;
          emitPlayerColor (gp_name pd) (-1)
      end
  end.

(** The impostors that come with data. *)
Definition named_impostors (impostors : list (option PlayerData)) : list PlayerInfo :=
  omap (fun player => player ≫= pd_data) impostors.

(** * initialize *)

Definition set_master (v : list Endpoint) (b : Backend) : Backend :=
  mkBackend (destroyed b) (client b) (authToken b) v (server b) (players_cache b)
            (components_cache b) (global_cache b) (settings b) (gameCode b).

(** [await this.resolveMMDNS(region, dns)] inside the backend. *)
Definition await_resolve (region : string) (names : list string)
    (regions : gmap string (list Endpoint)) (dns : list DnsReply) : M (list Endpoint) :=
  match (resolveMMDNS region names regions dns).1.1 with
  | Val servers => ret servers
  | Exn e => throw e
  | Hang => hang
  end.

Definition invalid_region_message (region : string) : string :=
  "Couldn't resolve IP for the among us matchmaking services, invalid region '" ++ region ++ "'.".

Definition unresolved_message : string :=
  "Couldn't resolve IP for the among us matchmaking services, ask an admin to check the logs for more information.".

Definition unknown_error_message : string :=
  "An unknown error occurred, join the discord to contact an admin for help.".

(** The body of the outer [try] of [initialize].  [names] is
    [MatchmakerServers[region]], a table that is not part of the sources;
    [draw n] is [~~(Math.random() * n)].  [this.authToken] is a number, so
    the test [this.authToken === null] never succeeds.  The result tells
    whether the handlers were installed: installing them is a series of
    calls of [this.client.on] that return. *)
Definition initialize_body (region : string) (names : option (list string))
    (regions : gmap string (list Endpoint)) (dns : list DnsReply) (draw : nat -> nat)
    : M bool :=
  log LogMode.Info ("PublicLobbyBackend initialized in region " ++ region);;
  match names with
  | None => emitError (invalid_region_message region) true;; ret false
  | Some names =>
      let* resolved :=
        try_catch
          (let* servers := await_resolve region names regions dns in
           modify (set_master servers);;
           ret true)
          (fun e =>
             log LogMode.Error (error_toString e);;
             emitError unresolved_message true;;
             ret false) in
      if negb resolved then ret false
      else
        modify (fun b => set_server (draw (length (master b))) b);;
        log LogMode.Info "Getting authorisation token from server..";;
        let* srv := gets (fun b => master b !! server b) in
        let* tok := tryGetAuthToken srv in
        modify (set_authToken tok);;
        log LogMode.Success ("Successfully got authorization token from the server, "
                             ++ pretty tok ++ ".");;
        let* ok := doJoin 5 0 in
        if negb ok then ret false
        else
          let* cl := gets client in
          match cl with
          | None => ret false
          | Some _ =>
              log LogMode.Success "Initialized PublicLobbyBackend!";;
              ret true
          end
  end.

Definition initialize (region : string) (names : option (list string))
    (regions : gmap string (list Endpoint)) (dns : list DnsReply) (draw : nat -> nat)
    : M bool :=
  modify (set_destroyed false);;
  try_catch (initialize_body region names regions dns draw)
    (fun err =>
       log LogMode.Error "An error occurred.";;
       log LogMode.Error (error_toString err);;
       emitError unknown_error_message true;;
       destroy;;
       ret false).

(** A backend as its constructor leaves it, for the game [code]. *)
Definition constructed (code : string) (script : list Reply) : St :=
  mkSt (mkBackend false None 0 [] 0 None None None (mkGameSettings 0 1) code)
       ∅ ∅ 1 sample_lib script [].

(** Log lines only. *)
Definition is_logged (o : Obs) : Prop := if o is Logged _ _ then True else False.

(** What the library does to the client when the socket opens, when the
    server acknowledges the identification, and when the client is let
    into the room. *)
Definition socket_opens (c : SkeldjsClient) : SkeldjsClient :=
  mkClient (c_oid c) (c_identified c) (c_me c) (c_code c) (c_username c) (c_ip c) (c_port c)
           true (c_clientid c) (c_host c) (c_players c) (c_objects c) (c_netobjects c)
           (c_components c) (c_settings c).

Definition identified_now (c : SkeldjsClient) : SkeldjsClient :=
  mkClient (c_oid c) true (c_me c) (c_code c) (c_username c) (c_ip c) (c_port c)
           (c_socket c) (c_clientid c) (c_host c) (c_players c) (c_objects c) (c_netobjects c)
           (c_components c) (c_settings c).

Definition let_in (code : Z) (c : SkeldjsClient) : SkeldjsClient :=
  mkClient (c_oid c) (c_identified c) (c_me c) (Some code) (c_username c) (c_ip c) (c_port c)
           (c_socket c) (c_clientid c) (c_host c) (c_players c) (c_objects c) (c_netobjects c)
           (c_components c) (c_settings c).

(** A first join in which the client gets into the room and receives the
    spawns and the settings, but never its own player object: the read of
    [this.client.me.control] throws, and so does the disconnect of the
    destruction that follows. *)
Definition no_player_object : St :=
  constructed "ABCDEF"
    [Helper (ProcToken 100 777); Settles socket_opens; Settles identified_now;
     Settles keep; Delivers JoinedGame (let_in 42);
     Spawns [] (Some (Some (mkGameSettings 1 2))) keep;
     Throws "socket closed" keep].

(** * The endpoint under the index *)

(** The endpoint list is [ms] and the index addresses one of its entries. *)
Definition endpoint_ok (ms : list Endpoint) (st : St) : Prop :=
  master (this st) = ms /\ (server (this st) < length ms)%nat.

(** A computation that keeps the endpoint list and keeps the index inside
    it, however it ends. *)
Definition keeps_endpoint {A} (ms : list Endpoint) (m : M A) : Prop :=
  forall st, endpoint_ok ms st -> endpoint_ok ms (m st).2.

(** * The settings of a warm-up *)








(** * The web client

    The component [ServerDisplayer] decides how loud each remote stream
    is; the store keeps what the server told about the players.  Positions
    are only handed on, so their type is left open; the gain of a stream is
    0, 1, or the value that [lerp] computes from two positions. *)

Module Webui.

(** [PlayerFlag] of [ClientModel.ts]: bits of one number. *)
Definition IsImpostor : Z := 1.
Definition IsDead : Z := 2.
Definition OnCams : Z := 4.

(** [flags & flag], as a condition. *)
Definition has (flag flags : Z) : bool := negb (Z.land flags flag =? 0).

Inductive GameState := Lobby | Game | Meeting.

Definition GameState_eqb (a b : GameState) : bool :=
  match a, b with
  | Lobby, Lobby | Game, Game | Meeting, Meeting => true
  | _, _ => false
  end.

Section webui.
Context {Pose : Type}.

(** [ventid] is undefined when a payload did not carry it. *)
Record ClientModel := mkClientModel {
  uuid : string;
  name : string;
  position : Pose;
  color : Z;
  flags : Z;
  ventid : option Z
}.

(** The host options that decide about a volume.  An option that the
    object does not have reads as undefined, which is false in a
    condition. *)
Record HostOptions := mkHostOptions {
  falloffVision : bool;
  colliders : bool;
  paSystems : bool;
  commsSabotage : bool;
  meetingsCommsSabotage : bool
}.

(** The part of [$store.state] that the volume depends on. *)
Record State := mkState {
  me : ClientModel;
  clients : list ClientModel;
  options : HostOptions;
  omniscientGhosts : bool;
  gameState : GameState;
  gameFlags : Z
}.

Inductive Gain :=
| Zero
| One
| Lerp (p1 p2 : Pose).

(** The position of the panner node: [(0, 0, 0)], or
    [(p2.x - p1.x, p2.y - p1.y, 1)]. *)
Inductive Pan :=
| Centre
| Offset (p1 p2 : Pose).

Record Stream := mkStream { s_uuid : string; s_gain : Gain; s_pan : Pan }.

(** [arr.find(pred)]. *)
Definition find_first {A} (pred : A -> bool) (l : list A) : option A := List.find pred l.

(** [const x = arr.find(pred); if (x) mutate(x)]: the first match is
    changed in place. *)
Fixpoint update_first {A} (pred : A -> bool) (f : A -> A) (l : list A) : list A :=
  match l with
  | [] => []
  | x :: l => if pred x then f x :: l else x :: update_first pred f l
  end.

Definition silence (s : Stream) : Stream := mkStream (s_uuid s) Zero Centre.

Definition open_up (s : Stream) : Stream := mkStream (s_uuid s) One Centre.

(** The parts of the component that come from libraries: the map of the
    room, [getClosestCamera] and the intersection test of [poseCollide]. *)
Context (map : Z) (getClosestCamera : Pose -> Z -> option Pose)
        (poseCollide : Z -> Pose -> Pose -> bool).

(** [GameFlag.CommsSabotaged], of a model that is not among the sources. *)
Context (CommsSabotaged : Z).

Definition setGainAndPan (st : State) (s : Stream) (p1 p2 : Pose) : Stream :=
  if poseCollide map p1 p2 && colliders (options st) then silence s
  else mkStream (s_uuid s) (Lerp p1 p2) (Offset p1 p2).

Definition recalcVolumeForRemoteStream (st : State) (s : Stream) : Stream :=
  let myFlags := flags (me st) in
  match find_first (fun c => String.eqb (uuid c) (s_uuid s)) (clients st) with
  | None => s
  | Some client =>
      if has IsDead (flags client) && negb (has IsDead myFlags) then silence s
      else if negb (has IsDead myFlags)
              && has CommsSabotaged (gameFlags st)
              && commsSabotage (options st)
              && (negb (GameState_eqb (gameState st) Meeting)
                  || meetingsCommsSabotage (options st))
      then silence s
      else if GameState_eqb (gameState st) Meeting then open_up s
      else if has IsDead myFlags && omniscientGhosts st then open_up s
      else
        let p2 := position client in
        let p1 :=
          if has OnCams (flags (me st))
          then default (position (me st)) (getClosestCamera p2 map)
          else position (me st) in
        setGainAndPan st s p1 p2
  end.

(** [onSetFlagsOf]. *)
Definition onSetFlagsOf (st : State) (payload_uuid : string) (payload_flags : Z)
    (remoteStreams : list Stream) : list Stream :=
  if has IsDead payload_flags then
    if String.eqb payload_uuid (uuid (me st)) then
      (fun s => if omniscientGhosts st then open_up s else s) <$> remoteStreams
    else if negb (has IsDead (flags (me st))) then
      update_first (fun s => String.eqb (s_uuid s) payload_uuid)
                   (fun s => mkStream (s_uuid s) Zero (s_pan s)) remoteStreams
    else remoteStreams
  else remoteStreams.

(** [onSetGameFlags]. *)
Definition onSetGameFlags (st : State) (payload_flags : Z) (remoteStreams : list Stream)
    : list Stream :=
  if negb (GameState_eqb (gameState st) Lobby) then
    if has CommsSabotaged payload_flags then
      if negb (has IsDead (flags (me st))) then silence <$> remoteStreams else remoteStreams
    else recalcVolumeForRemoteStream st <$> remoteStreams
  else remoteStreams.

(** [onSetGameState]. *)
Definition onSetGameState (st : State) (payload_state : GameState)
    (remoteStreams : list Stream) : list Stream :=
  match payload_state with
  | Meeting =>
      if has CommsSabotaged (gameFlags st) && meetingsCommsSabotage (options st)
      then silence <$> remoteStreams
      else open_up <$> remoteStreams
  | Game => recalcVolumeForRemoteStream st <$> remoteStreams
  | Lobby => remoteStreams
  end.

(** [onSetPositionOf]. *)
Definition onSetPositionOf (st : State) (payload_uuid : string) (remoteStreams : list Stream)
    : list Stream :=
  if negb (GameState_eqb (gameState st) Meeting) then
    if String.eqb (uuid (me st)) payload_uuid
    then recalcVolumeForRemoteStream st <$> remoteStreams
    else update_first (fun s => String.eqb (s_uuid s) payload_uuid)
                      (recalcVolumeForRemoteStream st) remoteStreams
  else remoteStreams.

(** ** The store *)

(** The mutations [setPositionOf], [setColorOf], [setFlagsOf] and
    [setVentOf]: [findIndex], then an assignment to a field of the client
    at that index. *)
Definition set_field_of (f : ClientModel -> ClientModel) (payload_uuid : string)
    (cs : list ClientModel) : list ClientModel :=
  update_first (fun c => String.eqb (uuid c) payload_uuid) f cs.

Definition with_position (v : Pose) (c : ClientModel) : ClientModel :=
  mkClientModel (uuid c) (name c) v (color c) (flags c) (ventid c).

Definition with_color (v : Z) (c : ClientModel) : ClientModel :=
  mkClientModel (uuid c) (name c) (position c) v (flags c) (ventid c).

Definition with_flags (v : Z) (c : ClientModel) : ClientModel :=
  mkClientModel (uuid c) (name c) (position c) (color c) v (ventid c).

Definition with_ventid (v : option Z) (c : ClientModel) : ClientModel :=
  mkClientModel (uuid c) (name c) (position c) (color c) (flags c) v.

Definition with_me (v : ClientModel) (st : State) : State :=
  mkState v (clients st) (options st) (omniscientGhosts st) (gameState st) (gameFlags st).

Definition with_clients (v : list ClientModel) (st : State) : State :=
  mkState (me st) v (options st) (omniscientGhosts st) (gameState st) (gameFlags st).

(** The mutations [addClient] and [removeClient]. *)
Definition addClient (c : ClientModel) (st : State) : State :=
  with_clients (clients st ++ [c]) st.

Definition removeClient (payload_uuid : string) (st : State) : State :=
  with_clients (List.filter (fun c => negb (String.eqb (uuid c) payload_uuid)) (clients st)) st.

(** The actions [socket_setpositionof], [socket_setcolorof] and
    [socket_setflagsof]. *)
Definition socket_SetPositionOf (payload_uuid : string) (v : Pose) (st : State) : State :=
  if String.eqb payload_uuid (uuid (me st)) then with_me (with_position v (me st)) st
  else with_clients (set_field_of (with_position v) payload_uuid (clients st)) st.

Definition socket_SetColorOf (payload_uuid : string) (v : Z) (st : State) : State :=
  if String.eqb payload_uuid (uuid (me st)) then with_me (with_color v (me st)) st
  else with_clients (set_field_of (with_color v) payload_uuid (clients st)) st.

Definition socket_SetFlagsOf (payload_uuid : string) (v : Z) (st : State) : State :=
  if String.eqb payload_uuid (uuid (me st)) then with_me (with_flags v (me st)) st
  else with_clients (set_field_of (with_flags v) payload_uuid (clients st)) st.

(** The action [socket_setventof].  For another player it commits
    [{ uuid, venstid }]: the mutation reads [payload.ventid], which that
    object does not have. *)
Definition socket_SetVentOf (payload_uuid : string) (v : Z) (st : State) : State :=
  if String.eqb payload_uuid (uuid (me st)) then with_me (with_ventid (Some v) (me st)) st
  else with_clients (set_field_of (with_ventid None) payload_uuid (clients st)) st.

End webui.

End Webui.

(** * joinGame across redirects *)

(** One redirect: the endpoint that the server names, and what the token
    helper prints for it, and when. *)
Record Hop := mkHop { hop_ip : string; hop_port : Z; hop_at : Z; hop_token : Z }.

(** The replies of a world in which the join request is answered with the
    redirect, and the disconnect, the helper and the connect go through. *)
Definition hop_replies (h : Hop) : list Reply :=
  [Settles keep; Delivers (Redirect (hop_ip h) (hop_port h)) keep; Settles keep;
   Helper (ProcToken (hop_at h) (hop_token h)); Settles keep].

(** What [joinGame] calls for one redirect. *)
Definition hop_calls (code : Z) (username : string) (h : Hop) : list ExternalCall :=
  [SendJoinGame code; WaitPayload; Disconnect;
   GetAuthTokenProc (hop_ip h) (pretty (hop_port h + 2));
   Connect (hop_ip h) (Some username) (Some (hop_token h)) (hop_port h)].

Definition redirected (code : Z) (hops : list Hop) (st : St) (c : SkeldjsClient)
    (rest : list Reply) : Prop :=
  exists st' delta,
    joinGame (RoomInt code) false st = (Val (c_code c), st')
    /\ script st' = rest
    /\ trace st' = trace st ++ delta
    /\ calls_of delta
       = concat (hop_calls code (c_username c) <$> hops) ++ [SendJoinGame code; WaitPayload]
    /\ events_of delta = []
    /\ authToken (this st') = default (authToken (this st)) (hop_token <$> last hops).

(** * A join that succeeded *)

(** The backend is live, has a client and has the three caches. *)
Definition joined (st : St) : Prop :=
  destroyed (this st) = false /\ has_client st /\ cached (this st) = true.

Definition live_backend (st : St) : Prop := destroyed (this st) = false.

(** A backend holding its caches whose rejoin is accepted at once: the
    connection, the identification and the join request settle and the
    server answers the join. *)
Definition rejoin_accepted : St :=
  warm_state [Settles keep; Settles keep; Settles keep; Delivers JoinedGame keep].

(** * Properties *)

(** ** Traces *)

Lemma events_of_app (a b : list Obs) : events_of (a ++ b) = events_of a ++ events_of b.
Proof. apply omap_app. Qed.

Lemma calls_of_app (a b : list Obs) : calls_of (a ++ b) = calls_of a ++ calls_of b.
Proof. apply omap_app. Qed.

Lemma logs_of_app mode (a b : list Obs) : logs_of mode (a ++ b) = logs_of mode a ++ logs_of mode b.
Proof. apply omap_app. Qed.

(** Symbolic execution of straight-line code: unfold the monad and the
    primitives that never consult the world. *)
Ltac mrun_step :=
  cbv beta iota delta
    [bind ret throw hang try_catch race gets modify tell when get_lib
     log emitError emitHostChange emitPlayerColor emitPlayerFlags emitSettingsUpdate
     observe on_this set_script set_ents set_arrs set_next_oid
     set_destroyed set_client set_authToken set_server set_caches set_settings];
  cbn [this ents arrs next_oid lib script trace
       destroyed client authToken master server players_cache components_cache
       global_cache settings gameCode fst snd].

Ltac mrun := repeat progress mrun_step.

(** ** The murder handler *)

(** C8: a murder notification whose victim has data logs the kill and emits
    exactly one [PlayerFlags (victim name) IsDead true]; one whose victim is
    missing or has no data emits no domain event and logs exactly one
    warning.  Either way the handler returns normally and touches nothing
    but the trace. *)
Theorem murder_handler (player victim : option PlayerData) (st : St) :
  exists delta,
    on_murder player victim st
      = (Val tt, mkSt (this st) (ents st) (arrs st) (next_oid st) (lib st) (script st)
                      (trace st ++ delta))
    /\ calls_of delta = []
    /\ match victim ≫= pd_data with
       | Some d =>
           events_of delta = [PlayerFlags (pi_name d) PlayerFlag.IsDead true]
           /\ logs_of LogMode.Warn delta = []
       | None =>
           events_of delta = []
           /\ logs_of LogMode.Warn delta = ["Someone got murdered, but there was no data."]
       end.
Proof.
  unfold on_murder.
  destruct (victim ≫= pd_data) as [d|].
  - exists [Logged LogMode.Info (fmtName player ++ " murdered " ++ fmtName victim ++ ".");
             Emitted (PlayerFlags (pi_name d) PlayerFlag.IsDead true)].
    split; [|done].
    mrun. by rewrite <- app_assoc.
  - by exists [Logged LogMode.Warn "Someone got murdered, but there was no data."].
Qed.

(** ** The settings-sync handler *)

(** C1, as stated, fails: a notification that repeats the mirrored map and
    crewmate vision still makes the handler emit a [SettingsUpdate]. *)
Lemma syncsettings_unchanged_still_emits :
  let st := sample_state [] in
  let new := mkGameSettings 0 1 in
  gs_map new = gs_map (settings (this st))
  /\ gs_crewmateVision new = gs_crewmateVision (settings (this st))
  /\ events_of (trace (on_syncsettings new st).2) = events_of (trace st) ++ [SettingsUpdate new].
Proof. repeat split. Qed.

(** C1, amended: every settings-sync notification leaves the mirror equal to
    the notified map and crewmate vision and emits exactly one
    [SettingsUpdate] carrying the mirror, whether or not a field changed;
    only a changed field is written and logged. *)
Theorem syncsettings_emits_once (new : GameSettings) (st : St) :
  exists delta,
    on_syncsettings new st
      = (Val tt, mkSt (set_settings new (this st)) (ents st) (arrs st) (next_oid st) (lib st)
                      (script st) (trace st ++ delta))
    /\ events_of delta = [SettingsUpdate new]
    /\ calls_of delta = []
    /\ length (logs_of LogMode.Info delta)
       = ((if Z.eqb (gs_crewmateVision new) (gs_crewmateVision (settings (this st))) then 0 else 1)
          + (if Z.eqb (gs_map new) (gs_map (settings (this st))) then 0 else 1))%nat.
Proof.
  destruct new as [m v], st as [[d c a ms sv pc cc gc [m0 v0] g] e ar n l sc tr].
  unfold on_syncsettings. mrun. cbn [gs_map gs_crewmateVision negb].
  destruct (v =? v0) eqn:Hv; destruct (m =? m0) eqn:Hm; cbn [negb]; mrun;
    cbn [gs_map gs_crewmateVision]; rewrite ?Hm; cbn [negb]; mrun;
    cbn [gs_map gs_crewmateVision];
    try apply Z.eqb_eq in Hv; try apply Z.eqb_eq in Hm; subst.
  - by exists [Emitted (SettingsUpdate (mkGameSettings m0 v0))].
  - eexists [_; _]. rewrite <- app_assoc. done.
  - eexists [_; _]. rewrite <- app_assoc. done.
  - eexists [_; _; _]. rewrite <- !app_assoc. done.
Qed.

(** ** destroy *)



(** ** Token acquisition *)

Lemma count_where_app {A} (f : A -> bool) (a b : list A) :
  count_where f (a ++ b) = (count_where f a + count_where f b)%nat.
Proof. unfold count_where. by rewrite List.filter_app, length_app. Qed.

Lemma helper_calls_app a b : helper_calls (a ++ b) = (helper_calls a + helper_calls b)%nat.
Proof. unfold helper_calls. by rewrite calls_of_app, count_where_app. Qed.

Lemma token_failure_logs_app a b :
  token_failure_logs (a ++ b) = (token_failure_logs a + token_failure_logs b)%nat.
Proof. unfold token_failure_logs. by rewrite logs_of_app, count_where_app. Qed.

Lemma token_fallback_logs_app a b :
  token_fallback_logs (a ++ b) = (token_fallback_logs a + token_fallback_logs b)%nat.
Proof. unfold token_fallback_logs. by rewrite logs_of_app, count_where_app. Qed.

(** The promise of [getAuthToken] settles within the two seconds, and what
    arrives later than that is a rejection. *)
Lemma settle_token_bounded (ev : ProcEvent) :
  (settle_token ev).2 <= 2000
  /\ (forall tok, (settle_token ev).1 = inl tok -> (settle_token ev).2 < 2000).
Proof.
  unfold settle_token, token_timeout.
  destruct ev as [t tok|t msg|]; simpl; try destruct (t <? 2000) eqn:Ht; simpl;
    try apply Z.ltb_lt in Ht; split; try lia; intros ? [=]; lia.
Qed.

(** One call of [getAuthToken]: it settles, spawning the helper once when
    there is an endpoint to hand to it, and touches nothing of the backend. *)
Lemma getAuthToken_run (ip : option Endpoint) (st : St) :
  exists r st' delta,
    getAuthToken ip st = (r, st')
    /\ r <> Hang
    /\ this st' = this st /\ ents st' = ents st /\ arrs st' = arrs st
    /\ trace st' = trace st ++ delta
    /\ events_of delta = []
    /\ logs_of LogMode.Error delta = []
    /\ helper_calls delta = (if ip is Some _ then 1 else 0)%nat
    /\ (if ip is Some _ then True else exists e, r = Exn e).
Proof.
  destruct ip as [[ip port]|]; unfold getAuthToken.
  - unfold pop_reply. mrun.
    set (c := Called _).
    destruct (script st) as [|r sc]; mrun;
      [|destruct r as [upd|msg upd|p upd|gd res upd|ev|]];
      match goal with
      | |- context [settle_token ?ev] => destruct (settle_token ev).1
      end;
      do 2 eexists; exists [c]; repeat split.
    all: try done.
  - do 2 eexists. exists []. mrun. rewrite app_nil_r. repeat split.
    all: try done. by eexists.
Qed.

Lemma tryGetAuthToken_fuel_S (fuel : nat) (ip : option Endpoint) (cur_attempt : Z) :
  tryGetAuthToken_fuel (S fuel) ip cur_attempt
  = try_catch (getAuthToken ip) (fun e =>
      log LogMode.Error ("Failed to get authorisation token, trying "
                         ++ pretty (5 - (cur_attempt + 1)) ++ " more times. " ++ error_text e);;
      if negb (5 - (cur_attempt + 1) =? 0) then tryGetAuthToken_fuel fuel ip (cur_attempt + 1)
      else
        log LogMode.Error "Failed to get authorisation token from the server, using 0.";;
        ret 0).
Proof. reflexivity. Qed.

Lemma tryGetAuthToken_fuel_run (fuel : nat) (ip : option Endpoint) (st : St) :
  exists tok st' delta,
    tryGetAuthToken_fuel (S fuel) ip (5 - Z.of_nat (S fuel)) st = (Val tok, st')
    /\ this st' = this st /\ ents st' = ents st /\ arrs st' = arrs st
    /\ trace st' = trace st ++ delta
    /\ events_of delta = []
    /\ ((token_failure_logs delta < S fuel)%nat
        /\ is_Some ip
        /\ token_fallback_logs delta = 0%nat
        /\ helper_calls delta = S (token_failure_logs delta)
        \/ token_failure_logs delta = S fuel
           /\ token_fallback_logs delta = 1%nat
           /\ tok = 0
           /\ helper_calls delta = (if ip is Some _ then S fuel else 0)%nat).
Proof.
  revert st. induction fuel as [|fuel IH]; intros st.
  - rewrite tryGetAuthToken_fuel_S. unfold try_catch.
    destruct (getAuthToken_run ip st)
      as (r & st1 & d1 & -> & Hr & Ht & He & Ha & Htr & Hev & Hlg & Hc & Hip).
    destruct r as [tok|e|]; [| |done].
    + exists tok, st1, d1. repeat split; try done. left.
      unfold token_failure_logs, token_fallback_logs. rewrite Hlg.
      destruct ip; [|by destruct Hip]. rewrite Hc. cbn. split; [lia|done].
    + mrun. do 2 eexists.
      exists (d1 ++ [Logged LogMode.Error
                       ("Failed to get authorisation token, trying " ++ pretty (5 - (5 - 1 + 1))
                        ++ " more times. " ++ error_text e);
                     Logged LogMode.Error
                       "Failed to get authorisation token from the server, using 0."]).
      split; [reflexivity|]. cbn [this ents arrs trace].
      do 3 (split; [done|]).
      split. { rewrite Htr, <- !app_assoc. done. }
      split. { rewrite events_of_app, Hev. done. }
      right. rewrite token_failure_logs_app, token_fallback_logs_app, helper_calls_app, Hc.
      unfold token_failure_logs at 1, token_fallback_logs at 1. rewrite Hlg.
      repeat split; try done.
  - rewrite tryGetAuthToken_fuel_S. unfold try_catch.
    destruct (getAuthToken_run ip st)
      as (r & st1 & d1 & -> & Hr & Ht & He & Ha & Htr & Hev & Hlg & Hc & Hip).
    destruct r as [tok|e|]; [| |done].
    + exists tok, st1, d1. repeat split; try done. left.
      unfold token_failure_logs, token_fallback_logs. rewrite Hlg.
      destruct ip; [|by destruct Hip]. rewrite Hc. cbn. split; [lia|done].
    + mrun.
      replace (5 - Z.of_nat (S (S fuel)) + 1) with (5 - Z.of_nat (S fuel)) by lia.
      replace (5 - (5 - Z.of_nat (S fuel)) =? 0) with false
        by (symmetry; apply Z.eqb_neq; lia).
      cbn [negb].
      set (o := Logged _ _).
      destruct (IH (mkSt (this st1) (ents st1) (arrs st1) (next_oid st1) (lib st1)
                         (script st1) (trace st1 ++ [o])))
        as (tok & st2 & d2 & Hrun & Ht2 & He2 & Ha2 & Htr2 & Hev2 & Hcases).
      rewrite Hrun.
      exists tok, st2, (d1 ++ [o] ++ d2).
      split; [done|]. rewrite Ht2, He2, Ha2, Htr2. cbn [this ents arrs trace].
      do 3 (split; [done|]).
      split. { rewrite Htr, <- !app_assoc. done. }
      split. { rewrite !events_of_app, Hev, Hev2. done. }
      assert (token_failure_logs d1 = 0%nat) as Hf1
        by (unfold token_failure_logs; by rewrite Hlg).
      assert (token_fallback_logs d1 = 0%nat) as Hb1
        by (unfold token_fallback_logs; by rewrite Hlg).
      rewrite !token_failure_logs_app, !token_fallback_logs_app, !helper_calls_app, Hc, Hf1, Hb1.
      change (token_failure_logs [o]) with 1%nat.
      change (token_fallback_logs [o]) with 0%nat.
      change (helper_calls [o]) with 0%nat.
      destruct Hcases as [(H1 & Hs & H2 & H3)|(H1 & H2 & H3 & H4)]; [left|right].
      * rewrite H2, H3. destruct ip; [|by destruct Hs]. repeat split; try done; lia.
      * rewrite H1, H2, H4. destruct ip; repeat split; lia.
Qed.

(** C3: token acquisition never throws and never stays pending: it returns
    a token.  It spawns the helper at most five times; every attempt settles
    within two seconds ([settle_token]); every failed attempt is logged; and
    when the fifth attempt has failed too, the result is the sentinel 0,
    announced by one more log line.  Nothing is emitted to the consumer and
    the backend object is left as it was. *)
Theorem token_acquisition_degrades (ip : option Endpoint) (st : St) :
  (forall ev, (settle_token ev).2 <= 2000)
  /\ exists tok st' delta,
       tryGetAuthToken ip st = (Val tok, st')
       /\ this st' = this st
       /\ trace st' = trace st ++ delta
       /\ events_of delta = []
       /\ (helper_calls delta <= 5)%nat
       /\ ((token_failure_logs delta < 5)%nat
           /\ is_Some ip
           /\ token_fallback_logs delta = 0%nat
           /\ helper_calls delta = S (token_failure_logs delta)
           \/ token_failure_logs delta = 5%nat
              /\ token_fallback_logs delta = 1%nat
              /\ tok = 0
              /\ helper_calls delta = (if ip is Some _ then 5 else 0)%nat).
Proof.
  split; [intros ev; apply settle_token_bounded|].
  destruct (tryGetAuthToken_fuel_run 4 ip st)
    as (tok & st' & delta & Hrun & Ht & _ & _ & Htr & Hev & Hcases).
  exists tok, st', delta. repeat split; try done.
  destruct Hcases as [(H1 & Hs & H2 & H3)|(H1 & H2 & H3 & H4)]; [lia|].
  rewrite H4. destruct ip; lia.
Qed.

(** ** Frame rules *)

Lemma frame_refl P st : frame P st st.
Proof. split; try done. exists []. by rewrite app_nil_r. Qed.

Lemma frame_trans P st1 st2 st3 : frame P st1 st2 -> frame P st2 st3 -> frame P st1 st3.
Proof.
  intros [d1 m1 s1 g1 c1 k1 l1 sc1 (t1 & E1 & F1)] [d2 m2 s2 g2 c2 k2 l2 sc2 (t2 & E2 & F2)].
  split; try congruence.
  - by rewrite c2.
  - auto.
  - lia.
  - exists (t1 ++ t2). split; [by rewrite E2, E1, app_assoc|by apply Forall_app].
Qed.

Lemma frame_mono (P Q : Obs -> Prop) st st' :
  (forall o, P o -> Q o) -> frame P st st' -> frame Q st st'.
Proof.
  intros HPQ [d m s g c k l sc (t & E & F)]. split; try done.
  exists t. split; [done|]. eapply Forall_impl; eauto.
Qed.

Lemma frame_observe (P : Obs -> Prop) o st : P o -> frame P st (observe o st).
Proof. intros Ho. split; try done. exists [o]. split; [done|]. by constructor. Qed.

Lemma quiet_no_error o : quiet o -> no_error o.
Proof. by destruct o. Qed.

Lemma frame_any P st st' : frame P st st' -> frame any st st'.
Proof. by apply frame_mono. Qed.

Lemma ran_run {A} P (m : M A) st r st' : ran P m -> m st = (r, st') -> frame P st st'.
Proof. intros Hm E. specialize (Hm st). by rewrite E in Hm. Qed.

Lemma error_events_app a b : error_events (a ++ b) = error_events a ++ error_events b.
Proof. unfold error_events. by rewrite events_of_app, List.filter_app. Qed.

Lemma fatal_errors_app a b : fatal_errors (a ++ b) = fatal_errors a ++ fatal_errors b.
Proof. unfold fatal_errors. by rewrite events_of_app, List.filter_app. Qed.

Lemma attempt_connects_app a b :
  attempt_connects (a ++ b) = (attempt_connects a + attempt_connects b)%nat.
Proof. unfold attempt_connects. by rewrite calls_of_app, count_where_app. Qed.

(** A stretch of trace without error reports and attempt connects counts
    for nothing. *)
Lemma no_error_silent d :
  Forall no_error d ->
  error_events d = [] /\ fatal_errors d = [] /\ attempt_connects d = 0%nat.
Proof.
  induction 1 as [|o d Ho _ (IH1 & IH2 & IH3)]; [done|].
  change (o :: d) with ([o] ++ d).
  rewrite error_events_app, fatal_errors_app, attempt_connects_app, IH1, IH2, IH3.
  destruct o as [e|m t|c]; simpl in Ho.
  - destruct e; try discriminate; done.
  - done.
  - destruct c as [| ? [] | | | | | | | | | | | |]; done.
Qed.

Section rules.
Context (P : Obs -> Prop).

Lemma ran_ret {A} (a : A) : ran P (ret a).
Proof. intros st. apply frame_refl. Qed.

Lemma ran_throw {A} msg : ran P (@throw A msg).
Proof. intros st. apply frame_refl. Qed.

Lemma ran_hang {A} : ran P (@hang A).
Proof. intros st. apply frame_refl. Qed.

Lemma ran_gets {A} (f : Backend -> A) : ran P (gets f).
Proof. intros st. apply frame_refl. Qed.

Lemma ran_get_lib : ran P get_lib.
Proof. intros st. apply frame_refl. Qed.

Lemma ran_bind {A B} (m : M A) (k : A -> M B) :
  ran P m -> (forall a, ran P (k a)) -> ran P (bind m k).
Proof.
  intros Hm Hk st. unfold bind. specialize (Hm st).
  destruct (m st) as [[a|e|] st1]; simpl in *; try done.
  eapply frame_trans; [done|apply Hk].
Qed.

Lemma ran_try_catch {A} (m : M A) (h : string -> M A) :
  ran P m -> (forall e, ran P (h e)) -> ran P (try_catch m h).
Proof.
  intros Hm Hh st. unfold try_catch. specialize (Hm st).
  destruct (m st) as [[a|e|] st1]; simpl in *; try done.
  eapply frame_trans; [done|apply Hh].
Qed.

Lemma ran_race {A} (m : M A) : ran P m -> ran P (race m).
Proof.
  intros Hm st. unfold race. specialize (Hm st).
  by destruct (m st) as [[a|e|] st1].
Qed.

Lemma ran_when b (m : M unit) : ran P m -> ran P (when b m).
Proof. intros Hm. destruct b; [done|apply ran_ret]. Qed.

Lemma ran_tell o : P o -> ran P (tell o).
Proof. intros Ho st. by apply frame_observe. Qed.

Lemma ran_pop_reply : ran P pop_reply.
Proof.
  intros st. unfold pop_reply. destruct (script st) as [|r rs] eqn:E; [apply frame_refl|].
  split; try done.
  - simpl. rewrite E. simpl. lia.
  - exists []. by rewrite app_nil_r.
Qed.

Lemma ran_lib_update upd : ran P (lib_update upd).
Proof.
  intros st. unfold lib_update, modify. simpl.
  destruct (client (this st)) as [c|] eqn:E; simpl; rewrite ?E; split; simpl; rewrite ?E;
    try done; try (exists []; by rewrite app_nil_r).
Qed.

Lemma ran_settle : ran P settle.
Proof.
  unfold settle. apply ran_bind; [apply ran_pop_reply|].
  intros [[upd|msg upd|p upd|gd r upd|ev|]|]; try apply ran_hang.
  - apply ran_lib_update.
  - apply ran_bind; [apply ran_lib_update|]. intros _. apply ran_throw.
Qed.

Lemma ran_set_authToken tok : ran P (modify (set_authToken tok)).
Proof. intros st. split; try done. exists []. by rewrite app_nil_r. Qed.

Lemma ran_the_client : ran P the_client.
Proof.
  unfold the_client. apply ran_bind; [apply ran_gets|].
  intros [c|]; [apply ran_ret|apply ran_throw].
Qed.

Context (P_log : forall m t, P (Logged m t)).
Context (P_call : forall c, inner_call c -> P (Called c)).

Lemma ran_log m t : ran P (log m t).
Proof. apply ran_tell, P_log. Qed.

Lemma ran_await c : inner_call c -> ran P (await c).
Proof.
  intros Hc. unfold await.
  apply ran_bind; [by apply ran_tell, P_call|]. intros _. apply ran_settle.
Qed.

Lemma ran_client_await c : inner_call c -> ran P (client_await c).
Proof.
  intros Hc. unfold client_await. apply ran_bind; [apply ran_gets|].
  intros [cl|]; [by apply ran_await|apply ran_throw].
Qed.

Lemma ran_getAuthToken ip : ran P (getAuthToken ip).
Proof.
  unfold getAuthToken. destruct ip as [[ip port]|]; [|apply ran_throw].
  apply ran_bind; [by apply ran_tell, P_call|]. intros _.
  apply ran_bind; [apply ran_pop_reply|]. intros r.
  destruct (settle_token _).1; [apply ran_ret|apply ran_throw].
Qed.

Lemma ran_tryGetAuthToken_fuel fuel ip cur : ran P (tryGetAuthToken_fuel fuel ip cur).
Proof.
  revert cur. induction fuel as [|fuel IH]; intros cur; [apply ran_hang|].
  rewrite tryGetAuthToken_fuel_S.
  apply ran_try_catch; [apply ran_getAuthToken|]. intros e.
  apply ran_bind; [apply ran_log|]. intros _.
  destruct (negb _); [apply IH|].
  apply ran_bind; [apply ran_log|]. intros _. apply ran_ret.
Qed.

Lemma ran_tryGetAuthToken ip : ran P (tryGetAuthToken ip).
Proof. apply ran_tryGetAuthToken_fuel. Qed.

Lemma ran_waitPayload : ran P waitPayload.
Proof.
  unfold waitPayload.
  apply ran_bind; [apply ran_the_client|]. intros _.
  apply ran_bind; [by apply ran_tell, P_call|]. intros _.
  apply ran_bind; [apply ran_pop_reply|].
  intros [[upd|msg upd|p upd|gd r upd|ev|]|]; try apply ran_hang.
  - apply ran_bind; [apply ran_lib_update|]. intros _. apply ran_throw.
  - apply ran_bind; [apply ran_lib_update|]. intros _. apply ran_ret.
Qed.

Lemma ran_joinGame_fuel fuel code doSpawn : ran P (joinGame_fuel fuel code doSpawn).
Proof.
  revert code. induction fuel as [|fuel IH]; intros code; [apply ran_hang|].
  cbn [joinGame_fuel]. destruct code as [s|code].
  { apply ran_bind; [apply ran_get_lib|]. intros l. apply IH. }
  apply ran_bind; [apply ran_gets|]. intros [c|]; [|apply ran_ret].
  destruct (negb (c_identified c)); [apply ran_ret|].
  apply ran_bind.
  { apply ran_when.
    apply ran_bind; [by apply ran_client_await|]. intros _.
    apply ran_bind; [apply ran_gets|]. intros srv.
    apply ran_bind; [apply ran_tryGetAuthToken|]. intros tok.
    apply ran_bind; [apply ran_set_authToken|]. intros _.
    apply ran_bind; [apply ran_the_client|]. intros c'.
    by apply ran_client_await. }
  intros _.
  apply ran_bind; [by apply ran_client_await|]. intros _.
  apply ran_bind; [apply ran_waitPayload|]. intros payload.
  apply ran_bind; [apply ran_the_client|]. intros c'.
  destruct payload as [reason|ip port|].
  - apply ran_bind; [apply ran_get_lib|]. intros l. apply ran_throw.
  - apply ran_bind; [by apply ran_client_await|]. intros _.
    apply ran_bind; [apply ran_tryGetAuthToken|]. intros tok.
    apply ran_bind; [apply ran_set_authToken|]. intros _.
    apply ran_bind; [by apply ran_client_await|]. intros _.
    apply IH.
  - apply ran_bind; [apply ran_when; by apply ran_client_await|]. intros _.
    apply ran_bind; [apply ran_the_client|]. intros c''. apply ran_ret.
Qed.

Lemma ran_joinGame code doSpawn : ran P (joinGame code doSpawn).
Proof. intros st. apply ran_joinGame_fuel. Qed.

End rules.

(** An observation is admitted by the predicate at hand. *)
Ltac obs_ok :=
  first
    [ done
    | match goal with
      | H : forall c, inner_call c -> _ |- _ (Called _) => apply H; done
      | H : forall e, is_error e = false -> _ |- _ (Emitted _) => apply H; done
      end ].

(** One step of a frame derivation: the rule of the head construct. *)
Ltac ran_step :=
  lazymatch goal with
  | |- ran _ (ret _) => apply ran_ret
  | |- ran _ (throw _) => apply ran_throw
  | |- ran _ hang => apply ran_hang
  | |- ran _ (gets _) => apply ran_gets
  | |- ran _ get_lib => apply ran_get_lib
  | |- ran _ the_client => apply ran_the_client
  | |- ran _ (bind _ _) => apply ran_bind; [|intros ?]
  | |- ran _ (try_catch _ _) => apply ran_try_catch; [|intros ?]
  | |- ran _ (race _) => apply ran_race
  | |- ran _ (when false _) => apply ran_ret
  | |- ran _ (when _ _) => apply ran_when
  | |- ran _ (log _ _) => apply ran_log; done
  | |- ran _ (emitError _ _) => apply ran_tell; obs_ok
  | |- ran _ (emitHostChange _) => apply ran_tell; obs_ok
  | |- ran _ (emitPlayerColor _ _) => apply ran_tell; obs_ok
  | |- ran _ (emitSettingsUpdate _) => apply ran_tell; obs_ok
  | |- ran _ (tell _) => apply ran_tell; obs_ok
  | |- ran _ (modify (set_authToken _)) => apply ran_set_authToken
  | |- ran _ settle => apply ran_settle
  | |- ran _ (await _) => apply ran_await; done
  | |- ran _ (client_await _) => apply ran_client_await; done
  | |- ran _ (tryGetAuthToken _) => apply ran_tryGetAuthToken; done
  | |- ran _ (joinGame _ _) => apply ran_joinGame; done
  | |- ran _ (match ?x with _ => _ end) => destruct x
  end.

Ltac ran_auto := repeat ran_step.

Section more_rules.
Context (P : Obs -> Prop).
Context (P_log : forall m t, P (Logged m t)).
Context (P_call : forall c, inner_call c -> P (Called c)).

Lemma ran_for_each {A} (l : list A) (body : A -> M unit) :
  (forall x, ran P (body x)) -> ran P (for_each l body).
Proof.
  intros Hb. induction l as [|x l IH]; simpl; [apply ran_ret|].
  apply ran_bind; [apply Hb|]. intros _. apply IH.
Qed.

Lemma ran_resetObjectCaches : ran P resetObjectCaches.
Proof.
  intros st. unfold resetObjectCaches.
  destruct (client (this st)) as [c|] eqn:E; [|apply frame_refl].
  split; try done. exists []. by rewrite app_nil_r.
Qed.

Lemma ran_disconnect : ran P disconnect.
Proof.
  unfold disconnect. apply ran_bind; [apply ran_resetObjectCaches|]. intros _.
  ran_auto.
Qed.

Lemma ran_set_settings s : ran P (modify (set_settings s)).
Proof. intros st. split; try done. exists []. by rewrite app_nil_r. Qed.

Lemma ran_array_length g : ran P (array_length g).
Proof. intros st. apply frame_refl. Qed.

Context (P_event : forall e, is_error e = false -> P (Emitted e)).

Lemma ran_awaitSpawnsAndSettings : ran P awaitSpawnsAndSettings.
Proof.
  unfold awaitSpawnsAndSettings. ran_auto; try apply ran_lib_update.
  - apply ran_pop_reply.
  - apply ran_for_each. intros p. ran_auto.
Qed.

Lemma ran_initialSpawn_join : ran P (initialSpawn_join false).
Proof. unfold initialSpawn_join. ran_auto. Qed.

Lemma ran_initialSpawn_warmup : ran P (initialSpawn_warmup false).
Proof.
  unfold initialSpawn_warmup. ran_auto;
    try apply ran_awaitSpawnsAndSettings; try apply ran_set_settings;
    try apply ran_disconnect; try done.
  apply ran_for_each. intros p. ran_auto.
Qed.

End more_rules.

(** ** initialSpawn, called with [isFinal = false] *)

Lemma bind_client_await {B} c (k : unit -> M B) cl st :
  client (this st) = Some cl ->
  bind (client_await c) k st = bind settle k (observe (Called c) st).
Proof. intros Hc. unfold client_await, await, bind, gets, tell. by rewrite Hc. Qed.

Lemma try_catch_eq {A} (m m' : M A) h st st0 :
  m st = m' st0 -> try_catch m h st = try_catch m' h st0.
Proof. unfold try_catch. by intros ->. Qed.

(** The first [try] block makes the connection attempt; the only error
    report it can make with [isFinal = false] is the one of its [catch]. *)
Lemma initialSpawn_connect_run ip port st r st' :
  is_Some (client (this st)) ->
  initialSpawn_connect false ip port st = (r, st') ->
  frame any st st'
  /\ exists delta,
       trace st' = trace st ++ delta
       /\ attempt_connects delta = 1%nat
       /\ error_events delta
          = match r with
            | Val (Some ConnectionErrorCode.FailedToConnect) =>
                [ErrorEvent connect_failed_message true]
            | _ => []
            end.
Proof.
  intros [c Hc] Hrun.
  unfold initialSpawn_connect in Hrun.
  erewrite try_catch_eq in Hrun by (by eapply bind_client_await).
  set (o := Called (Connect ip None None port)) in *.
  unfold try_catch in Hrun.
  match type of Hrun with
  | context [bind settle ?k (observe o st)] =>
      assert (ran no_error (bind settle k)) as Hbody; [ran_auto|];
      destruct (bind settle k (observe o st)) as [r1 st1] eqn:E1
  end.
  apply (ran_run _ _ _ _ _ Hbody) in E1 as F1.
  assert (frame any st st1) as F01.
  { eapply frame_trans; [by apply (frame_observe any o st)|by eapply frame_any]. }
  destruct F1 as [_ _ _ _ _ _ _ _ (d1 & Ht1 & Hd1)].
  apply no_error_silent in Hd1 as (He1 & _ & Hc1).
  destruct r1 as [v|e|].
  - injection Hrun as <- <-. split; [done|].
    exists (o :: d1). split; [by rewrite Ht1; cbn; rewrite <- app_assoc|].
    change (o :: d1) with ([o] ++ d1).
    rewrite attempt_connects_app, error_events_app, He1, Hc1. split; [done|].
    revert E1. clear. intros E1. destruct v as [[]|]; try done.
    exfalso. revert E1. unfold bind.
    destruct (settle _) as [[[]|?|] ?]; try done.
    destruct (gets _ _) as [[[?|]|?|] ?]; try done.
    destruct (gets _ _) as [[?|?|] ?]; try done.
    destruct (race _ _) as [[?|?|] ?]; try done.
    destruct (the_client _) as [[?|?|] ?]; try done.
    destruct (negb _); done.
  - revert Hrun. mrun. intros [= <- <-]. split.
    { eapply frame_trans; [done|]. split; try done.
      eexists. split; [by rewrite <- app_assoc|]. by repeat constructor. }
    exists (o :: d1 ++ [Logged LogMode.Fatal (error_toString e);
                        Emitted (ErrorEvent connect_failed_message true)]).
    split; [by cbn; rewrite Ht1; cbn; rewrite <- !app_assoc|].
    change (o :: ?l) with ([o] ++ l).
    rewrite !attempt_connects_app, !error_events_app, He1, Hc1. done.
  - injection Hrun as <- <-. split; [done|].
    exists (o :: d1). split; [by rewrite Ht1; cbn; rewrite <- app_assoc|].
    change (o :: d1) with ([o] ++ d1).
    rewrite attempt_connects_app, error_events_app, He1, Hc1. done.
Qed.

(** Rules for [returns]. *)

Lemma returns_ret {A} (Q : A -> Prop) a : Q a -> returns Q (ret a).
Proof. by intros Ha st. Qed.

Lemma returns_throw {A} (Q : A -> Prop) msg : returns Q (throw msg).
Proof. by intros st. Qed.

Lemma returns_hang {A} (Q : A -> Prop) : returns Q hang.
Proof. by intros st. Qed.

Lemma returns_bind {A B} (Q : B -> Prop) (m : M A) (k : A -> M B) :
  (forall a, returns Q (k a)) -> returns Q (bind m k).
Proof.
  intros Hk st. unfold bind. destruct (m st) as [[a|e|] st1]; try done. apply Hk.
Qed.

Lemma returns_bind_with {A B} (Q1 : A -> Prop) (Q : B -> Prop) (m : M A) (k : A -> M B) :
  returns Q1 m -> (forall a, Q1 a -> returns Q (k a)) -> returns Q (bind m k).
Proof.
  intros Hm Hk st. unfold bind. specialize (Hm st).
  destruct (m st) as [[a|e|] st1]; try done. by apply Hk.
Qed.

Lemma returns_try_catch {A} (Q : A -> Prop) (m : M A) h :
  returns Q m -> (forall e, returns Q (h e)) -> returns Q (try_catch m h).
Proof.
  intros Hm Hh st. unfold try_catch. specialize (Hm st).
  destruct (m st) as [[a|e|] st1]; try done. apply Hh.
Qed.

Lemma returns_run {A} (Q : A -> Prop) (m : M A) st a st' :
  returns Q m -> m st = (Val a, st') -> Q a.
Proof. intros Hm E. specialize (Hm st). by rewrite E in Hm. Qed.

Ltac returns_step :=
  lazymatch goal with
  | |- returns _ (ret _) => apply returns_ret; try done
  | |- returns _ (throw _) => apply returns_throw
  | |- returns _ hang => apply returns_hang
  | |- returns _ (bind _ _) => apply returns_bind; intros ?
  | |- returns _ (try_catch _ _) => apply returns_try_catch; [|intros ?]
  | |- returns _ (match ?x with _ => _ end) => destruct x
  end.

Ltac returns_auto := repeat returns_step.

Lemma bind_inv {A B} (m : M A) (k : A -> M B) st r st' :
  bind m k st = (r, st') ->
  (exists a st1, m st = (Val a, st1) /\ k a st1 = (r, st'))
  \/ (exists e, m st = (Exn e, st') /\ r = Exn e)
  \/ (m st = (Hang, st') /\ r = Hang).
Proof.
  unfold bind. destruct (m st) as [[a|e|] st1]; intros E.
  - left. by exists a, st1.
  - right. left. injection E as <- <-. by exists e.
  - right. right. by injection E as <- <-.
Qed.

(** After the connection attempt, [initialSpawn] never classifies an
    outcome as a failure to connect. *)
Lemma initialSpawn_join_returns :
  returns (fun r => r <> Some ConnectionErrorCode.FailedToConnect) (initialSpawn_join false).
Proof. unfold initialSpawn_join. returns_auto. Qed.

Lemma initialSpawn_warmup_returns :
  returns (fun r => r <> ConnectionErrorCode.FailedToConnect) (initialSpawn_warmup false).
Proof. unfold initialSpawn_warmup. returns_auto. Qed.

(** One call [initialSpawn(false)] from a state that has a client: when it
    returns an outcome it has made exactly one connection attempt, and the
    only error it can have reported is the fatal one of the [catch] of its
    first [try] block, which goes with the outcome [FailedToConnect]. *)
Lemma initialSpawn_false_run st r st' :
  is_Some (client (this st)) ->
  initialSpawn false st = (r, st') ->
  frame any st st'
  /\ exists delta,
       trace st' = trace st ++ delta
       /\ match r with
          | Val _ => attempt_connects delta = 1%nat
          | _ => (attempt_connects delta <= 1)%nat
          end
       /\ error_events delta
          = match r with
            | Val ConnectionErrorCode.FailedToConnect =>
                [ErrorEvent connect_failed_message true]
            | _ => []
            end.
Proof.
  intros Hc Hrun. unfold initialSpawn in Hrun.
  apply bind_inv in Hrun as [(ep & st1 & E1 & Hrun)|[(e & E1 & ->)|[E1 ->]]].
  3: { unfold current_endpoint, bind, gets in E1.
       by destruct (master (this st) !! server (this st)). }
  2: { unfold current_endpoint, bind, gets in E1.
       destruct (master (this st) !! server (this st)); try discriminate.
       injection E1 as <- <-. split; [apply frame_refl|].
       exists []. rewrite app_nil_r. repeat split; try done. cbn. lia. }
  assert (st1 = st) as ->.
  { unfold current_endpoint, bind, gets in E1.
    destruct (master (this st) !! server (this st)); by injection E1. }
  clear E1. destruct ep as [ip port]. destruct Hc as [c Hc].
  unfold bind at 1, gets at 1 in Hrun. rewrite Hc in Hrun.
  unfold bind at 1, log at 1, tell at 1 in Hrun.
  set (o := Logged _ _) in Hrun.
  assert (frame any st (observe o st)) as F0 by by apply frame_observe.
  apply bind_inv in Hrun as [(r1 & st2 & E2 & Hrun)|[(e & E2 & ->)|[E2 ->]]].
  2,3: apply initialSpawn_connect_run in E2 as (F2 & d2 & Ht2 & Hc2 & He2);
       [|by exists c];
       (split; [by eapply frame_trans|]);
       exists (o :: d2); (split; [by rewrite Ht2; cbn; rewrite <- app_assoc|]);
       change (o :: d2) with ([o] ++ d2);
       rewrite attempt_connects_app, error_events_app, Hc2, He2;
       repeat split; try done; cbn; lia.
  apply initialSpawn_connect_run in E2 as (F2 & d2 & Ht2 & Hc2 & He2); [|by exists c].
  assert (frame any st st2) as F02 by by eapply frame_trans.
  destruct r1 as [err|].
  { injection Hrun as <- <-. split; [done|].
    exists (o :: d2). split; [by rewrite Ht2; cbn; rewrite <- app_assoc|].
    change (o :: d2) with ([o] ++ d2).
    rewrite attempt_connects_app, error_events_app, Hc2, He2. done. }
  match type of Hrun with
  | ?rest st2 = _ =>
      assert (ran no_error rest) as Hrest;
      [ran_auto; first [by apply ran_initialSpawn_join|by apply ran_initialSpawn_warmup]|];
      assert (returns (fun r => r <> ConnectionErrorCode.FailedToConnect) rest) as Hret;
      [do 4 returns_step;
       eapply returns_bind_with; [apply initialSpawn_join_returns|];
       intros [err|] Herr; returns_auto; [congruence|apply initialSpawn_warmup_returns]|]
  end.
  apply (ran_run _ _ _ _ _ Hrest) in Hrun as F3.
  assert (match r with Val ConnectionErrorCode.FailedToConnect => False | _ => True end) as Hr.
  { destruct r as [v| |]; try done. apply (returns_run _ _ _ _ _ Hret) in Hrun. by destruct v. }
  split; [eapply frame_trans; [done|by eapply frame_any]|].
  destruct F3 as [_ _ _ _ _ _ _ _ (d3 & Ht3 & Hd3)].
  apply no_error_silent in Hd3 as (He3 & _ & Hc3).
  exists (o :: d2 ++ d3). split; [by rewrite Ht3, Ht2; cbn; rewrite <- !app_assoc|].
  change (o :: ?l) with ([o] ++ l).
  rewrite !attempt_connects_app, !error_events_app, Hc2, He2, He3, Hc3.
  destruct r as [[]| |]; repeat split; try done; cbn; lia.
Qed.

(** ** Hoare rules for the runs that return *)

Lemma hoare_ret {A} (pre : St -> Prop) (a : A) (post : A -> St -> Prop) :
  (forall st, pre st -> post a st) -> hoare pre (ret a) post.
Proof. intros H st Hp. by apply H. Qed.

Lemma hoare_bind {A B} pre (mid : A -> St -> Prop) (m : M A) (k : A -> M B) post :
  hoare pre m mid -> (forall a, hoare (mid a) (k a) post) -> hoare pre (bind m k) post.
Proof.
  intros Hm Hk st Hp. unfold bind. specialize (Hm st Hp).
  destruct (m st) as [[a|e|] st1]; try done. by apply Hk.
Qed.

Lemma hoare_try_catch {A} pre (mid : St -> Prop) (m : M A) h post :
  hoare pre m post ->
  (forall st, pre st -> mid (m st).2) ->
  (forall e, hoare mid (h e) post) ->
  hoare pre (try_catch m h) post.
Proof.
  intros Hm Hmid Hh st Hp. unfold try_catch.
  specialize (Hm st Hp). specialize (Hmid st Hp).
  destruct (m st) as [[a|e|] st1]; try done. by apply Hh.
Qed.

(** A framed computation keeps the client handle, and the caches once they
    are there. *)
Lemma hoare_ran_client {A} P (m : M A) :
  ran P m -> hoare has_client m (fun _ => has_client).
Proof.
  intros Hm st Hc. specialize (Hm st).
  destruct (m st) as [[a|e|] st1]; try done. by apply Hm.
Qed.

Lemma hoare_ran_cached {A} P (m : M A) :
  ran P m ->
  hoare (fun st => cached (this st) = true) m (fun _ st => cached (this st) = true).
Proof.
  intros Hm st Hc. specialize (Hm st).
  destruct (m st) as [[a|e|] st1]; try done. by apply Hm.
Qed.

Lemma hoare_weaken {A} (pre pre' : St -> Prop) (m : M A) (post post' : A -> St -> Prop) :
  hoare pre' m post' ->
  (forall st, pre st -> pre' st) ->
  (forall a st, post' a st -> post a st) ->
  hoare pre m post.
Proof.
  intros Hm Hpre Hpost st Hp. specialize (Hm st (Hpre st Hp)).
  destruct (m st) as [[a|e|] st1]; try done. by apply Hpost.
Qed.

Lemma hoare_run {A} pre (m : M A) post st a st' :
  hoare pre m post -> pre st -> m st = (Val a, st') -> post a st'.
Proof. intros Hm Hp E. specialize (Hm st Hp). by rewrite E in Hm. Qed.

(** [this.disconnect()] with a client at hand leaves the three caches set. *)
Lemma disconnect_caches :
  hoare has_client disconnect (fun _ st => cached (this st) = true).
Proof.
  unfold disconnect. eapply hoare_bind with (mid := fun _ st => cached (this st) = true).
  - intros st [c Hc]. unfold resetObjectCaches. by rewrite Hc.
  - intros _. eapply (hoare_ran_cached any). ran_auto.
Qed.

Lemma ran_any_client_await c : ran any (client_await c).
Proof.
  unfold client_await, await. ran_auto.
Qed.

Lemma ran_any_initialSpawn_connect ip port : ran any (initialSpawn_connect false ip port).
Proof. unfold initialSpawn_connect. ran_auto. apply ran_any_client_await. Qed.

(** A warm-up that goes through has filled the caches. *)
Lemma initialSpawn_warmup_caches :
  hoare has_client (initialSpawn_warmup false)
        (fun r st => r = ConnectionErrorCode.None -> cached (this st) = true).
Proof.
  unfold initialSpawn_warmup.
  repeat first
    [ apply hoare_ret; intros; done
    | lazymatch goal with
      | |- hoare _ (bind disconnect _) _ =>
          eapply hoare_bind; [apply disconnect_caches|intros ?; apply hoare_ret; by intros]
      | |- hoare _ (bind _ _) _ =>
          eapply hoare_bind; [apply (hoare_ran_client any)|intros ?]
      | |- hoare _ (match ?x with _ => _ end) _ => destruct x
      end ].
  all: ran_auto; try apply ran_awaitSpawnsAndSettings; try apply ran_set_settings; try done.
  apply ran_for_each. intros p. ran_auto.
Qed.

Lemma hoare_ran_returns {A} P (Q : A -> Prop) (m : M A) :
  ran P m -> returns Q m -> hoare has_client m (fun a st => has_client st /\ Q a).
Proof.
  intros Hm Hq st Hc. specialize (Hm st). specialize (Hq st).
  destruct (m st) as [[a|e|] st1]; try done. split; [by apply Hm|done].
Qed.

Lemma hoare_pre_and {A} (pre : St -> Prop) (Q : Prop) (m : M A) post :
  hoare pre m post -> hoare (fun st => pre st /\ Q) m post.
Proof. intros Hm st [Hp _]. by apply Hm. Qed.

Lemma initialSpawn_connect_not_None ip port :
  returns (fun r => r <> Some ConnectionErrorCode.None) (initialSpawn_connect false ip port).
Proof. unfold initialSpawn_connect. returns_auto. Qed.

Lemma initialSpawn_join_not_None :
  returns (fun r => r <> Some ConnectionErrorCode.None) (initialSpawn_join false).
Proof. unfold initialSpawn_join. returns_auto. Qed.

Lemma initialSpawn_caches :
  hoare has_client (initialSpawn false)
        (fun r st => r = ConnectionErrorCode.None -> cached (this st) = true).
Proof.
  unfold initialSpawn.
  repeat first
    [ apply hoare_ret; intros; done
    | apply initialSpawn_warmup_caches
    | lazymatch goal with
      | |- hoare _ (bind (initialSpawn_connect false ?ip ?port) _) _ =>
          eapply hoare_bind;
          [apply (hoare_ran_returns any), initialSpawn_connect_not_None;
           apply ran_any_initialSpawn_connect
          |intros [[]|]; try (apply hoare_ret; by intros ? []);
           apply hoare_pre_and]
      | |- hoare _ (bind (initialSpawn_join false) _) _ =>
          eapply hoare_bind;
          [apply (hoare_ran_returns any), initialSpawn_join_not_None;
           by apply ran_initialSpawn_join
          |intros [[]|]; try (apply hoare_ret; by intros ? []);
           apply hoare_pre_and]
      | |- hoare _ (bind _ _) _ =>
          eapply hoare_bind; [apply (hoare_ran_client any)|intros ?]
      | |- hoare _ (match ?x with _ => _ end) _ => destruct x
      | |- hoare _ (let '(_, _) := ?x in _) _ => destruct x
      end ].
  all: try (unfold current_endpoint); ran_auto.
Qed.

(** ** One round of doJoin *)

(** Both sides of an equation between traces, flattened. *)
Ltac trace_norm := cbn [trace observe]; repeat (rewrite <- app_assoc); cbn [app].

Lemma try_catch_inv {A} (m : M A) h st r st' :
  try_catch m h st = (r, st') ->
  (exists a, m st = (Val a, st') /\ r = Val a)
  \/ (exists e st1, m st = (Exn e, st1) /\ h e st1 = (r, st'))
  \/ (m st = (Hang, st') /\ r = Hang).
Proof.
  unfold try_catch. destruct (m st) as [[a|e|] st1]; intros E.
  - left. injection E as <- <-. by exists a.
  - right. left. by exists e, st1.
  - right. right. by injection E as <- <-.
Qed.

Lemma current_endpoint_inv st r st' :
  current_endpoint st = (r, st') ->
  st' = st
  /\ match r with
     | Val ep => master (this st) !! server (this st) = Some ep
     | Exn _ => master (this st) !! server (this st) = None
     | Hang => False
     end.
Proof.
  unfold current_endpoint, bind, gets.
  destruct (master (this st) !! server (this st)); intros [= <- <-]; done.
Qed.

Lemma quiet_silent d :
  Forall quiet d -> error_events d = [] /\ attempt_connects d = 0%nat.
Proof.
  intros H. pose proof (Forall_impl _ _ _ H quiet_no_error) as H'.
  by apply no_error_silent in H' as (? & _ & ?).
Qed.

Lemma doJoin_rejoin_retry max a st n st' :
  has_client st ->
  doJoin_rejoin max a st = (Val n, st') -> is_retry n = true ->
  is_warmup_retry n = false
  /\ next_attempt n = a + 1
  /\ destroyed (this st) = false /\ destroyed (this st') = false
  /\ master (this st') = master (this st)
  /\ (server (this st) < length (master (this st)))%nat
  /\ server (this st') = (if rotates n then rotated (this st) else server (this st))
  /\ has_client st'
  /\ (cached (this st) = true -> cached (this st') = true)
  /\ exists delta msg,
       trace st' = trace st ++ delta
       /\ attempt_connects delta = 1%nat
       /\ error_events delta = [ErrorEvent msg false].
Proof.
  intros Hc Hrun Hn. unfold doJoin_rejoin in Hrun.
  unfold bind at 1, gets at 1 in Hrun.
  destruct (destroyed (this st)) eqn:Hd; [by injection Hrun as <- <-|].
  apply bind_inv in Hrun as [(ep & st1 & E1 & Hrun)|[(e & _ & [=])|[_ [=]]]].
  apply current_endpoint_inv in E1 as [-> Hep]. destruct ep as [ip port].
  apply lookup_lt_Some in Hep as Hlt.
  unfold bind at 1, log at 1, tell at 1 in Hrun. set (o1 := Logged _ _) in Hrun.
  apply bind_inv in Hrun as [(connected & st2 & E2 & Hrun)|[(e & _ & [=])|[_ [=]]]].
  destruct Hc as [c Hc].
  erewrite try_catch_eq in E2 by (by eapply (bind_client_await _ _ c)).
  set (oc := Called (Connect ip None None port)) in E2.
  apply try_catch_inv in E2 as [(v & E2 & [= <-])|[(e & st1 & E2 & Hh)|[_ [=]]]].
  2: { (* connect or identify threw *)
    match type of E2 with
    | ?body _ = _ => assert (ran quiet body) as Hbody by ran_auto
    end.
    apply (ran_run _ _ _ _ _ Hbody) in E2 as [F1 F2 F3 F4 F5 F6 F7 F8 (d & Ht & Hq)].
    apply quiet_silent in Hq as [He Hcn].
    unfold rotate_server in Hh. revert Hh. mrun. intros [= <- <-].
    injection Hrun as <- <-. cbn in *.
    rewrite F1, F2, F3, Hd. repeat split; try done.
    - apply F5. by exists c.
    - eexists (o1 :: oc :: d ++ [_; _]), _.
      split; [by rewrite Ht; trace_norm|].
      change (o1 :: oc :: ?l) with ([o1; oc] ++ l).
      rewrite !attempt_connects_app, !error_events_app, He, Hcn. done. }
  match type of E2 with
  | ?body _ = _ =>
      assert (ran quiet body) as Hbody by ran_auto;
      assert (returns (fun r : option Next => r = None) body) as Hret by returns_auto
  end.
  pose proof (returns_run _ _ _ _ _ Hret E2) as ->.
  apply (ran_run _ _ _ _ _ Hbody) in E2 as [F1 F2 F3 F4 F5 F6 F7 F8 (d & Ht & Hq)].
  apply quiet_silent in Hq as [He Hcn]. clear Hbody Hret.
  unfold bind at 1, log at 1, tell at 1 in Hrun. set (o2 := Logged _ _) in Hrun.
  apply bind_inv in Hrun as [(joined & st3 & E4 & Hrun)|[(e & _ & [=])|[_ [=]]]].
  apply try_catch_inv in E4 as [(v & E4 & [= <-])|[(e & st4 & E4 & Hh)|[_ [=]]]].
  { match type of E4 with
    | ?body _ = _ =>
        assert (returns (fun r : option Next => r = None) body) as Hret by returns_auto
    end.
    pose proof (returns_run _ _ _ _ _ Hret E4) as ->.
    apply bind_inv in Hrun as [(b & st5 & _ & [= <- <-])|[(e & _ & [=])|[_ [=]]]].
    discriminate. }
  match type of E4 with
  | ?body _ = _ => assert (ran quiet body) as Hbody by ran_auto
  end.
  apply (ran_run _ _ _ _ _ Hbody) in E4 as [G1 G2 G3 G4 G5 G6 G7 G8 (d' & Ht' & Hq')].
  apply quiet_silent in Hq' as [He' Hcn'].
  destruct (includes _ e).
  { revert Hh. mrun. intros [= <- <-]. by injection Hrun as <- <-. }
  revert Hh. mrun. intros [= <- <-]. injection Hrun as <- <-. cbn in *.
  rewrite G1, G2, G3, F1, F2, F3, Hd. repeat split; try done.
  - apply G5, F5. by exists c.
  - intros Hk. by apply G6, F6.
  - eexists (o1 :: oc :: d ++ o2 :: d' ++ [_; _]), _.
    split; [by rewrite Ht', Ht; trace_norm|].
    change (o1 :: oc :: d ++ o2 :: ?l) with ([o1; oc] ++ d ++ [o2] ++ l).
    rewrite !attempt_connects_app, !error_events_app, He, Hcn, He', Hcn'. done.
Qed.

Lemma fatal_of_error_events d : fatal_errors d = List.filter is_fatal_error (error_events d).
Proof.
  unfold fatal_errors, error_events.
  induction (events_of d) as [|e l IH]; [done|].
  destruct e as [m [|]| | | |]; cbn; by rewrite ?IH.
Qed.

(** The start of a round: a client is created when there is none. *)
Lemma ensure_client_run st :
  exists st0 d0,
    when (negb (bool_decide (is_Some (client (this st))))) new_client st = (Val tt, st0)
    /\ has_client st0
    /\ destroyed (this st0) = destroyed (this st)
    /\ master (this st0) = master (this st)
    /\ server (this st0) = server (this st)
    /\ cached (this st0) = cached (this st)
    /\ trace st0 = trace st ++ d0
    /\ attempt_connects d0 = 0%nat
    /\ error_events d0 = [].
Proof.
  destruct (client (this st)) as [c|] eqn:Hc.
  - exists st, []. rewrite bool_decide_true by by eexists. cbn.
    rewrite app_nil_r. repeat split; try done. by exists c.
  - eexists _, [_]. rewrite bool_decide_false by by intros [? ?]. cbn.
    repeat split; try done. by eexists.
Qed.

(** The retry branch of the warm-up: the outcome is neither fatal nor
    success. *)
Lemma doJoin_warmup_retry max a st w st' :
  has_client st ->
  a < max ->
  doJoin_warmup max a st = (Val (Some w), st') -> is_retry w = true ->
  w = RetryAfterWarmup (a + 1)
  /\ destroyed (this st') = destroyed (this st)
  /\ master (this st') = master (this st)
  /\ (server (this st) < length (master (this st)))%nat
  /\ server (this st') = rotated (this st)
  /\ (cached (this st) = true -> cached (this st') = true)
  /\ exists delta msg,
       trace st' = trace st ++ delta
       /\ attempt_connects delta = 1%nat
       /\ error_events delta = fatal_errors delta ++ [ErrorEvent msg false]
       /\ (fatal_errors delta = []
           \/ fatal_errors delta = [ErrorEvent connect_failed_message true]).
Proof.
  intros Hc Hlt Hrun Hw. unfold doJoin_warmup, doJoin_warmup_with in Hrun.
  replace (a >=? max) with false in Hrun by (symmetry; rewrite Z.geb_leb; apply Z.leb_gt; lia).
  apply bind_inv in Hrun as [(err & st1 & E1 & Hrun)|[(e & _ & [=])|[_ [=]]]].
  assert (server (this st) < length (master (this st)))%nat as Hsrv.
  { unfold initialSpawn in E1.
    apply bind_inv in E1 as [(ep & st2 & E1 & _)|[(e & _ & [=])|[_ [=]]]].
    apply current_endpoint_inv in E1 as [_ E1]. by apply lookup_lt_Some in E1. }
  apply initialSpawn_false_run in E1 as ([F1 F2 F3 F4 F5 F6 F7 F8 _] & d1 & Ht1 & Hc1 & He1);
    [|done].
  destruct (ConnectionErrorCode.eqb err ConnectionErrorCode.GameNotFound) eqn:H1.
  { revert Hrun. mrun. intros [= <- <-]. discriminate. }
  destruct (ConnectionErrorCode.eqb err ConnectionErrorCode.FailedToJoin) eqn:H2.
  { revert Hrun. mrun. intros [= <- <-]. discriminate. }
  destruct (negb (ConnectionErrorCode.eqb err ConnectionErrorCode.None)) eqn:H3;
    [|by injection Hrun].
  apply bind_inv in Hrun as [([] & st2 & E2 & Hrun)|[(e & _ & [=])|[_ [=]]]].
  assert (ran quiet (when (negb (ConnectionErrorCode.eqb err ConnectionErrorCode.NoClient))
                          (client_await Disconnect))) as Hq by ran_auto.
  apply (ran_run _ _ _ _ _ Hq) in E2 as [G1 G2 G3 G4 G5 G6 G7 G8 (d2 & Ht2 & Hd2)].
  apply quiet_silent in Hd2 as [He2 Hc2].
  assert (exists msg,
    st' = observe (Emitted (ErrorEvent msg false))
            (observe (Logged LogMode.Warn
                        (if max - (a + 1) =? 0
                         then "Failed to initially spawn after " ++ pretty max ++ " attempts."
                         else "Failed to initially spawn, Retrying " ++ pretty (max - (a + 1))
                              ++ " more time" ++ plural (max - (a + 1))
                              ++ " , also trying another server."))
               (on_this (fun b => set_server (rotated b) b) st2))
    /\ w = RetryAfterWarmup (a + 1)) as (msg & -> & ->).
  { revert Hrun. unfold rotate_server. destruct (max - (a + 1) =? 0); mrun;
      intros [= <- <-]; by eexists. }
  cbn. unfold rotated. rewrite G1, G2, G3, F1, F2, F3.
  repeat split; try done.
  { intros Hk. by apply G6, F6. }
  set (ol := Logged _ _). set (oe := Emitted _).
  exists (d1 ++ d2 ++ [ol; oe]), msg.
  split; [by rewrite Ht2, Ht1; trace_norm|].
  rewrite fatal_of_error_events, !attempt_connects_app, !error_events_app, Hc1, He1, He2, Hc2.
  change (error_events [ol; oe]) with [ErrorEvent msg false].
  rewrite List.filter_app, !app_nil_l. cbn [List.filter is_fatal_error app].
  rewrite app_nil_r.
  destruct err; cbn; repeat split; try done; first [by left|by right].
Qed.

(** A warm-up that falls through to the rejoin went through: it made its
    connection attempt, reported no error and filled the caches. *)
Lemma doJoin_warmup_pass max a st st' :
  has_client st ->
  a < max ->
  doJoin_warmup max a st = (Val None, st') ->
  frame any st st'
  /\ cached (this st') = true
  /\ exists delta,
       trace st' = trace st ++ delta
       /\ attempt_connects delta = 1%nat
       /\ error_events delta = [].
Proof.
  intros Hc Hlt Hrun. unfold doJoin_warmup, doJoin_warmup_with in Hrun.
  replace (a >=? max) with false in Hrun by (symmetry; rewrite Z.geb_leb; apply Z.leb_gt; lia).
  apply bind_inv in Hrun as [(err & st1 & E1 & Hrun)|[(e & _ & [=])|[_ [=]]]].
  pose proof (hoare_run _ _ _ _ _ _ initialSpawn_caches Hc E1) as Hk.
  apply initialSpawn_false_run in E1 as (F & d1 & Ht1 & Hc1 & He1); [|done].
  destruct err; revert Hrun; cbn; mrun; try discriminate.
  1: { intros [= <-]. split; [done|]. split; [by apply Hk|]. by exists d1. }
  all: try (destruct (client_await _ _) as [[[]|?|] ?]; mrun; try discriminate).
  all: unfold rotate_server; destruct (_ =? 0); mrun; discriminate.
Qed.

(** A round of [doJoin] that ends in a retry: the attempt budget was not
    used up, the attempt counter goes up by one, the endpoint index rotates
    unless the join of a rejoin failed, the round made its connection
    attempt, and it reported exactly one error of its own, not fatal. *)
Lemma doJoin_round_retry max a st n st' :
  doJoin_round max a st = (Val n, st') -> is_retry n = true ->
  a < max
  /\ next_attempt n = a + 1
  /\ destroyed (this st) = false /\ destroyed (this st') = false
  /\ master (this st') = master (this st)
  /\ (server (this st) < length (master (this st)))%nat
  /\ server (this st') = (if rotates n then rotated (this st) else server (this st))
  /\ (is_warmup_retry n = true -> cached (this st) = false)
  /\ (is_warmup_retry n = false -> cached (this st') = true)
  /\ (cached (this st) = true -> cached (this st') = true)
  /\ exists delta msg,
       trace st' = trace st ++ delta
       /\ attempt_connects delta = round_connects (cached (this st)) n
       /\ error_events delta = fatal_errors delta ++ [ErrorEvent msg false]
       /\ (fatal_errors delta = []
           \/ is_warmup_retry n = true
              /\ fatal_errors delta = [ErrorEvent connect_failed_message true]).
Proof.
  intros Hrun Hn. unfold doJoin_round, doJoin_round_with in Hrun.
  fold doJoin_warmup in Hrun.
  unfold bind at 1, gets at 1 in Hrun.
  destruct (destroyed (this st)) eqn:Hd; [by injection Hrun as <- <-|].
  destruct (a >=? max) eqn:Hlt.
  { revert Hrun. mrun. by intros [= <- <-]. }
  rewrite Z.geb_leb in Hlt. apply Z.leb_gt in Hlt.
  unfold bind at 1, gets at 1 in Hrun.
  destruct (ensure_client_run st)
    as (st0 & d0 & E0 & Hc0 & Hd0 & Hm0 & Hs0 & Hk0 & Ht0 & Hcn0 & He0).
  unfold bind at 1 in Hrun. rewrite E0 in Hrun.
  unfold bind at 1, gets at 1 in Hrun.
  rewrite Hk0 in Hrun. rewrite Hd in Hd0.
  destruct (cached (this st)) eqn:Hk; cbn [negb] in Hrun.
  - (* the caches are there: rejoin *)
    apply doJoin_rejoin_retry in Hrun
      as (Hw & Ha & _ & Hd' & Hm' & Hsl & Hs' & Hc' & Hk' & d & msg & Ht & Hcn & He);
      [|done|done].
    split_and!; try done.
    + by rewrite Hm', Hm0.
    + by rewrite <- Hm0, <- Hs0.
    + rewrite Hs'. unfold rotated. by rewrite Hm0, Hs0.
    + by rewrite Hw.
    + intros _. apply Hk'. by rewrite Hk0.
    + intros _. apply Hk'. by rewrite Hk0.
    + exists (d0 ++ d), msg. split; [by rewrite Ht, Ht0; trace_norm|].
      rewrite fatal_of_error_events, !attempt_connects_app, !error_events_app, Hcn0, He0, Hcn, He.
      unfold round_connects. cbn. split_and!; try done. by left.
  - (* no caches yet: warm up first *)
    apply bind_inv in Hrun as [(w & st1 & E1 & Hrun)|[(e & _ & [=])|[_ [=]]]].
    destruct w as [w|].
    + injection Hrun as <- <-.
      apply doJoin_warmup_retry in E1
        as (-> & Hd' & Hm' & Hsl & Hs' & Hk' & d & msg & Ht & Hcn & He & Hf);
        [|done|done|done].
      split_and!; try done.
      * by rewrite Hd', Hd0.
      * by rewrite Hm', Hm0.
      * by rewrite <- Hm0, <- Hs0.
      * rewrite Hs'. unfold rotated. by rewrite Hm0, Hs0.
      * exists (d0 ++ d), msg. split; [by rewrite Ht, Ht0; trace_norm|].
        rewrite !fatal_errors_app, !attempt_connects_app, !error_events_app, Hcn0, He0, Hcn, He.
        assert (fatal_errors d0 = []) as -> by by rewrite fatal_of_error_events, He0.
        split_and!; try done. destruct Hf; [by left|by right].
    + apply doJoin_warmup_pass in E1
        as ([F1 F2 F3 F4 F5 F6 F7 F8 _] & Hk1 & d1 & Ht1 & Hcn1 & He1); [|done|done].
      apply doJoin_rejoin_retry in Hrun
        as (Hw & Ha & _ & Hd' & Hm' & Hsl & Hs' & Hc' & Hk' & d & msg & Ht & Hcn & He);
        [|by apply F5|done].
      split_and!; try done.
      * by rewrite Hm', F2, Hm0.
      * by rewrite <- Hm0, <- Hs0, <- F2, <- F3.
      * rewrite Hs'. unfold rotated. by rewrite F2, F3, Hm0, Hs0.
      * intros _. by apply Hk'.
      * exists (d0 ++ d1 ++ d), msg. split; [by rewrite Ht, Ht1, Ht0; trace_norm|].
        rewrite fatal_of_error_events, !attempt_connects_app, !error_events_app,
          Hcn0, He0, Hcn1, He1, Hcn, He.
        unfold round_connects. rewrite Hw. cbn. split_and!; try done. by left.
Qed.

(** ** Exhausting the attempts *)

Lemma doJoin_fuel_S fuel max a :
  doJoin_fuel (S fuel) max a
  = bind (doJoin_round max a) (fun n =>
      match n with
      | Return b => ret b
      | RetryAfterWarmup attempt
      | RetryAfterConnect attempt
      | RetryAfterJoin attempt => doJoin_fuel fuel max attempt
      end).
Proof. reflexivity. Qed.

Lemma doJoin_gives_up max st :
  destroyed (this st) = false ->
  doJoin_round max max st = (Val (Return false), gave_up max st).
Proof.
  intros Hd. unfold doJoin_round, doJoin_round_with, bind at 1, gets at 1. rewrite Hd.
  replace (max >=? max) with true by (symmetry; rewrite Z.geb_leb; apply Z.leb_le; lia).
  reflexivity.
Qed.

Lemma failing_run_spec max a st ns st' :
  failing_run max a st ns st' ->
  destroyed (this st) = false ->
  doJoin_fuel (S (Z.to_nat (max - a))) max a st = (Val false, gave_up max st')
  /\ Z.of_nat (length ns) = max - a
  /\ destroyed (this st') = false
  /\ master (this st') = master (this st)
  /\ server (this st')
     = Nat.iter (count_where rotates ns) (rotate (length (master (this st)))) (server (this st))
  /\ exists delta extra,
       trace st' = trace st ++ delta
       /\ attempt_connects delta = (length ns + extra)%nat
       /\ (extra <= 1)%nat
       /\ (cached (this st) = true -> extra = 0%nat)
       /\ (forallb is_warmup_retry ns = true -> extra = 0%nat)
       /\ count_where is_nonfatal_error (error_events delta) = length ns
       /\ Forall (fun e => e = ErrorEvent connect_failed_message true) (fatal_errors delta)
       /\ (existsb is_warmup_retry ns = false -> fatal_errors delta = []).
Proof.
  induction 1 as [st|a st n st1 ns st' Hround Hn Hrest IH]; intros Hd.
  - replace (max - max) with 0 by lia. cbn [Z.to_nat].
    rewrite doJoin_fuel_S. unfold bind. rewrite doJoin_gives_up by done.
    split_and!; try done. exists [], 0%nat. rewrite app_nil_r. split_and!; try done. lia.
  - apply doJoin_round_retry in Hround as Hr; [|done].
    destruct Hr as (Hlt & Ha & _ & Hd1 & Hm1 & Hsl & Hs1 & Hkw & Hkn & Hkm
                    & d & msg & Ht & Hcn & He & Hf).
    destruct (IH Hd1) as (Hrun & Hlen & Hd' & Hm' & Hs' & d' & extra & Ht' & Hcn' & Hex
                          & Hexk & Hexw & Hnf & Hfat & Hnw).
    replace (Z.to_nat (max - a)) with (S (Z.to_nat (max - (a + 1)))) by lia.
    rewrite doJoin_fuel_S. unfold bind at 1. rewrite Hround.
    assert (match n with
            | Return b => ret b
            | RetryAfterWarmup attempt | RetryAfterConnect attempt | RetryAfterJoin attempt =>
                doJoin_fuel (S (Z.to_nat (max - (a + 1)))) max attempt
            end st1 = (Val false, gave_up max st')) as ->.
    { destruct n; try done; cbn in Ha; by rewrite Ha. }
    split_and!; try done.
    + cbn [length]. lia.
    + congruence.
    + rewrite Hs', Hm1, Hs1. unfold count_where. cbn [List.filter].
      destruct (rotates n); cbn [length]; [by rewrite Nat.iter_succ_r|done].
    + exists (d ++ d').
      exists (if cached (this st) || is_warmup_retry n then extra else 1%nat).
      split; [by rewrite Ht', Ht; trace_norm|].
      rewrite fatal_errors_app, attempt_connects_app, error_events_app, Hcn, Hcn', He.
      rewrite !count_where_app, Hnf.
      assert (count_where is_nonfatal_error (fatal_errors d) = 0%nat) as ->.
      { destruct Hf as [->|[_ ->]]; done. }
      unfold round_connects. cbn [length forallb existsb].
      destruct (cached (this st)) eqn:Hk; cbn [orb].
      * rewrite (Hexk (Hkm eq_refl)). split_and!; try done; try lia.
        -- apply Forall_app. split; [|done]. by destruct Hf as [->|[_ ->]]; repeat constructor.
        -- intros [Hw Hx]%orb_false_iff. rewrite (Hnw Hx).
           destruct Hf as [->|[Hw' _]]; [done|congruence].
      * destruct (is_warmup_retry n) eqn:Hw; cbn [andb orb].
        -- split_and!; try done; try lia.
           apply Forall_app. split; [|done].
           by destruct Hf as [->|[_ ->]]; repeat constructor.
        -- rewrite (Hexk (Hkn eq_refl)) in *. split_and!; try done; try lia.
           ++ apply Forall_app. split; [|done].
              by destruct Hf as [->|[_ ->]]; repeat constructor.
           ++ intros Hx. rewrite (Hnw Hx).
              destruct Hf as [->|[Hw' _]]; [done|congruence].
Qed.

Lemma retry_rounds_sound k max a st ns st' :
  retry_rounds k max a st = Some (ns, st') -> failing_run max a st ns st'.
Proof.
  revert a st ns st'. induction k as [|k IH]; intros a st ns st'; cbn [retry_rounds].
  - destruct (a =? max) eqn:E; [|done]. apply Z.eqb_eq in E as ->.
    intros [= <- <-]. constructor.
  - destruct (doJoin_round max a st) as [[n| |] st1] eqn:Hround; try done.
    destruct (is_retry n) eqn:Hn; [|done].
    destruct (retry_rounds k max (a + 1) st1) as [[ns1 st2]|] eqn:Hrest; [|done].
    intros [= <- <-]. econstructor; eauto.
Qed.

(** C2, as stated, fails: a join that is rejected during a rejoin is a
    retryable failure, reported with [fatal = false] and retried, yet the
    endpoint index stays where it is.  With two endpoints and five rejected
    joins the index is 0 after the first failure and 0 at the end, where
    the claim has 1 both times. *)
Lemma rejected_joins_keep_the_endpoint :
  (doJoin_round 5 0 five_rejections).1 = Val (RetryAfterJoin 1)
  /\ server (this five_rejections) = 0%nat
  /\ length (master (this five_rejections)) = 2%nat
  /\ server (this (doJoin_round 5 0 five_rejections).2) = 0%nat
  /\ (doJoin 5 0 five_rejections).1 = Val false
  /\ server (this (doJoin 5 0 five_rejections).2) = 0%nat
  /\ List.map is_fatal_error (error_events (trace (doJoin 5 0 five_rejections).2))
     = [false; false; false; false; false; true].
Proof. vm_compute. repeat split. Qed.

(** C2, amended: when each of the [max] rounds of [doJoin] ends in a retry,
    [doJoin] runs exactly [max] rounds and then gives up: it logs, reports
    the one fatal error of its own as the last event, and returns false.
    Each round makes one connection attempt (one more in the round, if any,
    whose warm-up went through before the rejoin failed) and reports exactly
    one error with [fatal = false].  The endpoint index moves on by one,
    modulo the number of endpoints, after each failed warm-up and each
    failed connect or identify of a rejoin, and stays after a failed join of
    a rejoin.  A fatal report before the last one can only be the
    connect-failure report of [initialSpawn], in a warm-up round. *)
Theorem doJoin_exhausts_attempts (max : Z) (st st' : St) (ns : list Next) :
  destroyed (this st) = false ->
  failing_run max 0 st ns st' ->
  doJoin max 0 st = (Val false, gave_up max st')
  /\ Z.of_nat (length ns) = max
  /\ server (this st')
     = Nat.iter (count_where rotates ns) (rotate (length (master (this st)))) (server (this st))
  /\ exists delta extra,
       trace st' = trace st ++ delta
       /\ attempt_connects delta = (length ns + extra)%nat
       /\ (extra <= 1)%nat
       /\ (cached (this st) = true -> extra = 0%nat)
       /\ (forallb is_warmup_retry ns = true -> extra = 0%nat)
       /\ count_where is_nonfatal_error (error_events delta) = length ns
       /\ Forall (fun e => e = ErrorEvent connect_failed_message true) (fatal_errors delta)
       /\ (existsb is_warmup_retry ns = false -> fatal_errors delta = []).
Proof.
  intros Hd Hrun.
  destruct (failing_run_spec _ _ _ _ _ Hrun Hd) as (H1 & H2 & _ & _ & H3 & H4).
  unfold doJoin. rewrite H1. split_and!; try done. lia.
Qed.

Lemma doJoin_exhausts_attempts_witness :
  doJoin 5 0 five_timeouts = (Val false, gave_up 5 five_timeouts_end)
  /\ Z.of_nat (length five_timeouts_kinds) = 5
  /\ server (this five_timeouts_end)
     = Nat.iter (count_where rotates five_timeouts_kinds)
                (rotate (length (master (this five_timeouts)))) (server (this five_timeouts))
  /\ exists delta extra,
       trace five_timeouts_end = trace five_timeouts ++ delta
       /\ attempt_connects delta = (length five_timeouts_kinds + extra)%nat
       /\ (extra <= 1)%nat
       /\ (cached (this five_timeouts) = true -> extra = 0%nat)
       /\ (forallb is_warmup_retry five_timeouts_kinds = true -> extra = 0%nat)
       /\ count_where is_nonfatal_error (error_events delta) = length five_timeouts_kinds
       /\ Forall (fun e => e = ErrorEvent connect_failed_message true) (fatal_errors delta)
       /\ (existsb is_warmup_retry five_timeouts_kinds = false -> fatal_errors delta = []).
Proof.
  apply (doJoin_exhausts_attempts 5 five_timeouts five_timeouts_end five_timeouts_kinds).
  - reflexivity.
  - apply (retry_rounds_sound 5). vm_compute. reflexivity.
Defined.

(** ** What doJoin passes to initialSpawn *)

(** C4, at the failing input: a warm-up whose connect throws.  The outcome
    is [FailedToConnect], which [doJoin] treats as retryable: it rotates the
    endpoint, counts the attempt and reports with [fatal = false].  Before
    that the [catch] of [initialSpawn] has already reported the failure with
    [fatal = true], without the [isFinal] guard that the time-out branch
    next to it has. *)
Lemma connect_failure_is_reported_fatal :
  (initialSpawn false connect_refused).1 = Val ConnectionErrorCode.FailedToConnect
  /\ (doJoin_round 5 0 connect_refused).1 = Val (RetryAfterWarmup 1)
  /\ server (this (doJoin_round 5 0 connect_refused).2) = 1%nat
  /\ events_of (trace (doJoin_round 5 0 connect_refused).2)
     = [ErrorEvent connect_failed_message true;
        ErrorEvent "Couldn't connect to the server. Retrying 4 more time s." false].
Proof. vm_compute. repeat split. Qed.

(** The classification of the warm-up outcomes by [doJoin], whatever the
    callee did before: [GameNotFound] and [FailedToJoin] are reported with
    [fatal = true] and end the loop; [None] falls through to the rejoin;
    every other outcome rotates the endpoint, counts the attempt and is
    reported with [fatal = false]. *)
Lemma warmup_classification (spawn : bool -> M ConnectionErrorCode.t) max a st err st1 :
  spawn (a >=? max) st = (Val err, st1) ->
  match err with
  | ConnectionErrorCode.GameNotFound | ConnectionErrorCode.FailedToJoin =>
      exists msg,
        doJoin_warmup_with spawn max a st
        = (Val (Some (Return false)),
           observe (Emitted (ErrorEvent msg true))
                   (observe (Logged LogMode.Fatal
                               (if ConnectionErrorCode.eqb err ConnectionErrorCode.GameNotFound
                                then "Couldn't find game." else "Couldn't join game.")) st1))
  | ConnectionErrorCode.None => doJoin_warmup_with spawn max a st = (Val None, st1)
  | _ =>
      forall w st', doJoin_warmup_with spawn max a st = (Val w, st') ->
        w = Some (RetryAfterWarmup (a + 1))
        /\ server (this st') = rotated (this st1)
        /\ exists delta msg,
             trace st' = trace st1 ++ delta
             /\ error_events delta = [ErrorEvent msg false]
  end.
Proof.
  intros E.
  destruct err.
  1: { unfold doJoin_warmup_with, bind. by rewrite E. }
  4,5: eexists; unfold doJoin_warmup_with, bind; by rewrite E.
  all: intros w st'; unfold doJoin_warmup_with; unfold bind at 1; rewrite E;
    cbn [ConnectionErrorCode.eqb negb]; intros Hrun.
  all: apply bind_inv in Hrun as [([] & st2 & E2 & Hrun)|[(e & _ & [=])|[_ [=]]]].
  all: match type of E2 with
       | ?m _ = _ => assert (ran quiet m) as Hq by ran_auto
       end.
  all: apply (ran_run _ _ _ _ _ Hq) in E2 as [G1 G2 G3 G4 G5 G6 G7 G8 (d2 & Ht2 & Hd2)].
  all: apply quiet_silent in Hd2 as [He2 Hc2].
  all: revert Hrun; unfold rotate_server; destruct (max - (a + 1) =? 0); mrun;
       intros [= <- <-]; cbn; unfold rotated; rewrite G2, G3; split_and!; try done.
  all: eexists (d2 ++ [_; _]), _; (split; [by rewrite Ht2; trace_norm|]).
  all: by rewrite error_events_app, He2.
Qed.

(** C10: [doJoin] never passes [true] to [initialSpawn].  Whatever the
    callee is, replacing it by one that is always handed [false] changes
    nothing, in a round and in the whole loop: the call is only reached when
    [attempt < max_attempts].  And [initialSpawn(false)] reports no error
    under an [isFinal] guard: the only error event it can emit is the
    unguarded one of the [catch] of its first [try] block, and that one goes
    with the outcome [FailedToConnect]; a time-out of the identification, of
    the join, or of the spawns and settings is reported by nothing. *)
Theorem doJoin_never_final (spawn : bool -> M ConnectionErrorCode.t) (max a : Z) (st : St) :
  doJoin_round_with spawn max a st = doJoin_round_with (fun _ => spawn false) max a st
  /\ (forall fuel,
        doJoin_fuel_with spawn fuel max a st
        = doJoin_fuel_with (fun _ => spawn false) fuel max a st)
  /\ exists delta,
       trace (initialSpawn false st).2 = trace st ++ delta
       /\ error_events delta
          = match (initialSpawn false st).1 with
            | Val ConnectionErrorCode.FailedToConnect =>
                [ErrorEvent connect_failed_message true]
            | _ => []
            end.
Proof.
  assert (forall a st,
    doJoin_round_with spawn max a st = doJoin_round_with (fun _ => spawn false) max a st)
    as Hround.
  { clear. intros a st. unfold doJoin_round_with, doJoin_warmup_with, bind, gets.
    destruct (destroyed (this st)); [done|].
    destruct (a >=? max) eqn:E; done. }
  split_and!.
  - apply Hround.
  - intros fuel. revert a st. induction fuel as [|fuel IH]; intros a st; [done|].
    cbn [doJoin_fuel_with]. unfold bind. rewrite Hround.
    destruct (doJoin_round_with _ max a st) as [[[]| |] st1]; try done; apply IH.
  - destruct (client (this st)) as [c|] eqn:Hc.
    + destruct (initialSpawn false st) as [r st'] eqn:E.
      apply initialSpawn_false_run in E as (_ & d & Ht & _ & He); [|by exists c].
      by exists d.
    + exists []. rewrite app_nil_r. unfold initialSpawn, current_endpoint. mrun.
      destruct (master (this st) !! server (this st)) as [[ip port]|]; mrun;
        [rewrite Hc|]; done.
Qed.

(** ** Reattaching the cached entities *)

Section reattach.
Local Open Scope nat_scope.

Lemma js_get_array_set {A} (l : list (option A)) (i j : nat) (v : A) :
  js_get (js_array_set j v l) i = if decide (i = j) then Some v else js_get l i.
Proof.
  unfold js_get, js_array_set. destruct (decide (j < length l)) as [Hj|Hj].
  - destruct (decide (i = j)) as [->|Hij].
    + by rewrite list_lookup_insert_eq.
    + by rewrite list_lookup_insert_ne.
  - destruct (decide (i = j)) as [->|Hij].
    + rewrite lookup_app_r by lia. rewrite lookup_app_r by (rewrite length_replicate; lia).
      rewrite length_replicate. by replace (j - length l - (j - length l)) with 0 by lia.
    + destruct (decide (i < length l)) as [Hi|Hi].
      * by rewrite lookup_app_l.
      * rewrite (proj2 (lookup_ge_None l i)) by lia. rewrite lookup_app_r by lia.
        destruct (decide (i < j)) as [Hlt|Hge].
        -- rewrite lookup_app_l by (rewrite length_replicate; lia).
           by rewrite lookup_replicate_2 by lia.
        -- rewrite lookup_ge_None_2; [done|].
           rewrite length_app, length_replicate. cbn. lia.
Qed.

Lemma rebound_refl oid S e : (forall r, ~ S r) -> rebound oid S e e.
Proof. intros HS. split; [by left| |done]. intros r Hr. by destruct (HS r). Qed.

Lemma rebound_step oid (S S' : nat -> Prop) r0 e e' :
  rebound oid S e e' ->
  (forall r, S' r <-> S r \/ r = r0) ->
  rebound oid S' e (rebind oid r0 e').
Proof.
  intros [H1 H2 H3] HS'. unfold rebind.
  assert (forall r, r = r0 ->
            alter (fun x => mkEntity oid (ent_ownerid x)) r0 e' !! r
            = (fun x => mkEntity oid (ent_ownerid x)) <$> e !! r) as Hat.
  { intros r ->. rewrite lookup_alter_eq.
    destruct (H1 r0) as [->| ->]; [done|]. by destruct (e !! r0). }
  split.
  - intros r. destruct (decide (r = r0)) as [->|Hne]; [right; by apply Hat|].
    rewrite lookup_alter_ne by done. apply H1.
  - intros r [Hr|Hr]%HS'; [|by apply Hat].
    destruct (decide (r = r0)) as [->|Hne]; [by apply Hat|].
    rewrite lookup_alter_ne by done. by apply H2.
  - intros r Hr. rewrite lookup_alter_ne.
    + apply H3. intros HS. apply Hr, HS'. by left.
    + intros ->. apply Hr, HS'. by right.
Qed.

Lemma rebound_ext oid (S S' : nat -> Prop) e e' :
  rebound oid S e e' -> (forall r, S' r <-> S r) -> rebound oid S' e e'.
Proof.
  intros [H1 H2 H3] HS. split; [done| |].
  - intros r Hr. by apply H2, HS.
  - intros r Hr. apply H3. intros Hs. by apply Hr, HS.
Qed.

Lemma rebound_trans oid (S1 S2 S : nat -> Prop) e1 e2 e3 :
  rebound oid S1 e1 e2 -> rebound oid S2 e2 e3 ->
  (forall r, S r <-> S1 r \/ S2 r) ->
  rebound oid S e1 e3.
Proof.
  intros [A1 A2 A3] [B1 B2 B3] HS.
  assert (forall r, (fun x => mkEntity oid (ent_ownerid x)) <$> e2 !! r
                    = (fun x => mkEntity oid (ent_ownerid x)) <$> e1 !! r) as Hidem.
  { intros r. destruct (A1 r) as [->| ->]; [done|]. by destruct (e1 !! r). }
  split.
  - intros r. destruct (B1 r) as [->| ->]; [apply A1|]. right. apply Hidem.
  - intros r [Hr|Hr]%HS.
    + destruct (B1 r) as [->| ->]; [by apply A2|apply Hidem].
    + rewrite (B2 r Hr). apply Hidem.
  - intros r Hr. rewrite B3, A3; [done| |]; intros Hs; apply Hr, HS; first [by left|by right].
Qed.

Lemma reattached_id st c :
  client (this st) = Some c -> reattached st c (ents st) (arrs st) = st.
Proof. destruct st as [[] ? ? ? ? ? ?]. cbn. by intros ->. Qed.

Lemma refs_of_insert_None (m : gmap Z (option nat)) i r :
  m !! i = None -> refs_of (<[i := None]> m) r <-> refs_of m r.
Proof.
  intros Hi. unfold refs_of. split; intros [id Hid]; exists id.
  - destruct (decide (id = i)) as [->|Hne]; [by rewrite lookup_insert_eq in Hid|].
    by rewrite lookup_insert_ne in Hid.
  - rewrite lookup_insert_ne; [done|]. intros ->. congruence.
Qed.

Lemma refs_of_insert_Some (m : gmap Z (option nat)) i r0 r :
  m !! i = None -> refs_of (<[i := Some r0]> m) r <-> refs_of m r \/ r = r0.
Proof.
  intros Hi. unfold refs_of. split.
  - intros [id Hid]. destruct (decide (id = i)) as [->|Hne].
    + rewrite lookup_insert_eq in Hid. right. congruence.
    + rewrite lookup_insert_ne in Hid by done. left. by exists id.
  - intros [[id Hid]| ->].
    + exists id. rewrite lookup_insert_ne; [done|]. intros ->. congruence.
    + exists i. by rewrite lookup_insert_eq.
Qed.

Lemma live_insert_None (m : gmap Z (option nat)) i :
  m !! i = None -> live (<[i := None]> m) = live m.
Proof.
  intros Hi. unfold live. rewrite omap_insert_None by done.
  apply delete_id. by rewrite lookup_omap, Hi.
Qed.

(** The loop over the cached players. *)
Lemma attach_objects_spec (players : gmap Z (option nat)) st c :
  client (this st) = Some c ->
  exists e',
    map_fold attach_object st players
    = reattached st (with_objects (live players ∪ c_objects c) c) e' (arrs st)
    /\ rebound (c_oid c) (refs_of players) (ents st) e'.
Proof.
  intros Hc.
  apply (map_fold_weak_ind (fun st' (m : gmap Z (option nat)) =>
    exists e',
      st' = reattached st (with_objects (live m ∪ c_objects c) c) e' (arrs st)
      /\ rebound (c_oid c) (refs_of m) (ents st) e')).
  - exists (ents st). split.
    + unfold live. rewrite omap_empty, (left_id_L ∅ (∪)).
      replace (with_objects (c_objects c) c) with c by by destruct c.
      by rewrite reattached_id.
    + apply rebound_refl. intros r [id Hid]. by rewrite lookup_empty in Hid.
  - intros i x m st1 Hi (e1 & -> & Hr). destruct x as [r0|].
    + exists (rebind (c_oid c) r0 e1). split.
      * unfold attach_object, reattached. cbn.
        unfold live. rewrite omap_insert_Some with (y := r0) by done.
        by rewrite insert_union_l.
      * eapply rebound_step; [done|]. intros r. by apply refs_of_insert_Some.
    + exists e1. split.
      * by rewrite live_insert_None.
      * eapply rebound_ext; [done|]. intros r. by apply refs_of_insert_None.
Qed.

(** The loop over the cached components. *)
Lemma attach_netobjects_spec (components : gmap Z (option nat)) st c :
  client (this st) = Some c ->
  exists e',
    map_fold attach_netobject st components
    = reattached st (with_netobjects (live components ∪ c_netobjects c) c) e' (arrs st)
    /\ rebound (c_oid c) (refs_of components) (ents st) e'.
Proof.
  intros Hc.
  apply (map_fold_weak_ind (fun st' (m : gmap Z (option nat)) =>
    exists e',
      st' = reattached st (with_netobjects (live m ∪ c_netobjects c) c) e' (arrs st)
      /\ rebound (c_oid c) (refs_of m) (ents st) e')).
  - exists (ents st). split.
    + unfold live. rewrite omap_empty, (left_id_L ∅ (∪)).
      replace (with_netobjects (c_netobjects c) c) with c by by destruct c.
      by rewrite reattached_id.
    + apply rebound_refl. intros r [id Hid]. by rewrite lookup_empty in Hid.
  - intros i x m st1 Hi (e1 & -> & Hr). destruct x as [r0|].
    + exists (rebind (c_oid c) r0 e1). split.
      * unfold attach_netobject, reattached. cbn.
        unfold live. rewrite omap_insert_Some with (y := r0) by done.
        by rewrite insert_union_l.
      * eapply rebound_step; [done|]. intros r. by apply refs_of_insert_Some.
    + exists e1. split.
      * by rewrite live_insert_None.
      * eapply rebound_ext; [done|]. intros r. by apply refs_of_insert_None.
Qed.

Lemma attach_global_step g k st c e1 a1 :
  attach_global g k (reattached st c e1 a1)
  = match default [] (a1 !! g) !! k with
    | Some (Some r) =>
        reattached st c (rebind (c_oid c) r e1)
          (<[c_components c := js_array_set k r (default [] (a1 !! c_components c))]> a1)
    | _ => reattached st c e1 a1
    end.
Proof.
  unfold attach_global, array_at. cbn.
  by destruct (default [] (a1 !! g) !! k) as [[r|]|].
Qed.

(** The loop over the indices of the cached singleton list, after [k]
    rounds. *)
Lemma attach_globals_spec g st c k :
  client (this st) = Some c ->
  k <= length (array_at g st) ->
  exists e' a',
    foldl (fun st i => attach_global g i st) st (seq 0 k) = reattached st c e' a'
    /\ rebound (c_oid c) (fun r => exists i, i < k /\ array_at g st !! i = Some (Some r))
                (ents st) e'
    /\ default [] (a' !! g) = array_at g st
    /\ (forall j, j <> c_components c -> a' !! j = arrs st !! j)
    /\ (forall i,
          js_get (default [] (a' !! c_components c)) i
          = if decide (i < k) then
              match js_get (array_at g st) i with
              | Some r => Some r
              | None => js_get (array_at (c_components c) st) i
              end
            else js_get (array_at (c_components c) st) i).
Proof.
  intros Hc. induction k as [|k IH]; intros Hk.
  - exists (ents st), (arrs st). cbn [seq foldl]. split_and!; try done.
    + by rewrite reattached_id.
    + apply rebound_refl. intros r (i & Hi & _). lia.
  - destruct IH as (e1 & a1 & Hf & Hr & Hg & Ho & Ht); [lia|].
    rewrite seq_S, foldl_app, Hf. cbn [foldl Nat.add].
    rewrite attach_global_step, Hg.
    destruct (lookup_lt_is_Some_2 (array_at g st) k) as [x Hx]; [lia|].
    rewrite Hx. destruct x as [r|].
    2: { (* a hole: nothing is written *)
      exists e1, a1. split_and!; try done.
      - eapply rebound_ext; [done|]. intros r. split.
        + intros (i & Hi & Hr'). exists i. split; [|done].
          destruct (decide (i = k)) as [->|]; [congruence|lia].
        + intros (i & Hi & Hr'). exists i. split; [lia|done].
      - intros i. rewrite Ht. destruct (decide (i < k)), (decide (i < S k)); try lia; try done.
        assert (i = k) as -> by lia. unfold js_get. by rewrite Hx. }
    set (t := c_components c).
    exists (rebind (c_oid c) r e1), (<[t := js_array_set k r (default [] (a1 !! t))]> a1).
    split_and!.
    + done.
    + eapply rebound_step; [done|]. intros r'. split.
      * intros (i & Hi & Hr'). destruct (decide (i = k)) as [->|].
        -- right. congruence.
        -- left. exists i. split; [lia|done].
      * intros [(i & Hi & Hr')| ->]; [exists i; split; [lia|done]|].
        exists k. split; [lia|done].
    + destruct (decide (g = t)) as [->|Hne].
      * rewrite lookup_insert_eq. cbn [default from_option id]. rewrite Hg. unfold js_array_set.
        rewrite decide_True by (apply lookup_lt_Some in Hx; lia).
        by apply list_insert_id.
      * by rewrite lookup_insert_ne.
    + intros j Hj. rewrite lookup_insert_ne by done. by apply Ho.
    + intros i. rewrite lookup_insert_eq. cbn [default from_option id].
      rewrite js_get_array_set, Ht.
      destruct (decide (i = k)) as [->|Hne].
      * rewrite decide_True by lia. unfold js_get. by rewrite Hx.
      * destruct (decide (i < k)), (decide (i < S k)); try lia; done.
Qed.

(** C5, as stated, fails on the singleton list: a hole is skipped, not
    inserted.  A cached list of length 2 whose last entry is a hole leaves a
    new session that started with an empty list with a list of length 1. *)
Lemma trailing_hole_is_not_reattached :
  global_cache (this trailing_hole) = Some 10
  /\ c_components <$> client (this trailing_hole) = Some 11
  /\ array_at 10 trailing_hole = [Some 5; None]
  /\ array_at 11 trailing_hole = []
  /\ array_at 11 (reattach ∅ ∅ 10 trailing_hole) = [Some 5]
  /\ length (array_at 11 (reattach ∅ ∅ 10 trailing_hole)) <> length (array_at 10 trailing_hole).
Proof. vm_compute. split_and!; try done. Qed.

(** C5, amended: the reattach step returns normally and puts every cached
    player and component that is not null into the registry of the current
    client under the key it had in the cache, leaving the other keys as they
    were; it writes every entry of the cached singleton list that is not a
    hole to the same index of the client's list; it sets the [room] of each
    of these entities to the client and touches no other entity.  A hole
    inserts nothing: the client's list reads at that index as it did
    before. *)
Theorem reattach_spec (players components : gmap Z (option nat)) (g : nat)
    (st : St) (c : SkeldjsClient) :
  client (this st) = Some c -> reattach_post players components g st c.
Proof.
  intros Hc. unfold reattach_post, do_reattach, reattach.
  destruct (attach_objects_spec players st c Hc) as (e1 & -> & Hr1).
  set (c1 := with_objects _ c).
  destruct (attach_netobjects_spec components (reattached st c1 e1 (arrs st)) c1 eq_refl)
    as (e2 & -> & Hr2).
  set (c2 := with_netobjects _ c1).
  set (st2 := reattached _ c2 e2 _).
  destruct (attach_globals_spec g st2 c2 (length (array_at g st2)) eq_refl (le_n _))
    as (e3 & a3 & -> & Hr3 & Hg & Ho & Ht).
  exists c2, e3, a3. split_and!; try done.
  - intros id r Hid. subst c2 c1. cbn. apply lookup_union_Some_l.
    unfold live. by rewrite lookup_omap, Hid.
  - intros id r Hid. subst c2 c1. cbn. apply lookup_union_Some_l.
    unfold live. by rewrite lookup_omap, Hid.
  - intros id Hid. subst c2 c1. cbn. by rewrite lookup_union_r.
  - intros id Hid. subst c2 c1. cbn. by rewrite lookup_union_r.
  - eapply (rebound_trans _ (fun r => refs_of players r \/ refs_of components r));
      [|exact Hr3|].
    + by eapply rebound_trans; [exact Hr1|exact Hr2|].
    + intros r. cbn. split.
      * intros [H|[H|(i & Hi)]]; [left; by left|left; by right|].
        right. exists i. split; [|done]. by apply lookup_lt_Some in Hi.
      * intros [[H|H]|(i & _ & Hi)]; [by left|right; by left|].
        right. right. by exists i.
  - intros i. rewrite Ht. destruct (decide _) as [Hi|Hi]; [done|].
    unfold js_get at 2. rewrite (proj2 (lookup_ge_None _ _)); [done|].
    change (array_at g st2) with (array_at g st) in Hi. lia.
Qed.

Lemma reattach_spec_witness :
  reattach_post {[ 3%Z := Some 5; 4%Z := None ]} {[ 8%Z := Some 5 ]} 10
                trailing_hole trailing_hole_client.
Proof. apply reattach_spec. reflexivity. Defined.

End reattach.

(** ** The recursion of joinGame and of doJoin *)

Lemma bind_ext_at {A B} (m : M A) (k1 k2 : A -> M B) st :
  (forall a st', m st = (Val a, st') -> k1 a st' = k2 a st') ->
  bind m k1 st = bind m k2 st.
Proof.
  intros H. unfold bind. destruct (m st) as [[a| |] st'] eqn:E; [by apply H|done..].
Qed.

Lemma script_le {A} (m : M A) st r st' :
  ran any m -> m st = (r, st') -> (length (script st') <= length (script st))%nat.
Proof. intros Hm E. by destruct (ran_run _ _ _ _ _ Hm E). Qed.

Lemma settle_consumes st st' :
  settle st = (Val tt, st') -> (length (script st') < length (script st))%nat.
Proof.
  unfold settle, pop_reply, lib_update. mrun.
  destruct (script st) as [|[] rest] eqn:Hs; mrun; try done.
  intros [= <-]. cbn. lia.
Qed.

Lemma client_await_consumes c st st' :
  client_await c st = (Val tt, st') -> (length (script st') < length (script st))%nat.
Proof.
  unfold client_await, await. mrun. destruct (client (this st)); mrun; [|done].
  intros H. by apply settle_consumes in H.
Qed.

(** Fuel beyond the length of the script changes nothing: every round of
    [joinGame] that recurses has consumed a reply. *)
Lemma joinGame_fuel_enough n m code doSpawn st :
  (length (script st) < n)%nat -> (n <= m)%nat ->
  joinGame_fuel n (RoomInt code) doSpawn st = joinGame_fuel m (RoomInt code) doSpawn st.
Proof.
  revert m st. induction n as [|n IH]; intros m st Hn Hm; [lia|].
  destruct m as [|m]; [lia|]. cbn [joinGame_fuel].
  apply bind_ext_at. intros cl st0 [= <- <-]. destruct (client (this st)) as [c|]; [|done].
  destruct (negb (c_identified c)); [done|].
  apply bind_ext_at. intros [] st1 H1. apply script_le in H1; cycle 1.
  { ran_auto; apply ran_any_client_await. }
  apply bind_ext_at. intros [] st2 H2. apply client_await_consumes in H2.
  apply bind_ext_at. intros p st3 H3. apply script_le in H3; [|apply ran_waitPayload; done].
  apply bind_ext_at. intros c3 st4 H4. apply script_le in H4; [|apply ran_the_client].
  destruct p as [reason|ip port|]; [done| |done].
  apply bind_ext_at. intros [] st5 H5. apply script_le in H5; [|apply ran_any_client_await].
  apply bind_ext_at. intros tok st6 H6. apply script_le in H6; [|by apply ran_tryGetAuthToken].
  apply bind_ext_at. intros [] st7 H7. apply script_le in H7; [|apply ran_set_authToken].
  apply bind_ext_at. intros [] st8 H8. apply script_le in H8; [|apply ran_any_client_await].
  apply IH; lia.
Qed.

(** The recursive call of the source, [this.joinGame(code, doSpawn)], made
    after at least one reply has been consumed. *)
Lemma joinGame_again fuel code doSpawn st :
  (length (script st) < fuel)%nat ->
  joinGame_fuel fuel (RoomInt code) doSpawn st = joinGame (RoomInt code) doSpawn st.
Proof.
  intros H. unfold joinGame.
  destruct (decide (fuel <= length (script st) + 2)%nat).
  - apply joinGame_fuel_enough; lia.
  - symmetry. apply joinGame_fuel_enough; lia.
Qed.

Lemma joinGame_string s doSpawn st :
  joinGame (RoomStr s) doSpawn st = joinGame (RoomInt (Code2Int (lib st) s)) doSpawn st.
Proof.
  unfold joinGame. rewrite Nat.add_succ_r.
  change (joinGame_fuel (S (length (script st) + 1)) (RoomStr s) doSpawn st)
    with (joinGame_fuel (length (script st) + 1) (RoomInt (Code2Int (lib st) s)) doSpawn st).
  apply joinGame_fuel_enough; lia.
Qed.

Lemma doJoin_fuel_enough f1 f2 max a st :
  (Z.to_nat (max - a) < f1)%nat -> (Z.to_nat (max - a) < f2)%nat ->
  doJoin_fuel f1 max a st = doJoin_fuel f2 max a st.
Proof.
  revert f2 a st. induction f1 as [|f1 IH]; intros f2 a st H1 H2; [lia|].
  destruct f2 as [|f2]; [lia|]. rewrite !doJoin_fuel_S.
  apply bind_ext_at. intros n st' Hrun.
  destruct n as [b|a'|a'|a']; [done|..].
  all: destruct (doJoin_round_retry _ _ _ _ _ Hrun eq_refl) as (Hlt & Hn & _);
    cbn [next_attempt] in Hn; subst a'; apply IH; lia.
Qed.

(** The model of [doJoin] satisfies the recursion of the source: one round
    of the body, and either its result or the tail call. *)
Lemma doJoin_unfold max a st :
  doJoin max a st
  = bind (doJoin_round max a) (fun n =>
      match n with
      | Return b => ret b
      | RetryAfterWarmup attempt
      | RetryAfterConnect attempt
      | RetryAfterJoin attempt => doJoin max attempt
      end) st.
Proof.
  unfold doJoin at 1. rewrite doJoin_fuel_S.
  apply bind_ext_at. intros n st' Hrun.
  destruct n as [b|a'|a'|a']; [done|..].
  all: destruct (doJoin_round_retry _ _ _ _ _ Hrun eq_refl) as (Hlt & Hn & _);
    cbn [next_attempt] in Hn; subst a'; unfold doJoin; apply doJoin_fuel_enough; lia.
Qed.

(** ** One handshake *)

Section token_rules.
Context (P : Obs -> Prop) (ip : option Endpoint).
Context (P_log : forall m t, P (Logged m t)).
Context (P_helper : forall a p, ip = Some (a, p) -> P (Called (GetAuthTokenProc a (pretty (p + 2))))).



End token_rules.


Lemma settle_run upd rest st c :
  client (this st) = Some c ->
  script st = Settles upd :: rest ->
  settle st
  = (Val tt, mkSt (set_client (Some (with_oid (c_oid c) (upd c))) (this st)) (ents st) (arrs st)
                  (next_oid st) (lib st) rest (trace st)).
Proof.
  intros Hc Hs. unfold settle, pop_reply, lib_update. mrun. rewrite Hs. mrun. by rewrite Hc.
Qed.

Lemma client_await_run call upd rest st c :
  client (this st) = Some c ->
  script st = Settles upd :: rest ->
  client_await call st
  = (Val tt, mkSt (set_client (Some (with_oid (c_oid c) (upd c))) (this st)) (ents st) (arrs st)
                  (next_oid st) (lib st) rest (trace st ++ [Called call])).
Proof.
  intros Hc Hs. unfold client_await, await. mrun. rewrite Hc. mrun.
  by erewrite settle_run.
Qed.

Lemma waitPayload_run p upd rest st c :
  client (this st) = Some c ->
  script st = Delivers p upd :: rest ->
  waitPayload st
  = (Val p, mkSt (set_client (Some (with_oid (c_oid c) (upd c))) (this st)) (ents st) (arrs st)
                 (next_oid st) (lib st) rest (trace st ++ [Called WaitPayload])).
Proof.
  intros Hc Hs. unfold waitPayload, the_client, pop_reply, lib_update. mrun.
  rewrite Hc. mrun. rewrite Hs. mrun. by rewrite Hc.
Qed.



(** ** player.sethost *)

Lemma destroy_events st : events_of (trace (destroy st).2) = events_of (trace st).
Proof.
  unfold destroy. mrun.
  destruct (destroyed (this st)); mrun; [done|].
  destruct (client (this st)) as [c|]; mrun.
  - destruct (c_socket c); mrun.
    + unfold await, settle, pop_reply, lib_update. mrun.
      destruct (script st) as [|[]]; mrun; rewrite ?events_of_app; cbn; by rewrite ?app_nil_r.
    + rewrite events_of_app. cbn. by rewrite app_nil_r.
  - rewrite events_of_app. cbn. by rewrite app_nil_r.
Qed.






(** * Further properties of the backend *)

(** ** The snapshot *)

(** [resetObjectCaches] without a client does nothing.  With a client it
    returns and replaces the three caches, nothing else: the player cache
    holds exactly the objects of the client whose id is positive and is not
    the client's own id, the component cache exactly the components that
    the client does not own, neither holds a null, and the third cache is
    the client's own array of room components, by reference. *)
Theorem resetObjectCaches_snapshot (st : St) :
  match client (this st) with
  | None => resetObjectCaches st = (Val tt, st)
  | Some c =>
      exists pc cc,
        resetObjectCaches st
        = (Val tt, on_this (set_caches (Some pc) (Some cc) (Some (c_components c))) st)
        /\ (forall id r, pc !! id = Some (Some r)
                         <-> c_objects c !! id = Some r /\ id <> c_clientid c /\ 0 < id)
        /\ (forall id r, cc !! id = Some (Some r)
                         <-> c_netobjects c !! id = Some r
                             /\ ent_ownerid <$> (ents st !! r) <> Some (c_clientid c))
        /\ (forall id, pc !! id <> Some None /\ cc !! id <> Some None)
        /\ pc !! c_clientid c = None
  end.
Proof.
  unfold resetObjectCaches. destruct (client (this st)) as [c|]; [|done].
  eexists _, _. split; [reflexivity|]. split_and!.
  - intros id r. rewrite lookup_fmap, fmap_Some. split.
    + intros (x & Hx & [= ->]). by apply map_lookup_filter_Some in Hx as [? []].
    + intros (? & ? & ?). exists r. split; [|done]. by apply map_lookup_filter_Some.
  - intros id r. rewrite lookup_fmap, fmap_Some. split.
    + intros (x & Hx & [= ->]). by apply map_lookup_filter_Some in Hx as [? ?].
    + intros (? & ?). exists r. split; [|done]. by apply map_lookup_filter_Some.
  - intros id. rewrite !lookup_fmap. split.
    + by destruct (filter _ (c_objects c) !! id).
    + by destruct (filter _ (c_netobjects c) !! id).
  - rewrite lookup_fmap, fmap_None. apply map_lookup_filter_None. right.
    intros r _ [H _]. done.
Qed.

Lemma live_fmap_Some (m : gmap Z nat) : live (Some <$> m) = m.
Proof.
  apply map_eq. intros id. unfold live. rewrite lookup_omap, lookup_fmap.
  by destruct (m !! id).
Qed.

Lemma reattach_registries players components g st c :
  client (this st) = Some c ->
  exists c',
    client (this (reattach players components g st)) = Some c'
    /\ c_objects c' = live players ∪ c_objects c
    /\ c_netobjects c' = live components ∪ c_netobjects c.
Proof.
  intros Hc. unfold reattach.
  destruct (attach_objects_spec players st c Hc) as (e1 & -> & _).
  set (c1 := with_objects _ c).
  destruct (attach_netobjects_spec components (reattached st c1 e1 (arrs st)) c1 eq_refl)
    as (e2 & -> & _).
  set (c2 := with_netobjects _ c1). set (st2 := reattached _ c2 e2 _).
  destruct (attach_globals_spec g st2 c2 (length (array_at g st2)) eq_refl (le_n _))
    as (e3 & a3 & -> & _).
  by exists c2.
Qed.

(** The snapshot and the reattach step, one after the other.  What
    [resetObjectCaches] took from a client [c0] the reattach step puts into
    the registries of the client [c] at hand, over what [c] holds under the
    same keys: the objects are the kept objects of [c0] and, under the other
    keys, those of [c]; so are the components.  A client whose registry is
    empty gets the kept objects of [c0] and nothing else, the client [c0]
    itself gets its registry back unchanged, and the object under the own
    id of [c0] is never restored. *)
Theorem snapshot_then_reattach (st0 st : St) (c0 c : SkeldjsClient) (g : nat) :
  client (this st0) = Some c0 ->
  client (this st) = Some c ->
  snapshot_restored st0 st c0 c g.
Proof.
  intros H0 Hc. unfold snapshot_restored, resetObjectCaches. rewrite H0. cbn.
  eexists _, _. 
  destruct (reattach_registries (Some <$> kept_objects c0)
              (Some <$> kept_netobjects c0 (ents st0)) g st c Hc) as (c' & Hc' & Ho & Hn).
  rewrite live_fmap_Some in Ho, Hn.
  exists c'. split; [reflexivity|]. split; [reflexivity|]. split; [exact Hc'|].
  split; [done|]. split; [done|]. rewrite Ho. split_and!.
  - intros ->. apply (right_id_L ∅ (∪)).
  - intros ->. apply map_eq. intros id. unfold kept_objects.
    rewrite lookup_union. destruct (filter _ (c_objects c0) !! id) as [r|] eqn:E.
    + apply map_lookup_filter_Some in E as [-> _]. done.
    + by rewrite (left_id_L None _).
  - rewrite lookup_union_r; [done|]. apply map_lookup_filter_None. right.
    by intros r _ [H _].
Qed.

Lemma snapshot_then_reattach_witness : snapshot_restored crowded emptied crowded_client connected_client 0.
Proof. by apply snapshot_then_reattach. Defined.

(** ** disconnect *)

(** [this.disconnect()] without a client does nothing.  With a client it
    takes the snapshot first and then calls [client.disconnect()] once:
    however that call ends (it returns, throws or stays pending), the three
    caches hold the snapshot of the client as it was at the call, nothing
    is emitted, and the flag, the endpoints, the index and the settings are
    as before. *)
Theorem disconnect_snapshots_first (st : St) :
  match client (this st) with
  | None => disconnect st = (Val tt, st)
  | Some c =>
      let st' := (disconnect st).2 in
      snapshot_of c st (this st')
      /\ cached (this st') = true
      /\ trace st' = trace st ++ [Called Disconnect]
      /\ destroyed (this st') = destroyed (this st)
      /\ master (this st') = master (this st)
      /\ server (this st') = server (this st)
      /\ settings (this st') = settings (this st)
      /\ is_Some (client (this st'))
  end.
Proof.
  unfold disconnect, resetObjectCaches.
  destruct (client (this st)) as [c|] eqn:Hc; mrun; rewrite ?Hc; mrun; [|done].
  unfold await, settle, pop_reply, lib_update. mrun.
  destruct (script st) as [|[] rest]; mrun; done.
Qed.

(** ** doJoin on a destroyed backend *)

Lemma destroy_sets_the_flag st st1 :
  destroy st = (Val tt, st1) -> destroyed (this st1) = true.
Proof.
  unfold destroy. mrun. destruct (destroyed (this st)) eqn:Hd; mrun.
  { by intros [= <-]. }
  destruct (client (this st)) as [c|]; mrun; [destruct (c_socket c); mrun|].
  - unfold await, settle, pop_reply, lib_update. mrun.
    destruct (script st) as [|[] rest]; mrun; try done; by intros [= <-].
  - by intros [= <-].
  - by intros [= <-].
Qed.

(** Destruction is permanent: once a call of [destroy] has completed, every
    [doJoin], whatever its arguments, returns false at once and does
    nothing: no client is created, no connection is opened, nothing is
    logged or emitted. *)
Theorem doJoin_after_destroy (st st1 : St) (max attempt : Z) :
  destroy st = (Val tt, st1) ->
  doJoin max attempt st1 = (Val false, st1).
Proof.
  intros H%destroy_sets_the_flag. unfold doJoin. rewrite doJoin_fuel_S.
  unfold doJoin_round, doJoin_round_with. mrun. by rewrite H.
Qed.

Lemma doJoin_after_destroy_witness :
  doJoin 5 0 destroyed_state = (Val false, destroyed_state).
Proof. by apply (doJoin_after_destroy (sample_state [Settles keep])). Defined.

(** ** joinGame without a usable client *)

(** [joinGame] returns null without a call on the client, and changes
    nothing, when there is no client or when the client is not identified,
    for a code of either form. *)
Theorem joinGame_needs_an_identified_client (code : RoomID) (doSpawn : bool) (st : St) :
  (if client (this st) is Some c then c_identified c = false else True) ->
  joinGame code doSpawn st = (Val None, st).
Proof.
  intros H. destruct code as [s|code]; [rewrite joinGame_string|].
  all: unfold joinGame; rewrite Nat.add_succ_r; cbn [joinGame_fuel]; mrun.
  all: destruct (client (this st)) as [c|]; [|done]; by rewrite H.
Qed.

Lemma joinGame_needs_an_identified_client_witness :
  joinGame (RoomStr "ABCDEF") true (cold_state [Settles keep]) = (Val None, cold_state [Settles keep]).
Proof. by apply joinGame_needs_an_identified_client. Defined.

(** ** doJoin with the caches at hand *)

Lemma doJoin_round_cached spawn spawn' max a st :
  cached (this st) = true ->
  doJoin_round_with spawn max a st = doJoin_round_with spawn' max a st.
Proof.
  intros Hc. unfold doJoin_round_with.
  apply bind_ext_at. intros d st0 [= <- <-]. destruct (destroyed (this st)); [done|].
  destruct (a >=? max); [done|].
  apply bind_ext_at. intros cl st0 [= <- <-].
  apply bind_ext_at. intros [] st1 H1.
  assert (cached (this st1) = true) as Hc1.
  { destruct (client (this st)); cbn in H1; [by injection H1 as <-|].
    unfold new_client in H1. by injection H1 as <-. }
  unfold bind at 1 3, gets at 1 2. by rewrite Hc1.
Qed.

(** Once the three caches are set, which [this.disconnect()] sees to,
    [doJoin] never calls [initialSpawn]: whatever the callee would do, the
    run of [doJoin] is the same, in every round of the loop. *)
Theorem doJoin_cached_skips_warmup (spawn spawn' : bool -> M ConnectionErrorCode.t)
    (fuel : nat) (max attempt : Z) (st : St) :
  cached (this st) = true ->
  doJoin_fuel_with spawn fuel max attempt st = doJoin_fuel_with spawn' fuel max attempt st.
Proof.
  revert attempt st. induction fuel as [|fuel IH]; intros a st Hc; [done|].
  cbn [doJoin_fuel_with]. unfold bind.
  rewrite (doJoin_round_cached spawn initialSpawn), (doJoin_round_cached spawn' initialSpawn)
    by done.
  destruct (doJoin_round_with initialSpawn max a st) as [[n| |] st'] eqn:Hrun; [|done..].
  destruct n as [b|a'|a'|a']; [done|..].
  all: apply IH; by apply (doJoin_round_retry _ _ _ _ _ Hrun eq_refl).
Qed.

Lemma doJoin_cached_skips_warmup_witness :
  doJoin_fuel_with (fun _ => throw "not called") 6 5 0 five_rejections
  = doJoin_fuel_with initialSpawn 6 5 0 five_rejections.
Proof. by apply doJoin_cached_skips_warmup. Defined.

(** ** doJoin without an endpoint *)

Lemma doJoin_no_endpoint_run (max attempt : Z) (st : St) :
  destroyed (this st) = false ->
  attempt < max ->
  master (this st) !! server (this st) = None ->
  exists st',
    doJoin max attempt st = (Exn "Cannot read properties of undefined", st')
    /\ is_Some (client (this st'))
    /\ trace st' = trace st ++ (if client (this st) is Some _ then []
                                else [Called (NewClient (next_oid st))])
    /\ script st' = script st
    /\ this st' = (if client (this st) is Some _ then this st
                   else set_client (Some (fresh_client (next_oid st))) (this st)).
Proof.
  intros Hd Hlt Hm.
  assert (forall st1 : St,
            destroyed (this st1) = false ->
            master (this st1) !! server (this st1) = None ->
            (let* have_caches := gets cached in
             if negb have_caches then
               let* w := doJoin_warmup_with initialSpawn max attempt in
               match w with
               | Some n => ret n
               | None => doJoin_rejoin max attempt
               end
             else doJoin_rejoin max attempt) st1
            = (Exn "Cannot read properties of undefined", st1)) as Hbody.
  { intros st1 Hd1 Hm1. unfold bind at 1, gets at 1.
    assert (doJoin_rejoin max attempt st1 = (Exn "Cannot read properties of undefined", st1))
      as Hrejoin.
    { unfold doJoin_rejoin, current_endpoint. unfold bind at 1, gets at 1. rewrite Hd1.
      unfold bind at 1. unfold bind at 1, gets at 1. by rewrite Hm1. }
    destruct (cached (this st1)); cbn [negb]; [done|].
    unfold doJoin_warmup_with, initialSpawn, current_endpoint.
    unfold bind at 1. unfold bind at 1. unfold bind at 1. unfold bind at 1, gets at 1.
    by rewrite Hm1. }
  unfold doJoin. rewrite doJoin_fuel_S. unfold bind at 1.
  unfold doJoin_round, doJoin_round_with. unfold bind at 1, gets at 1. rewrite Hd.
  destruct (attempt >=? max) eqn:E; [rewrite Z.geb_leb in E; apply Z.leb_le in E; lia|].
  unfold bind at 1, gets at 1. unfold bind at 1.
  destruct (client (this st)) as [c|] eqn:Hc; cbn [when negb bool_decide decide_rel].
  - rewrite bool_decide_true by done. cbn [negb when]. unfold ret at 1.
    rewrite Hbody by done. eexists. split; [reflexivity|]. rewrite Hc, app_nil_r. done.
  - rewrite bool_decide_false by (by intros []). cbn [negb when]. unfold new_client at 1.
    rewrite Hbody by done. eexists. split; [reflexivity|]. done.
Qed.

(** With no endpoint under the current index (an empty endpoint list is
    the case in point) [doJoin] does not report anything: after creating a
    client where there is none, it throws the TypeError of
    [this.master[this.server][0]], from [initialSpawn] or from the rejoin,
    and emits and logs nothing. *)
Theorem doJoin_without_endpoint (max attempt : Z) (st : St) :
  destroyed (this st) = false ->
  attempt < max ->
  master (this st) !! server (this st) = None ->
  exists st',
    doJoin max attempt st = (Exn "Cannot read properties of undefined", st')
    /\ is_Some (client (this st'))
    /\ trace st' = trace st ++ (if client (this st) is Some _ then []
                                else [Called (NewClient (next_oid st))])
    /\ script st' = script st.
Proof.
  intros Hd Hlt Hm.
  destruct (doJoin_no_endpoint_run max attempt st Hd Hlt Hm) as (st' & ? & ? & ? & ? & _).
  by exists st'.
Qed.

Lemma doJoin_without_endpoint_witness :
  exists st',
    doJoin 5 0 (mkSt (mkBackend false None 0 [] 0 None None None (mkGameSettings 0 1) "ABCDEF")
                     ∅ ∅ 1 sample_lib [] [])
    = (Exn "Cannot read properties of undefined", st')
    /\ is_Some (client (this st'))
    /\ trace st' = [] ++ [Called (NewClient 1)]
    /\ script st' = [].
Proof.
  apply (doJoin_without_endpoint 5 0
           (mkSt (mkBackend false None 0 [] 0 None None None (mkGameSettings 0 1) "ABCDEF")
                 ∅ ∅ 1 sample_lib [] [])); [reflexivity|lia|reflexivity].
Defined.

(** ** A rejoin that gives up *)

Lemma frame_events_quiet st st' :
  frame quiet st st' -> events_of (trace st') = events_of (trace st).
Proof.
  intros [_ _ _ _ _ _ _ _ (d & -> & Hq)]. rewrite events_of_app.
  assert (events_of d = []) as ->; [|by rewrite app_nil_r].
  induction Hq as [|o d Ho _ IH]; [done|]. destruct o; [done|exact IH..].
Qed.

Lemma doJoin_replace_false st st' :
  doJoin_replace st = (Val false, st') -> events_of (trace st') = events_of (trace st).
Proof.
  unfold doJoin_replace. unfold bind at 1, log at 1, tell at 1.
  unfold bind at 1, gets at 1. unfold bind at 1, gets at 1. unfold bind at 1, gets at 1.
  cbn [this observe].
  destruct (players_cache (this st)) as [pc|]; [|done].
  destruct (components_cache (this st)) as [cc|]; [|done].
  destruct (global_cache (this st)) as [g|]; [|done].
  unfold bind at 1, array_length at 1. unfold bind at 1, log at 1, tell at 1.
  unfold bind at 1, gets at 1. cbn [this observe].
  destruct (client (this st)) as [c|] eqn:Hc.
  - intros H.
    match type of H with
    | ?body _ = _ => assert (returns (fun b : bool => b = true) body) as Hret by returns_auto
    end.
    by pose proof (returns_run _ _ _ _ _ Hret H).
  - intros H. apply bind_inv in H as [([] & st1 & E1 & [= <-])|[(e & _ & [=])|[_ [=]]]].
    replace st1 with (destroy (observe (Logged LogMode.Info
      ("Replacing state with cached state.. (" ++ pretty (size pc) ++ " objects, "
       ++ pretty (size cc) ++ " netobjects, " ++ pretty (length (array_at g
            (observe (Logged LogMode.Success "Successfully joined!") st)))
       ++ " room components)")) (observe (Logged LogMode.Success "Successfully joined!") st))).2
      by (by rewrite E1).
    rewrite destroy_events. cbn [trace observe]. rewrite !events_of_app. cbn.
    by rewrite !app_nil_r.
Qed.

(** When the rejoin part of [doJoin] ends the loop with false, the consumer
    is told nothing: whether the backend was destroyed, the server answered
    that the game could not be found, or the client handle was gone after
    the join, no event is emitted on the way.  Only the warm-up and the
    exhaustion of the attempts report before they return false. *)
Theorem rejoin_gives_up_silently (max attempt : Z) (st st' : St) :
  has_client st ->
  doJoin_rejoin max attempt st = (Val (Return false), st') ->
  events_of (trace st') = events_of (trace st).
Proof.
  intros [c Hc] Hrun. unfold doJoin_rejoin in Hrun.
  unfold bind at 1, gets at 1 in Hrun.
  destruct (destroyed (this st)) eqn:Hd; [by injection Hrun as <-|].
  apply bind_inv in Hrun as [(ep & st1 & E1 & Hrun)|[(e & _ & [=])|[_ [=]]]].
  apply current_endpoint_inv in E1 as [-> Hep]. destruct ep as [ip port].
  unfold bind at 1, log at 1, tell at 1 in Hrun. set (o1 := Logged _ _) in Hrun.
  apply bind_inv in Hrun as [(connected & st2 & E2 & Hrun)|[(e & _ & [=])|[_ [=]]]].
  erewrite try_catch_eq in E2 by (by eapply (bind_client_await _ _ c)).
  apply try_catch_inv in E2 as [(v & E2 & [= <-])|[(e & st1 & E2 & Hh)|[_ [=]]]].
  2: { unfold rotate_server in Hh. revert Hh. mrun. intros [= <- <-]. by injection Hrun. }
  match type of E2 with
  | ?body _ = _ =>
      assert (ran quiet body) as Hbody by ran_auto;
      assert (returns (fun r : option Next => r = None) body) as Hret by returns_auto
  end.
  pose proof (returns_run _ _ _ _ _ Hret E2) as ->.
  apply (ran_run _ _ _ _ _ Hbody) in E2. apply frame_events_quiet in E2.
  cbn [trace observe] in E2. rewrite !events_of_app in E2. cbn in E2. rewrite !app_nil_r in E2.
  unfold bind at 1, log at 1, tell at 1 in Hrun. set (o2 := Logged _ _) in Hrun.
  apply bind_inv in Hrun as [(joined & st3 & E4 & Hrun)|[(e & _ & [=])|[_ [=]]]].
  assert (events_of (trace (observe o2 st2)) = events_of (trace st)) as E3.
  { cbn [trace observe]. rewrite events_of_app, E2. cbn. by rewrite app_nil_r. }
  apply try_catch_inv in E4 as [(v & E4 & [= <-])|[(e & st4 & E4 & Hh)|[_ [=]]]].
  { match type of E4 with
    | ?body _ = _ =>
        assert (ran quiet body) as Hbody' by ran_auto;
        assert (returns (fun r : option Next => r = None) body) as Hret' by returns_auto
    end.
    pose proof (returns_run _ _ _ _ _ Hret' E4) as ->.
    apply (ran_run _ _ _ _ _ Hbody') in E4. apply frame_events_quiet in E4.
    apply bind_inv in Hrun as [(b & st5 & E5 & [= -> <-])|[(e & _ & [=])|[_ [=]]]].
    apply doJoin_replace_false in E5. by rewrite E5, E4. }
  match type of E4 with
  | ?body _ = _ => assert (ran quiet body) as Hbody' by ran_auto
  end.
  apply (ran_run _ _ _ _ _ Hbody') in E4. apply frame_events_quiet in E4.
  destruct (includes _ e).
  - revert Hh. mrun. intros [= <- <-]. injection Hrun as <-. cbn [trace].
    rewrite events_of_app, E4, E3. cbn. by rewrite app_nil_r.
  - revert Hh. mrun. intros [= <- <-]. by injection Hrun.
Qed.

Lemma rejoin_gives_up_silently_witness :
  (doJoin_rejoin 5 0 game_is_gone).1 = Val (Return false)
  /\ events_of (trace (doJoin_rejoin 5 0 game_is_gone).2) = events_of (trace game_is_gone).
Proof.
  split; [by vm_compute|].
  apply (rejoin_gives_up_silently 5 0); [by eexists|by vm_compute].
Defined.

(** ** resolveMMDNS *)


Lemma lookup_names_rejected names answers msg rest servers :
  (length answers < length names)%nat ->
  lookup_names names ((Resolved <$> answers) ++ Rejected msg :: rest) servers = (Exn msg, rest).
Proof.
  revert answers servers. induction names as [|n names IH]; intros [|a answers] servers Hl;
    cbn in *; try lia; try done.
  apply IH. lia.
Qed.

Lemma v4_ports ips : Forall (fun ep : Endpoint => ep.2 = 22023) (v4 ips).
Proof. unfold v4. apply Forall_fmap, Forall_forall. by intros. Qed.

Lemma lookup_names_extends names dns servers r dns' :
  lookup_names names dns servers = (Val r, dns') ->
  exists new, r = servers ++ new /\ Forall (fun ep : Endpoint => ep.2 = 22023) new.
Proof.
  revert dns servers. induction names as [|n names IH]; intros dns servers; cbn.
  - intros [= <- <-]. exists []. by rewrite app_nil_r.
  - destruct dns as [|[ips|msg|] dns]; try done. intros H.
    apply IH in H as (new & -> & Hn). exists (v4 ips ++ new).
    rewrite <- app_assoc. split; [done|]. apply Forall_app. split; [apply v4_ports|done].
Qed.



(** A lookup that is rejected makes [resolveMMDNS] throw the error of the
    lookup: the names after it are not looked up, and the table is left as
    it was, also by the names that were answered before. *)
Theorem resolveMMDNS_rejected (region : string) (names : list string)
    (regions : gmap string (list Endpoint)) (answers : list (list LookupAddress))
    (msg : string) (rest : list DnsReply) :
  (length answers < length names)%nat ->
  resolveMMDNS region names regions ((Resolved <$> answers) ++ Rejected msg :: rest)
  = (Exn msg, regions, rest).
Proof. intros Hl. unfold resolveMMDNS. by rewrite lookup_names_rejected. Qed.

Lemma resolveMMDNS_rejected_witness :
  resolveMMDNS "NA" ["a"; "b"; "c"] ∅
    ((Resolved <$> [[mkLookupAddress "10.0.0.2" 4]]) ++ Rejected "ENOTFOUND" :: [Resolved []])
  = (Exn "ENOTFOUND", ∅, [Resolved []]).
Proof. apply resolveMMDNS_rejected. cbn. lia. Defined.

Lemma resolveMMDNS_returns region ns (rg : gmap string (list Endpoint)) d l rg1 d' :
  resolveMMDNS region ns rg d = (Val l, rg1, d') ->
  rg1 !! region = Some l /\ default [] (rg !! region) `prefix_of` l.
Proof.
  unfold resolveMMDNS.
  destruct (lookup_names ns d []) as [[servers| |] d1] eqn:E; [|done..].
  intros [= <- <- <-]. split; [by rewrite lookup_insert_eq|].
  destruct (rg !! region) as [old|] eqn:Eo; cbn.
  - rewrite Eo. cbn. by apply prefix_app_r.
  - apply prefix_nil.
Qed.

(** [resolveMMDNS] accumulates: of two calls for a region that both return,
    whatever the names and the answers, the second returns the result of
    the first followed by what it found itself; nothing is dropped and
    nothing is deduplicated. *)
Theorem resolveMMDNS_accumulates (region : string) (names1 names2 : list string)
    (regions regions1 regions2 : gmap string (list Endpoint))
    (dns1 dns1' dns2 dns2' : list DnsReply) (l1 l2 : list Endpoint) :
  resolveMMDNS region names1 regions dns1 = (Val l1, regions1, dns1') ->
  resolveMMDNS region names2 regions1 dns2 = (Val l2, regions2, dns2') ->
  l1 `prefix_of` l2
  /\ regions1 !! region = Some l1
  /\ regions2 !! region = Some l2.
Proof.
  intros H1 H2.
  destruct (resolveMMDNS_returns _ _ _ _ _ _ _ H1) as [E1 P1].
  destruct (resolveMMDNS_returns _ _ _ _ _ _ _ H2) as [E2 P2].
  rewrite E1 in P2. done.
Qed.

Lemma resolveMMDNS_accumulates_witness :
  [("10.0.0.2", 22023)] `prefix_of` [("10.0.0.2", 22023); ("10.0.0.2", 22023)].
Proof.
  exact (proj1 (resolveMMDNS_accumulates "NA" ["a"] ["a"] ∅ _ _
                  [Resolved [mkLookupAddress "10.0.0.2" 4]] []
                  [Resolved [mkLookupAddress "10.0.0.2" 4]] []
                  [("10.0.0.2", 22023)] [("10.0.0.2", 22023); ("10.0.0.2", 22023)]
                  eq_refl eq_refl)).
Defined.

(** ** awaitSpawns *)

Lemma for_each_colours_client (players : list PlayerInfo) st :
  exists st',
    for_each players (fun p =>
      when (negb (String.eqb (pi_name p) "")) (emitPlayerColor (pi_name p) (pi_color p))) st
    = (Val tt, st')
    /\ this st' = this st.
Proof.
  revert st. induction players as [|p ps IH]; intros st; [by exists st|].
  cbn [for_each]. unfold bind at 1. destruct (negb _); cbn [when].
  - unfold emitPlayerColor at 1, tell at 1. cbv beta iota.
    destruct (IH (observe (Emitted (PlayerColor (pi_name p) (pi_color p))) st))
      as (st' & E1 & E2).
    rewrite E1. by exists st'.
  - unfold ret at 1. cbv beta iota. destruct (IH st) as (st' & E1 & E2).
    rewrite E1. by exists st'.
Qed.

Lemma onSpawn_run component w st c :
  client (this st) = Some c ->
  exists st',
    onSpawn component w st
    = (Val (spawn_noted component w, spawn_complete (c_players c) (spawn_noted component w)), st')
    /\ this st' = this st.
Proof.
  intros Hc. unfold onSpawn. unfold bind at 1, gets at 1. rewrite Hc.
  assert (forall (w1 : SpawnWait) (st1 : St), this st1 = this st ->
            (if gamedataSpawned w1
             then let* c := the_client in
                  if forallb (fun p => bool_decide (pd_id p ∈ playersSpawned w1)) (c_players c)
                  then ret (w1, true) else ret (w1, false)
             else ret (w1, false)) st1
            = (Val (w1, spawn_complete (c_players c) w1), st1)) as Htail.
  { intros w1 st1 E. unfold spawn_complete. destruct (gamedataSpawned w1); [|done].
    unfold bind, the_client, bind, gets. rewrite E, Hc. cbn.
    by destruct (forallb _ _). }
  destruct component as [ps|ownerid|cn]; cbn [spawn_noted].
  - unfold bind at 1. unfold bind at 1.
    destruct (for_each_colours_client ps st) as (st' & -> & E). unfold ret at 1.
    rewrite Htail by done. by exists st'.
  - unfold bind at 1, ret at 1. rewrite Htail by done. by exists st.
  - unfold bind at 1, ret at 1. rewrite Htail by done. by exists st.
Qed.

Lemma awaitSpawns_events_run evs w st c :
  client (this st) = Some c ->
  Forall keeps_players evs ->
  ((awaitSpawns_events evs w st).1 = Val true
   <-> evs <> []
       /\ (gamedataSpawned w = true \/ exists ps, GameData ps ∈ evs.*2)
       /\ forall p, p ∈ c_players c ->
             pd_id p ∈ playersSpawned w \/ PlayerControl (pd_id p) ∈ evs.*2)
  /\ ((awaitSpawns_events evs w st).1 = Val true \/ (awaitSpawns_events evs w st).1 = Hang).
Proof.
  revert w st c. induction evs as [|[upd component] evs IH]; intros w st c Hc Hk.
  { cbn. split; [|by right]. split; [done|]. by intros []. }
  apply Forall_cons in Hk as [Hk1 Hk]. cbn [awaitSpawns_events].
  unfold bind at 1 3 5, lib_update at 1 2 3, modify at 1 2 3. cbv beta iota.
  set (st1 := on_this _ st).
  assert (client (this st1) = Some (with_oid (c_oid c) (upd c))) as Hc1.
  { subst st1. cbn. by rewrite Hc. }
  assert (c_players (with_oid (c_oid c) (upd c)) = c_players c) as Hp by apply Hk1.
  destruct (onSpawn_run component w st1 _ Hc1) as (st2 & E2 & Ht2).
  unfold bind at 1 2 3. rewrite E2. cbn [fst snd]. rewrite Hp.
  assert (spawn_complete (c_players c) (spawn_noted component w) = true
          <-> (gamedataSpawned w = true \/ exists ps, GameData ps ∈ [component])
              /\ forall p, p ∈ c_players c ->
                    pd_id p ∈ playersSpawned w \/ PlayerControl (pd_id p) ∈ [component])
    as Hnow.
  { unfold spawn_complete. rewrite andb_true_iff, forallb_forall.
    setoid_rewrite <- list_elem_of_In. setoid_rewrite bool_decide_eq_true.
    setoid_rewrite list_elem_of_singleton.
    destruct component as [ps|ownerid|cn]; cbn [spawn_noted playersSpawned gamedataSpawned].
    - split.
      + intros [_ H]. split; [right; by exists ps|]. intros p Hin. left. by apply H.
      + intros [_ H]. split; [done|]. intros p Hin. by destruct (H p Hin).
    - setoid_rewrite elem_of_app. setoid_rewrite list_elem_of_singleton. split.
      + intros [Hg H]. split; [by left|]. intros p Hin.
        destruct (H p Hin) as [?| ->]; [by left|by right].
      + intros [[Hg|(ps & [=])] H]. split; [done|]. intros p Hin.
        destruct (H p Hin) as [?|[= ->]]; [by left|by right].
    - split.
      + intros [Hg H]. split; [by left|]. intros p Hin. left. by apply H.
      + intros [[Hg|(ps & [=])] H]. split; [done|]. intros p Hin.
        by destruct (H p Hin). }
  destruct (spawn_complete (c_players c) (spawn_noted component w)) eqn:Hdone.
  - cbn. split; [|by left]. split; [|done]. intros _. split; [discriminate|].
    destruct (proj1 Hnow eq_refl) as [Hg Hall]. split.
    + destruct Hg as [|(ps & Hps)]; [by left|]. right. exists ps.
      apply list_elem_of_singleton in Hps as ->. by left.
    + intros p Hin. destruct (Hall p Hin) as [|Hpc]; [by left|]. right.
      apply list_elem_of_singleton in Hpc as <-. by left.
  - assert (client (this st2) = Some (with_oid (c_oid c) (upd c))) as Hc2 by by rewrite Ht2.
    destruct (IH (spawn_noted component w) st2 _ Hc2 Hk) as [IH1 IH2].
    split; [|done]. rewrite IH1, Hp. cbn [fmap list_fmap snd].
    split.
    + intros (Hne & Hg & Hall). split; [discriminate|]. split.
      * destruct Hg as [Hg|(ps & Hps)].
        -- destruct component; cbn in Hg; [right; eexists; by left|by left..].
        -- right. exists ps. by right.
      * intros p Hin. destruct (Hall p Hin) as [Hs|Hpc]; [|right; by right].
        destruct component as [|ownerid|]; cbn in Hs; [by left| |by left].
        apply elem_of_app in Hs as [|Hs]; [by left|].
        apply list_elem_of_singleton in Hs as ->. right. by left.
    + intros (_ & Hg & Hall).
      assert (evs <> []) as Hne.
      { intros ->. cbn in Hg, Hall. assert (false = true) as [=]. by apply Hnow. }
      split; [done|]. split.
      * destruct Hg as [Hg|(ps & Hps)].
        -- left. by destruct component.
        -- apply elem_of_cons in Hps as [<-|Hps]; [by left|]. right. by exists ps.
      * intros p Hin. destruct (Hall p Hin) as [Hs|Hpc].
        -- left. destruct component; cbn; [done| |done]. apply elem_of_app. by left.
        -- apply elem_of_cons in Hpc as [<-|Hpc]; [|by right]. left. cbn.
           apply elem_of_app. right. by apply list_elem_of_singleton.
Qed.

(** [awaitSpawns] with a client, while the library leaves the players of
    the room as they are: the promise resolves, with true, exactly when the
    game data and a player control of every player of the room are among
    the spawned components, in whatever order they come and whatever else
    is spawned between them; until then it stays pending, and it never
    rejects. *)
Theorem awaitSpawns_resolves (evs evs' : list ((SkeldjsClient -> SkeldjsClient) * Component))
    (st : St) (c : SkeldjsClient) :
  client (this st) = Some c ->
  Forall keeps_players evs ->
  Forall keeps_players evs' ->
  evs'.*2 ≡ₚ evs.*2 ->
  ((awaitSpawns evs st).1 = Val true <-> all_spawned (c_players c) evs.*2)
  /\ ((awaitSpawns evs st).1 = Val true \/ (awaitSpawns evs st).1 = Hang)
  /\ (awaitSpawns evs' st).1 = (awaitSpawns evs st).1.
Proof.
  intros Hc Hk Hk' Hperm.
  assert (forall l, Forall keeps_players l ->
            ((awaitSpawns l st).1 = Val true <-> all_spawned (c_players c) l.*2)
            /\ ((awaitSpawns l st).1 = Val true \/ (awaitSpawns l st).1 = Hang)) as Hone.
  { intros l Hl. unfold awaitSpawns. unfold bind, gets. rewrite Hc.
    destruct (awaitSpawns_events_run l (mkSpawnWait [] false) st c Hc Hl) as [H1 H2].
    split; [|done]. rewrite H1. unfold all_spawned. cbn. split.
    - intros (_ & [[=]|Hg] & Hall). split; [done|]. intros p Hin.
      destruct (Hall p Hin) as [H%elem_of_nil|H]; done.
    - intros [(ps & Hg) Hall]. split; [|split].
      + intros ->. by apply elem_of_nil in Hg.
      + right. by exists ps.
      + intros p Hin. right. by apply Hall. }
  destruct (Hone evs Hk) as [H1 H2]. destruct (Hone evs' Hk') as [H1' H2'].
  split; [done|]. split; [done|].
  assert (all_spawned (c_players c) evs'.*2 <-> all_spawned (c_players c) evs.*2) as Hsame.
  { unfold all_spawned. by setoid_rewrite Hperm. }
  destruct H2 as [E|E], H2' as [E'|E']; rewrite ?E, ?E'; try done.
  - apply H1, Hsame, H1' in E. congruence.
  - apply H1', Hsame, H1 in E'. congruence.
Qed.

Lemma awaitSpawns_resolves_witness :
  (awaitSpawns [(keep, PlayerControl 9); (keep, GameData [mkPlayerInfo "Red" 0]);
                (keep, OtherComponent "LobbyBehaviour"); (keep, PlayerControl 7)]
               (hosting_state [roundcar; red] [])).1 = Val true
  <-> all_spawned [roundcar; red]
        [PlayerControl 9; GameData [mkPlayerInfo "Red" 0]; OtherComponent "LobbyBehaviour";
         PlayerControl 7].
Proof.
  refine (proj1 (awaitSpawns_resolves
                   [(keep, PlayerControl 9); (keep, GameData [mkPlayerInfo "Red" 0]);
                    (keep, OtherComponent "LobbyBehaviour"); (keep, PlayerControl 7)]
                   [(keep, PlayerControl 9); (keep, GameData [mkPlayerInfo "Red" 0]);
                    (keep, OtherComponent "LobbyBehaviour"); (keep, PlayerControl 7)]
                   (hosting_state [roundcar; red] []) (hosting_client [roundcar; red])
                   eq_refl _ _ _)).
  - by repeat constructor.
  - by repeat constructor.
  - reflexivity.
Defined.

(** ** More handlers *)

(** [player.setimpostors] returns normally and touches nothing but the
    trace.  It emits one [PlayerFlags (name) IsImpostor true] for every
    impostor that comes with data, in the order of the list, and nothing
    else; it logs one warning for every impostor without data; it calls
    nothing. *)
Theorem setimpostors_handler (impostors : list (option PlayerData)) (st : St) :
  exists delta,
    on_setimpostors impostors st
      = (Val tt, mkSt (this st) (ents st) (arrs st) (next_oid st) (lib st) (script st)
                      (trace st ++ delta))
    /\ events_of delta
       = (fun d => PlayerFlags (pi_name d) PlayerFlag.IsImpostor true) <$> named_impostors impostors
    /\ length (logs_of LogMode.Warn delta)
       = (length impostors - length (named_impostors impostors))%nat
    /\ (length (named_impostors impostors) <= length impostors)%nat
    /\ calls_of delta = [].
Proof.
  unfold on_setimpostors. revert st. induction impostors as [|player l IH]; intros st.
  { exists []. rewrite app_nil_r. by destruct st. }
  assert (named_impostors (player :: l)
          = match player ≫= pd_data with
            | Some d => d :: named_impostors l
            | None => named_impostors l
            end) as -> by done.
  cbn [for_each]. unfold bind at 1. destruct (player ≫= pd_data) as [d|] eqn:Ed.
  - unfold bind at 1, log at 1, emitPlayerFlags at 1, tell at 1 2. cbv beta iota.
    set (o1 := Logged _ _). set (o2 := Emitted _).
    destruct (IH (observe o2 (observe o1 st))) as (delta & -> & He & Hw & Hl & Hc).
    exists (o1 :: o2 :: delta). split; [by trace_norm|].
    change (o1 :: o2 :: delta) with ([o1; o2] ++ delta).
    rewrite events_of_app, calls_of_app, logs_of_app, He, Hc. cbn [length app fmap list_fmap].
    split_and!; try done; cbn -[Nat.sub]; lia.
  - unfold log at 1, tell at 1. cbv beta iota. set (o1 := Logged _ _).
    destruct (IH (observe o1 st)) as (delta & -> & He & Hw & Hl & Hc).
    exists (o1 :: delta). split; [by trace_norm|].
    change (o1 :: delta) with ([o1] ++ delta).
    assert (length (logs_of LogMode.Warn [o1]) = 1%nat) as Ho by by vm_compute.
    rewrite events_of_app, calls_of_app, logs_of_app, length_app, Ho, He, Hc.
    cbn [length app fmap list_fmap]. split_and!; try done; lia.
Qed.

(** [gamedata.removeplayer] without a client does nothing.  With a client
    and the data of the removed player it emits [PlayerColor (name) (-1)],
    whether or not the client still knows the player.  With a client and
    without data it throws a TypeError: the test of [playerData] comes
    after the first use. *)
Theorem removeplayer_handler (getPlayerByPlayerId : SkeldjsClient -> Z -> option PlayerData)
    (playerData : option GameDataPlayer) (st : St) :
  match client (this st), playerData with
  | None, _ => on_removeplayer getPlayerByPlayerId playerData st = (Val tt, st)
  | Some c, None =>
      on_removeplayer getPlayerByPlayerId playerData st
      = (Exn "Cannot read properties of undefined", st)
  | Some c, Some pd =>
      exists delta,
        on_removeplayer getPlayerByPlayerId playerData st
        = (Val tt, mkSt (this st) (ents st) (arrs st) (next_oid st) (lib st) (script st)
                        (trace st ++ delta))
        /\ events_of delta = [PlayerColor (gp_name pd) (-1)]
        /\ calls_of delta = []
  end.
Proof.
  unfold on_removeplayer. mrun.
  destruct (client (this st)) as [c|], playerData as [pd|]; mrun; try done.
  eexists. split; [by rewrite <- app_assoc|done].
Qed.

(** ** initialize *)

(** [initialize] reports a failure to find endpoints once, fatally, and
    stops before any call: for a region that the table of matchmakers does
    not know, and for a lookup that is rejected.  It returns normally; the
    backend is not marked destroyed (the flag is reset at entry), the
    client, the endpoints and the replies of the world are untouched. *)
Theorem initialize_unresolved (region : string) (names : option (list string))
    (regions : gmap string (list Endpoint)) (dns : list DnsReply) (draw : nat -> nat)
    (st : St) :
  match names with
  | None => True
  | Some names => exists e, (resolveMMDNS region names regions dns).1.1 = Exn e
  end ->
  exists delta msg,
    initialize region names regions dns draw st
    = (Val false, mkSt (set_destroyed false (this st)) (ents st) (arrs st) (next_oid st)
                       (lib st) (script st) (trace st ++ delta))
    /\ events_of delta = [ErrorEvent msg true]
    /\ calls_of delta = []
    /\ msg = (if names is Some _ then unresolved_message else invalid_region_message region).
Proof.
  intros H. unfold initialize, initialize_body. destruct names as [names|].
  - destruct H as [e He]. unfold await_resolve. rewrite He.
    eexists _, _. split; [mrun; by rewrite <- !app_assoc|done].
  - eexists _, _. split; [mrun; by rewrite <- !app_assoc|done].
Qed.

Lemma initialize_unresolved_witness :
  exists delta msg,
    initialize "NA" (Some ["na.mm.among.us"]) ∅ [Rejected "ENOTFOUND"] (fun _ => 0%nat)
               destroyed_state
    = (Val false, mkSt (set_destroyed false (this destroyed_state)) (ents destroyed_state)
                       (arrs destroyed_state) (next_oid destroyed_state) (lib destroyed_state)
                       (script destroyed_state) (trace destroyed_state ++ delta))
    /\ events_of delta = [ErrorEvent msg true]
    /\ calls_of delta = []
    /\ msg = unresolved_message.
Proof.
  apply (initialize_unresolved "NA" (Some ["na.mm.among.us"]) ∅ [Rejected "ENOTFOUND"]
           (fun _ => 0%nat) destroyed_state).
  by exists "ENOTFOUND".
Defined.
Lemma tryGetAuthToken_fuel_undefined fuel st :
  exists delta,
    tryGetAuthToken_fuel (S fuel) None (5 - Z.of_nat (S fuel)) st
    = (Val 0, mkSt (this st) (ents st) (arrs st) (next_oid st) (lib st) (script st)
                   (trace st ++ delta))
    /\ Forall is_logged delta.
Proof.
  revert st. induction fuel as [|fuel IH]; intros st.
  - rewrite tryGetAuthToken_fuel_S. unfold try_catch, getAuthToken, throw.
    change (5 - Z.of_nat 1 + 1) with 5. change (5 - 5 =? 0) with true. cbn [negb].
    eexists. split; [mrun; by rewrite <- app_assoc|]. by repeat constructor.
  - rewrite tryGetAuthToken_fuel_S. unfold try_catch, getAuthToken, throw.
    replace (5 - Z.of_nat (S (S fuel)) + 1) with (5 - Z.of_nat (S fuel)) by lia.
    replace (5 - (5 - Z.of_nat (S fuel)) =? 0) with false by (symmetry; apply Z.eqb_neq; lia).
    cbn [negb]. unfold bind at 1, log at 1, tell at 1.
    destruct (IH (observe (Logged LogMode.Error
       ("Failed to get authorisation token, trying " ++ pretty (5 - (5 - Z.of_nat (S fuel)))
        ++ " more times. " ++ error_text "Cannot read properties of undefined")) st))
      as (delta & -> & Hd).
    eexists (_ :: delta). split; [by trace_norm|]. by constructor.
Qed.

Lemma logged_silent delta : Forall is_logged delta -> events_of delta = [] /\ calls_of delta = [].
Proof. induction 1 as [|[] d Ho _ [IH1 IH2]]; done. Qed.

(** [initialize] of a backend without a client, when the lookups find no
    address at all: the token is not asked for (there is no endpoint to
    ask), [doJoin] creates a client and throws on the missing endpoint,
    and the outer [catch] turns that into the one report to the consumer,
    the unknown-error message with [fatal = true], and destroys the
    backend.  [initialize] returns normally; nothing was sent. *)
Theorem initialize_without_endpoints (region : string) (names : list string)
    (regions : gmap string (list Endpoint)) (dns : list DnsReply) (draw : nat -> nat)
    (st : St) :
  (resolveMMDNS region names regions dns).1.1 = Val [] ->
  client (this st) = None ->
  exists st' delta,
    initialize region (Some names) regions dns draw st = (Val false, st')
    /\ destroyed (this st') = true
    /\ master (this st') = []
    /\ authToken (this st') = 0
    /\ trace st' = trace st ++ delta
    /\ events_of delta = [ErrorEvent unknown_error_message true]
    /\ calls_of delta = [NewClient (next_oid st)]
    /\ script st' = script st.
Proof.
  intros Hres Hc. unfold initialize. unfold bind at 1, modify at 1.
  set (st0 := on_this (set_destroyed false) st).
  unfold try_catch, initialize_body. unfold bind at 1, log at 1, tell at 1.
  set (o1 := Logged _ _). unfold bind at 1, try_catch at 1, bind at 1, await_resolve.
  rewrite Hres. unfold ret at 1. unfold bind at 1, modify at 1. unfold ret at 1. cbn [negb].
  unfold bind at 1, modify at 1. unfold bind at 1, log at 1, tell at 1. set (o2 := Logged _ _).
  unfold bind at 1, gets at 1. cbn [this observe on_this set_server set_master master server].
  rewrite lookup_nil.
  unfold bind at 1.
  match goal with |- context [tryGetAuthToken None ?s] => set (st1 := s) end.
  destruct (tryGetAuthToken_fuel_undefined 4 st1) as (dtok & Htok & Hlogged).
  change (tryGetAuthToken_fuel 5 None (5 - Z.of_nat 5)) with (tryGetAuthToken None) in Htok.
  apply logged_silent in Hlogged as [Hev Hcl]. rewrite Htok.
  unfold bind at 1, modify at 1. unfold bind at 1, log at 1, tell at 1. set (o3 := Logged _ _).
  unfold bind at 1.
  match goal with |- context [doJoin 5 0 ?s] => set (st2 := s) end.
  destruct (doJoin_no_endpoint_run 5 0 st2) as (st3 & Hjoin & _ & Htr3 & Hs3 & Ht3);
    [done|lia|done|].
  rewrite Hjoin.
  assert (client (this st2) = None) as Hc2 by done. rewrite Hc2 in Htr3, Ht3.
  unfold destroy. mrun. rewrite Ht3. mrun.
  eexists _, (o1 :: o2 :: dtok ++ o3 :: Called (NewClient (next_oid st)) :: _).
  split; [reflexivity|]. cbn [this destroyed master authToken trace script].
  split; [done|]. split; [reflexivity|]. split; [reflexivity|].
  split.
  { rewrite Htr3. cbv [st2 st1 st0 observe on_this]. cbn [trace next_oid].
    repeat rewrite <- app_assoc. cbn [app]. reflexivity. }
  change (o1 :: o2 :: dtok ++ ?l) with ([o1; o2] ++ dtok ++ l).
  rewrite !events_of_app, !calls_of_app, Hev, Hcl. split; [done|]. split; [done|].
  by rewrite Hs3.
Qed.

Lemma initialize_without_endpoints_witness :
  exists st' delta,
    initialize "NA" (Some []) ∅ [] (fun _ => 0%nat) (constructed "ABCDEF" [])
    = (Val false, st')
    /\ destroyed (this st') = true
    /\ master (this st') = []
    /\ authToken (this st') = 0
    /\ trace st' = trace (constructed "ABCDEF" []) ++ delta
    /\ events_of delta = [ErrorEvent unknown_error_message true]
    /\ calls_of delta = [NewClient (next_oid (constructed "ABCDEF" []))]
    /\ script st' = script (constructed "ABCDEF" []).
Proof. by apply (initialize_without_endpoints "NA" [] ∅ [] (fun _ => 0%nat)). Defined.

Lemma destroy_throws st e st' :
  destroy st = (Exn e, st') ->
  destroyed (this st') = false
  /\ is_Some (client (this st'))
  /\ trace st' = trace st ++ [Called (RemoveListeners "client.disconnect"); Called Disconnect].
Proof.
  unfold destroy. mrun. destruct (destroyed (this st)) eqn:Hd; mrun; [done|].
  destruct (client (this st)) as [c|] eqn:Hc; mrun; [destruct (c_socket c); mrun|]; try done.
  unfold await, settle, pop_reply, lib_update. mrun.
  destruct (script st) as [|[] rest]; mrun; try done.
  rewrite Hc. intros [= <- <-]. cbn. rewrite Hd. split; [done|]. split; [done|].
  by rewrite <- app_assoc.
Qed.

(** [initialize] rejects in one way only.  Whatever is thrown inside it is
    caught, logged and reported as the unknown error with [fatal = true],
    and the backend is destroyed; only when that destruction throws, which
    is when the disconnect of a client with a socket throws, does the
    promise of [initialize] reject, after the report, and the backend is
    then not marked destroyed and keeps its client. *)
Theorem initialize_rejects_in_destroy (region : string) (names : option (list string))
    (regions : gmap string (list Endpoint)) (dns : list DnsReply) (draw : nat -> nat)
    (st st' : St) (e : string) :
  initialize region names regions dns draw st = (Exn e, st') ->
  destroyed (this st') = false
  /\ is_Some (client (this st'))
  /\ exists before cause,
       trace st'
       = before ++ [Logged LogMode.Error "An error occurred.";
                    Logged LogMode.Error (error_toString cause);
                    Emitted (ErrorEvent unknown_error_message true);
                    Called (RemoveListeners "client.disconnect"); Called Disconnect].
Proof.
  unfold initialize. unfold bind at 1, modify at 1. intros H.
  apply try_catch_inv in H as [(a & _ & [=])|[(cause & st1 & _ & Hh)|[_ [=]]]].
  revert Hh. unfold bind at 1, log at 1, tell at 1. unfold bind at 1, log at 1, tell at 1.
  unfold bind at 1, emitError at 1, tell at 1. intros Hh.
  apply bind_inv in Hh as [([] & st2 & _ & [=])|[(e' & Hd & _)|[_ [=]]]].
  apply destroy_throws in Hd as (H1 & H2 & H3). split; [done|]. split; [done|].
  exists (trace st1), cause. rewrite H3. by trace_norm.
Qed.

Lemma initialize_rejects_in_destroy_witness :
  (initialize "NA" (Some ["na.mm.among.us"]) ∅ [Resolved [mkLookupAddress "10.0.0.1" 4]]
              (fun _ => 0%nat) no_player_object).1 = Exn "socket closed"
  /\ destroyed (this (initialize "NA" (Some ["na.mm.among.us"]) ∅
                                 [Resolved [mkLookupAddress "10.0.0.1" 4]]
                                 (fun _ => 0%nat) no_player_object).2) = false.
Proof.
  split; [by vm_compute|].
  eapply (initialize_rejects_in_destroy "NA" (Some ["na.mm.among.us"]) ∅
            [Resolved [mkLookupAddress "10.0.0.1" 4]] (fun _ => 0%nat) no_player_object).
  by vm_compute.
Defined.

(** ** The endpoint under the index *)

Section endpoint.
Context (ms : list Endpoint).

Lemma keeps_bind {A B} (m : M A) (k : A -> M B) :
  keeps_endpoint ms m -> (forall a, keeps_endpoint ms (k a)) -> keeps_endpoint ms (bind m k).
Proof.
  intros Hm Hk st Hst. unfold bind. specialize (Hm st Hst).
  destruct (m st) as [[a| |] st1]; try done. by apply Hk.
Qed.

Lemma keeps_try_catch {A} (m : M A) (h : string -> M A) :
  keeps_endpoint ms m -> (forall e, keeps_endpoint ms (h e)) -> keeps_endpoint ms (try_catch m h).
Proof.
  intros Hm Hh st Hst. unfold try_catch. specialize (Hm st Hst).
  destruct (m st) as [[a|e|] st1]; try done. by apply Hh.
Qed.

Lemma keeps_ran {A} P (m : M A) : ran P m -> keeps_endpoint ms m.
Proof.
  intros Hm st [H1 H2]. destruct (Hm st) as [_ F1 F2 _ _ _ _ _ _].
  split; [by rewrite F1|by rewrite F2].
Qed.

Lemma keeps_rotate_server : keeps_endpoint ms rotate_server.
Proof.
  intros st [H1 H2]. unfold endpoint_ok, rotate_server, modify. cbn. split; [done|].
  rewrite H1. apply Nat.mod_upper_bound. lia.
Qed.

Lemma keeps_new_client : keeps_endpoint ms new_client.
Proof. by intros st H. Qed.

Lemma keeps_do_reattach players components g : keeps_endpoint ms (do_reattach players components g).
Proof.
  intros st H. unfold do_reattach. cbn.
  assert (forall s, master (this (reattach players components g s)) = master (this s)
                    /\ server (this (reattach players components g s)) = server (this s)) as Hr.
  { intros s. unfold reattach.
    assert (forall (l : list nat) s0,
              master (this (foldl (fun st i => attach_global g i st) s0 l)) = master (this s0)
              /\ server (this (foldl (fun st i => attach_global g i st) s0 l)) = server (this s0))
      as Hg.
    { induction l as [|i l IH]; intros s0; [done|]. cbn [foldl].
      destruct (IH (attach_global g i s0)) as [-> ->]. unfold attach_global.
      by destruct (array_at g s0 !! i) as [[r|]|], (client (this s0)). }
    destruct (Hg (seq 0 (length (array_at g (map_fold attach_netobject
                 (map_fold attach_object s players) components))))
                 (map_fold attach_netobject (map_fold attach_object s players) components))
      as [-> ->].
    assert (forall (f : Z -> option nat -> St -> St) (cache : gmap Z (option nat)) s0,
              (forall id o s1, master (this (f id o s1)) = master (this s1)
                               /\ server (this (f id o s1)) = server (this s1)) ->
              master (this (map_fold f s0 cache)) = master (this s0)
              /\ server (this (map_fold f s0 cache)) = server (this s0)) as Hm.
    { intros f cache s0 Hf.
      apply (map_fold_weak_ind (fun r _ => master (this r) = master (this s0)
                                          /\ server (this r) = server (this s0))); [done|].
      intros id o m r _ [IH1 IH2]. destruct (Hf id o r) as [-> ->]. done. }
    destruct (Hm attach_netobject components (map_fold attach_object s players)) as [-> ->].
    { intros id o s1. unfold attach_netobject. by destruct o, (client (this s1)). }
    apply Hm. intros id o s1. unfold attach_object. by destruct o, (client (this s1)). }
  destruct H as [H1 H2]. destruct (Hr st) as [E1 E2]. split; [by rewrite E1|by rewrite E2].
Qed.

Lemma keeps_modify (f : Backend -> Backend) :
  (forall b, master (f b) = master b /\ server (f b) = server b) ->
  keeps_endpoint ms (modify f).
Proof.
  intros Hf st [H1 H2]. unfold endpoint_ok, modify. cbn. destruct (Hf (this st)) as [-> ->].
  done.
Qed.

Lemma keeps_any {A} (m : M A) : ran any m -> keeps_endpoint ms m.
Proof. apply keeps_ran. Qed.

End endpoint.

Ltac keeps_leaf :=
  solve [ apply keeps_any;
          first [ apply ran_any_client_await
                | apply ran_any_initialSpawn_connect
                | by apply ran_initialSpawn_join
                | by apply ran_initialSpawn_warmup
                | by apply ran_disconnect
                | by apply ran_array_length
                | by ran_auto ] ].

Ltac keeps_step :=
  lazymatch goal with
  | |- keeps_endpoint _ (bind _ _) => apply keeps_bind; [|intros ?]
  | |- keeps_endpoint _ (try_catch _ _) => apply keeps_try_catch; [|intros ?]
  | |- keeps_endpoint _ rotate_server => apply keeps_rotate_server
  | |- keeps_endpoint _ new_client => apply keeps_new_client
  | |- keeps_endpoint _ (do_reattach _ _ _) => apply keeps_do_reattach
  | |- keeps_endpoint _ (modify _) => apply keeps_modify; done
  | |- keeps_endpoint _ (when ?b _) => destruct b; cbn [when]
  | |- keeps_endpoint _ (match ?x with _ => _ end) => destruct x
  | |- keeps_endpoint _ (let '(_, _) := ?x in _) => destruct x
  end.

Ltac keeps_auto := repeat keeps_step; try keeps_leaf.

Lemma keeps_destroy ms : keeps_endpoint ms destroy.
Proof. unfold destroy. keeps_auto. Qed.

Lemma keeps_doJoin_replace ms : keeps_endpoint ms doJoin_replace.
Proof. unfold doJoin_replace. keeps_auto; apply keeps_destroy. Qed.

Lemma keeps_doJoin_rejoin ms max a : keeps_endpoint ms (doJoin_rejoin max a).
Proof.
  unfold doJoin_rejoin, current_endpoint. keeps_auto; apply keeps_doJoin_replace.
Qed.

Lemma keeps_initialSpawn ms : keeps_endpoint ms (initialSpawn false).
Proof. unfold initialSpawn, current_endpoint. keeps_auto. Qed.

Lemma keeps_doJoin_round ms max a : keeps_endpoint ms (doJoin_round max a).
Proof.
  unfold doJoin_round, doJoin_round_with.
  apply keeps_bind; [keeps_leaf|]. intros d. destruct d; [keeps_leaf|].
  destruct (a >=? max) eqn:E; [keeps_auto|].
  unfold doJoin_warmup_with. rewrite E.
  keeps_auto; first [apply keeps_doJoin_rejoin | apply keeps_initialSpawn].
Qed.

Lemma keeps_doJoin_fuel ms fuel max a : keeps_endpoint ms (doJoin_fuel fuel max a).
Proof.
  revert a. induction fuel as [|fuel IH]; intros a; [by intros st H|].
  rewrite doJoin_fuel_S. apply keeps_bind; [apply keeps_doJoin_round|].
  intros [b|a'|a'|a']; [keeps_leaf|apply IH..].
Qed.

(** The index of the current endpoint stays inside the endpoint list
    through [doJoin], however [doJoin] ends: when the index addresses an
    endpoint at the call, the list is the same afterwards and the index
    still addresses one of its entries; every rotation wraps around at the
    end of the list. *)
Theorem doJoin_keeps_the_endpoint_index (max attempt : Z) (st : St) :
  (server (this st) < length (master (this st)))%nat ->
  let st' := (doJoin max attempt st).2 in
  master (this st') = master (this st)
  /\ (server (this st') < length (master (this st')))%nat
  /\ is_Some (master (this st') !! server (this st')).
Proof.
  intros H.
  destruct (keeps_doJoin_fuel (master (this st)) (S (Z.to_nat (max - attempt))) max attempt st)
    as [H1 H2]; [done|].
  fold (doJoin max attempt) in H1, H2. cbn zeta. rewrite H1. split; [done|]. split; [done|].
  by apply lookup_lt_is_Some_2.
Qed.

Lemma doJoin_keeps_the_endpoint_index_witness :
  let st' := (doJoin 5 0 five_timeouts).2 in
  master (this st') = master (this five_timeouts)
  /\ (server (this st') < length (master (this st')))%nat
  /\ is_Some (master (this st') !! server (this st')).
Proof. apply doJoin_keeps_the_endpoint_index. cbn. lia. Defined.

(** ** The settings of a warm-up *)



Section same_settings.











End same_settings.



Section phases.
Context (st0 : St).





End phases.










(** * The web client *)

Section webui_rules.
Import Webui.
Context {Pose : Type} (map : Z) (getClosestCamera : Pose -> Z -> option Pose)
        (poseCollide : Z -> Pose -> Pose -> bool) (CommsSabotaged : Z).


End webui_rules.


Section webui_lists.
Import Webui.
Context {Pose : Type}.

Lemma update_first_spec {A} (pred : A -> bool) (f : A -> A) (l : list A) :
  match find_first pred l with
  | None => update_first pred f l = l
  | Some x =>
      exists pre post,
        l = pre ++ x :: post
        /\ Forall (fun y => pred y = false) pre
        /\ pred x = true
        /\ update_first pred f l = pre ++ f x :: post
  end.
Proof.
  unfold find_first. induction l as [|y l IH]; [done|]. cbn.
  destruct (pred y) eqn:Hy; [by exists [], l|].
  destruct (List.find pred l) as [x|].
  - destruct IH as (pre & post & -> & Hpre & Hx & ->). exists (y :: pre), post.
    split_and!; try done. by constructor.
  - by rewrite IH.
Qed.

Lemma update_first_fmap {A B} (g : A -> B) (pred : A -> bool) (f : A -> A) (l : list A) :
  (forall x, g (f x) = g x) -> g <$> update_first pred f l = g <$> l.
Proof.
  intros Hf. induction l as [|y l IH]; [done|]. cbn. destruct (pred y); cbn.
  - by rewrite Hf.
  - by rewrite IH.
Qed.

End webui_lists.

Section webui_handlers.
Import Webui.
Context {Pose : Type} (map : Z) (getClosestCamera : Pose -> Z -> option Pose)
        (poseCollide : Z -> Pose -> Pose -> bool) (CommsSabotaged : Z).

Lemma recalc_uuid (st : State) (s : Stream) :
  s_uuid (recalcVolumeForRemoteStream map getClosestCamera poseCollide CommsSabotaged st s)
  = s_uuid s.
Proof.
  unfold recalcVolumeForRemoteStream, setGainAndPan.
  repeat match goal with
         | |- context [match ?x with _ => _ end] => destruct x
         end; done.
Qed.

(** The handlers of the component that change volumes keep the list of
    remote streams as it is: no stream is added, dropped or moved, whatever
    the payload.  After [onSetGameState] for the state [Game], which
    recomputes every stream, a living listener hears no player that the
    store knows to be dead.  [onSetGameState] for the state [Meeting] does
    not look at the players: unless the communications are sabotaged and
    the option for meetings is on, it opens every stream fully, those of
    dead players too. *)
Theorem volume_handlers_keep_streams (st : State) (u : string) (f : Z) (gs : GameState)
    (streams : list Stream) :
  s_uuid <$> onSetFlagsOf st u f streams = s_uuid <$> streams
  /\ s_uuid <$> onSetGameFlags map getClosestCamera poseCollide CommsSabotaged st f streams
     = s_uuid <$> streams
  /\ s_uuid <$> onSetGameState map getClosestCamera poseCollide CommsSabotaged st gs streams
     = s_uuid <$> streams
  /\ s_uuid <$> onSetPositionOf map getClosestCamera poseCollide CommsSabotaged st u streams
     = s_uuid <$> streams
  /\ (has IsDead (flags (me st)) = false ->
      forall s c,
        s ∈ onSetGameState map getClosestCamera poseCollide CommsSabotaged st Game streams ->
        find_first (fun c => String.eqb (uuid c) (s_uuid s)) (clients st) = Some c ->
        has IsDead (flags c) = true ->
        s_gain s = Zero)
  /\ (has CommsSabotaged (gameFlags st) && meetingsCommsSabotage (options st) = false ->
      Forall (fun s => s_gain s = One /\ s_pan s = Centre)
             (onSetGameState map getClosestCamera poseCollide CommsSabotaged st Meeting streams)).
Proof.
  assert (forall g : @Stream Pose -> @Stream Pose, (forall s, s_uuid (g s) = s_uuid s) ->
            s_uuid <$> (g <$> streams) = s_uuid <$> streams) as Hmap.
  { intros g Hg. rewrite <- list_fmap_compose. apply list_fmap_ext. intros _ s _. apply Hg. }
  split_and!.
  - unfold onSetFlagsOf.
    destruct (has IsDead f); [|done]. destruct (String.eqb u _).
    + apply Hmap. intros s. by destruct (omniscientGhosts st).
    + destruct (negb _); [|done]. by apply update_first_fmap.
  - unfold onSetGameFlags. destruct (negb _); [|done].
    destruct (has CommsSabotaged f).
    + destruct (negb _); [|done]. by apply Hmap.
    + apply Hmap, recalc_uuid.
  - unfold onSetGameState. destruct gs; [done|apply Hmap, recalc_uuid|].
    destruct (_ && _); by apply Hmap.
  - unfold onSetPositionOf. destruct (negb _); [|done]. destruct (String.eqb _ u).
    + apply Hmap, recalc_uuid.
    + apply update_first_fmap, recalc_uuid.
  - intros Hme s c Hs Hc Hdead. cbn in Hs. apply list_elem_of_fmap in Hs as (s0 & -> & _).
    rewrite recalc_uuid in Hc.
    unfold recalcVolumeForRemoteStream. by rewrite Hc, Hdead, Hme.
  - intros H. cbn. rewrite H. apply Forall_fmap, Forall_forall. by intros.
Qed.

End webui_handlers.

Lemma volume_handlers_keep_streams_witness :
  Forall (fun s => Webui.s_gain s = Webui.One /\ Webui.s_pan s = Webui.Centre)
         (Webui.onSetGameState 0 (fun (_ : Z * Z) _ => None) (fun _ _ _ => false) 1
            (Webui.mkState (Webui.mkClientModel "me" "Roundcar" (0, 0) 1 0 None)
                           [Webui.mkClientModel "a" "Red" (1, 1) 0 3 None]
                           (Webui.mkHostOptions false false true true true) false Webui.Game 0)
            Webui.Meeting [Webui.mkStream "a" Webui.Zero Webui.Centre]).
Proof.
  refine (proj2 (proj2 (proj2 (proj2 (proj2
    (volume_handlers_keep_streams 0 (fun (_ : Z * Z) _ => None) (fun _ _ _ => false) 1
       (Webui.mkState (Webui.mkClientModel "me" "Roundcar" (0, 0) 1 0 None)
                      [Webui.mkClientModel "a" "Red" (1, 1) 0 3 None]
                      (Webui.mkHostOptions false false true true true) false Webui.Game 0)
       "a" 0 Webui.Meeting [Webui.mkStream "a" Webui.Zero Webui.Centre]))))) eq_refl).
Defined.

Section webui_store.
Import Webui.
Context {Pose : Type}.

(** The mutations that set a field of another player change one client
    model at most: the first of the list with the uuid of the payload.
    The models before it, which have other uuids, and all models after it,
    also those with the same uuid, stay as they are; without a model of
    that uuid the list is unchanged.  The list keeps its length and its
    uuids. *)
Theorem set_field_of_first (f : @ClientModel Pose -> @ClientModel Pose) (u : string)
    (cs : list ClientModel) :
  (forall c, uuid (f c) = uuid c) ->
  uuid <$> set_field_of f u cs = uuid <$> cs
  /\ match find_first (fun c => String.eqb (uuid c) u) cs with
     | None => set_field_of f u cs = cs /\ Forall (fun c => uuid c <> u) cs
     | Some c =>
         exists pre post,
           cs = pre ++ c :: post
           /\ Forall (fun c => uuid c <> u) pre
           /\ uuid c = u
           /\ set_field_of f u cs = pre ++ f c :: post
     end.
Proof.
  intros Hf. split; [by apply update_first_fmap|].
  unfold set_field_of.
  pose proof (update_first_spec (fun c : ClientModel => String.eqb (uuid c) u) f cs) as H.
  destruct (find_first _ cs) as [c|] eqn:E.
  - destruct H as (pre & post & -> & Hpre & Hc & ->). exists pre, post.
    split_and!; try done.
    + eapply Forall_impl; [exact Hpre|]. intros x Hx. by apply String.eqb_neq.
    + by apply String.eqb_eq.
  - split; [done|]. apply Forall_forall. intros x Hx Hu.
    unfold find_first in E. apply list_elem_of_In in Hx.
    apply (List.find_none _ _ E) in Hx. cbn in Hx. apply String.eqb_neq in Hx. done.
Qed.

(** [removeClient] leaves no model with the uuid of the payload and keeps
    the others in their order; it does nothing to a list without that
    uuid, so it is idempotent, and it undoes an [addClient] of a model
    whose uuid was not in the list. *)
Theorem removeClient_spec (u : string) (c : @ClientModel Pose) (st : State) :
  Forall (fun c => uuid c <> u) (clients (removeClient u st))
  /\ (forall x, x ∈ clients (removeClient u st) <-> x ∈ clients st /\ uuid x <> u)
  /\ removeClient u (removeClient u st) = removeClient u st
  /\ (Forall (fun c => uuid c <> u) (clients st) -> uuid c = u ->
      removeClient u (addClient c st) = st).
Proof.
  assert (forall l : list (@ClientModel Pose), Forall (fun c => uuid c <> u) l ->
            List.filter (fun c => negb (String.eqb (uuid c) u)) l = l) as Hid.
  { induction 1 as [|x l Hx _ IH]; [done|]. cbn.
    apply String.eqb_neq in Hx. by rewrite Hx, IH. }
  assert (Forall (fun c => uuid c <> u) (clients (removeClient u st))) as Hall.
  { apply Forall_forall. intros x Hx. cbn in Hx.
    apply list_elem_of_In, filter_In in Hx as [_ Hx]. apply String.eqb_neq.
    by destruct (String.eqb (uuid x) u). }
  split_and!.
  - done.
  - intros x. cbn. rewrite list_elem_of_In, filter_In, <- list_elem_of_In.
    split; intros [H1 H2]; (split; [done|]).
    + apply String.eqb_neq. by destruct (String.eqb (uuid x) u).
    + apply String.eqb_neq in H2. by rewrite H2.
  - unfold removeClient at 1. rewrite (Hid _ Hall). by destruct st.
  - intros Hst Hc. unfold removeClient, addClient. cbn.
    rewrite List.filter_app, (Hid _ Hst). cbn. apply String.eqb_eq in Hc. rewrite Hc. cbn.
    rewrite app_nil_r. by destruct st.
Qed.

(** The action for [SetVentOf] loses the vent of another player: it
    commits a payload that has no [ventid], so the first model with the
    uuid ends up with an undefined vent, whatever the server sent, and the
    result does not depend on the vent id at all; the sibling actions for
    the colour and the flags store what was sent.  For the player of the
    client itself the vent id is stored. *)
Theorem socket_SetVentOf_drops_the_vent (u : string) (v v' : Z) (st : @State Pose) :
  if String.eqb u (uuid (me st)) then
    ventid (me (socket_SetVentOf u v st)) = Some v
    /\ clients (socket_SetVentOf u v st) = clients st
  else
    socket_SetVentOf u v st = socket_SetVentOf u v' st
    /\ me (socket_SetVentOf u v st) = me st
    /\ find_first (fun c => String.eqb (uuid c) u) (clients (socket_SetVentOf u v st))
       = with_ventid None <$> find_first (fun c => String.eqb (uuid c) u) (clients st)
    /\ find_first (fun c => String.eqb (uuid c) u) (clients (socket_SetColorOf u v st))
       = with_color v <$> find_first (fun c => String.eqb (uuid c) u) (clients st)
    /\ find_first (fun c => String.eqb (uuid c) u) (clients (socket_SetFlagsOf u v st))
       = with_flags v <$> find_first (fun c => String.eqb (uuid c) u) (clients st).
Proof.
  unfold socket_SetVentOf, socket_SetColorOf, socket_SetFlagsOf.
  destruct (String.eqb u (uuid (me st))); [done|].
  split; [done|]. split; [done|]. cbn. unfold set_field_of, find_first.
  split_and!; induction (clients st) as [|c cs IH]; try done; cbn;
    destruct (String.eqb (uuid c) u) eqn:E; cbn; by rewrite E.
Qed.

End webui_store.

Lemma set_field_of_first_witness :
  Webui.set_field_of (Webui.with_color 3) "a"
    [Webui.mkClientModel "b" "Blue" (0, 0) 1 0 None; Webui.mkClientModel "a" "Red" (1, 1) 0 0 None;
     Webui.mkClientModel "a" "Red" (2, 2) 0 0 None]
  = [Webui.mkClientModel "b" "Blue" (0, 0) 1 0 None; Webui.mkClientModel "a" "Red" (1, 1) 3 0 None;
     Webui.mkClientModel "a" "Red" (2, 2) 0 0 None]
  /\ Webui.uuid <$> Webui.set_field_of (Webui.with_color 3) "a"
       [Webui.mkClientModel "b" "Blue" (0, 0) 1 0 None;
        Webui.mkClientModel "a" "Red" (1, 1) 0 0 None;
        Webui.mkClientModel "a" "Red" (2, 2) 0 0 None]
     = ["b"; "a"; "a"].
Proof.
  split; [reflexivity|].
  exact (proj1 (set_field_of_first (Webui.with_color 3) "a"
                  [Webui.mkClientModel "b" "Blue" (0, 0) 1 0 None;
                   Webui.mkClientModel "a" "Red" (1, 1) 0 0 None;
                   Webui.mkClientModel "a" "Red" (2, 2) 0 0 None] (fun c => eq_refl))).
Defined.

(** ** joinGame *)

(** [joinGame] is plumbing: however it ends, it has emitted nothing, it
    has created no client and opened no connection attempt of [doJoin]'s
    kind, and it has left the destroyed flag, the endpoint list, the index
    and the game code as they were; a client that was there is still
    there, caches that were set are still set, and it has only consumed
    replies. *)
Theorem joinGame_is_plumbing (code : RoomID) (doSpawn : bool) (st : St) :
  let st' := (joinGame code doSpawn st).2 in
  exists delta,
    trace st' = trace st ++ delta
    /\ events_of delta = []
    /\ Forall quiet delta
    /\ destroyed (this st') = destroyed (this st)
    /\ master (this st') = master (this st)
    /\ server (this st') = server (this st)
    /\ gameCode (this st') = gameCode (this st)
    /\ (is_Some (client (this st')) <-> is_Some (client (this st)))
    /\ (cached (this st) = true -> cached (this st') = true)
    /\ (length (script st') <= length (script st))%nat.
Proof.
  assert (ran quiet (joinGame code doSpawn)) as H by (by apply ran_joinGame).
  destruct (H st) as [F1 F2 F3 F4 F5 F6 F7 F8 (d & Hd & Hq)].
  exists d. split_and!; try done.
  clear -Hq. induction Hq as [|o d Ho _ IH]; [done|]. by destruct o.
Qed.

Lemma tryGetAuthToken_first_try ip port t tok rest st :
  t < 2000 ->
  script st = Helper (ProcToken t tok) :: rest ->
  tryGetAuthToken (Some (ip, port)) st
  = (Val tok, mkSt (this st) (ents st) (arrs st) (next_oid st) (lib st) rest
                   (trace st ++ [Called (GetAuthTokenProc ip (pretty (port + 2)))])).
Proof.
  intros Ht Hs. unfold tryGetAuthToken. rewrite tryGetAuthToken_fuel_S.
  unfold try_catch, getAuthToken, pop_reply. mrun. rewrite Hs. mrun.
  unfold settle_token, token_timeout. apply Z.ltb_lt in Ht. by rewrite Ht.
Qed.

(** One handshake up to the payload. *)
Lemma joinGame_payload fuel code doSpawn st c u1 u2 p rest :
  client (this st) = Some c ->
  c_identified c = true ->
  c_me c && negb (bool_decide (c_code c = Some code)) = false ->
  script st = Settles u1 :: Delivers p u2 :: rest ->
  let c2 := joined_client c u1 u2 in
  let st2 := after_payload st c2 code rest in
  joinGame_fuel (S fuel) (RoomInt code) doSpawn st
  = match p with
    | JoinGameError reason =>
        (let* l := get_lib in throw (join_error_message l reason)) st2
    | Redirect ip port =>
        (client_await Disconnect;;
         let* tok := tryGetAuthToken (Some (ip, port)) in
         modify (set_authToken tok);;
         client_await (Connect ip (Some (c_username c2)) (Some tok) port);;
         joinGame_fuel fuel (RoomInt code) doSpawn) st2
    | JoinedGame =>
        (when doSpawn (client_await SpawnSelf);;
         let* c := the_client in
         ret (c_code c)) st2
    end.
Proof.
  intros Hc Hid Hme Hs c2 st2.
  cbn [joinGame_fuel]. unfold bind at 1, gets at 1. rewrite Hc, Hid. cbn [negb].
  rewrite Hme. unfold bind at 1, when at 1, ret at 1.
  unfold bind at 1. erewrite client_await_run by done.
  unfold bind at 1. erewrite waitPayload_run by done.
  unfold bind at 1, the_client at 1, bind at 1, gets at 1. cbn.
  rewrite <- app_assoc. by destruct p.
Qed.

(** [joinGame] follows the redirects of the server, however many: for each
    it disconnects, asks the token helper for a token for the endpoint
    that the server named, connects to that endpoint under the same user
    name with that token, and sends the join request again; when the
    server lets the client in, it returns the code of the client.  The
    token that the backend holds in the end is the one for the last
    endpoint; nothing is emitted on the way. *)
Theorem joinGame_follows_redirects (code : Z) (hops : list Hop) (st : St)
    (c : SkeldjsClient) (rest : list Reply) :
  client (this st) = Some c ->
  c_identified c = true ->
  c_me c && negb (bool_decide (c_code c = Some code)) = false ->
  Forall (fun h => hop_at h < 2000) hops ->
  script st = concat (hop_replies <$> hops) ++ [Settles keep; Delivers JoinedGame keep] ++ rest ->
  redirected code hops st c rest.
Proof.
  revert st c. induction hops as [|h hops IH]; intros st c Hc Hid Hme Hat Hs.
  - cbn in Hs. unfold redirected, joinGame. rewrite Nat.add_succ_r.
    erewrite joinGame_payload by done. unfold after_payload. mrun.
    eexists _, _. split; [reflexivity|]. cbn. done.
  - apply Forall_cons in Hat as [Hh Hat]. cbn [fmap list_fmap concat hop_replies app] in Hs.
    unfold redirected, joinGame. rewrite Nat.add_succ_r.
    erewrite joinGame_payload by done. cbv beta iota zeta.
    set (c2 := joined_client c keep keep).
    unfold bind at 1. erewrite client_await_run by done.
    unfold bind at 1. erewrite tryGetAuthToken_first_try by done.
    unfold bind at 1, modify at 1. unfold bind at 1. erewrite client_await_run by done.
    set (st5 := mkSt _ _ _ _ _ _ _).
    rewrite joinGame_again by (subst st5; rewrite Hs; cbn; rewrite !length_app; cbn; lia).
    set (c5 := with_oid _ _) in st5.
    destruct (IH st5 c5) as (st' & delta & Hrun & Hscript & Htrace & Hcalls & Hev & Htok);
      try done.
    rewrite Hrun. exists st'.
    eexists (Called (SendJoinGame code) :: Called WaitPayload :: Called Disconnect
             :: Called (GetAuthTokenProc (hop_ip h) (pretty (hop_port h + 2)))
             :: Called (Connect (hop_ip h) (Some (c_username c2)) (Some (hop_token h))
                                (hop_port h)) :: delta).
    split; [done|]. split; [done|].
    split.
    { rewrite Htrace. subst st5. unfold after_payload, on_this. cbn [trace].
      repeat rewrite <- app_assoc. reflexivity. }
    split.
    { change (?a :: ?b :: ?c0 :: ?d :: ?e :: delta) with ([a; b; c0; d; e] ++ delta).
      rewrite calls_of_app, Hcalls. reflexivity. }
    split; [done|].
    rewrite Htok. subst st5. cbn [this authToken on_this set_authToken set_client].
    destruct hops as [|h' hops'] using rev_ind; [done|].
    rewrite app_comm_cons, !last_snoc. done.
Qed.

Lemma joinGame_follows_redirects_witness :
  redirected 42 [mkHop "10.0.0.9" 22023 120 777; mkHop "10.0.0.10" 22023 80 778]
    (warm_state (concat (hop_replies <$> [mkHop "10.0.0.9" 22023 120 777;
                                          mkHop "10.0.0.10" 22023 80 778])
                 ++ [Settles keep; Delivers JoinedGame keep] ++ []))
    connected_client [].
Proof. apply joinGame_follows_redirects; try done. repeat constructor. Defined.

(** ** A join that succeeded *)

Lemma reattach_this players components g st c :
  client (this st) = Some c ->
  exists c', this (reattach players components g st) = set_client (Some c') (this st).
Proof.
  intros Hc. unfold reattach.
  destruct (attach_objects_spec players st c Hc) as (e1 & -> & _).
  set (c1 := with_objects _ c).
  destruct (attach_netobjects_spec components (reattached st c1 e1 (arrs st)) c1 eq_refl)
    as (e2 & -> & _).
  set (c2 := with_netobjects _ c1). set (st2 := reattached _ c2 e2 _).
  destruct (attach_globals_spec g st2 c2 (length (array_at g st2)) eq_refl (le_n _))
    as (e3 & a3 & -> & _).
  by exists c2.
Qed.

Lemma hoare_live {A} P (m : M A) :
  ran P m -> hoare live_backend m (fun _ => live_backend).
Proof.
  intros Hm st Hst. specialize (Hm st).
  destruct (m st) as [[a|e|] st1]; try done. destruct Hm as [F1 _ _ _ _ _ _ _ _].
  unfold live_backend. cbn in F1. by rewrite F1.
Qed.

Lemma hoare_live_returns {A} P (Q : A -> Prop) (m : M A) :
  ran P m -> returns Q m -> hoare live_backend m (fun a st => live_backend st /\ Q a).
Proof.
  intros Hm Hq st Hst. pose proof (hoare_live P m Hm st Hst) as H. specialize (Hq st).
  destruct (m st) as [[a| |] st1]; done.
Qed.

Lemma doJoin_replace_true :
  hoare live_backend doJoin_replace (fun b st => b = true -> joined st).
Proof.
  intros st Hlive. unfold doJoin_replace. mrun.
  destruct (players_cache (this st)) as [pc|] eqn:Hpc; mrun; [|done].
  destruct (components_cache (this st)) as [cc|] eqn:Hcc; mrun; [|done].
  destruct (global_cache (this st)) as [g|] eqn:Hg; mrun; [|done].
  unfold array_length. mrun.
  destruct (client (this st)) as [c|] eqn:Hc; mrun.
  2: { destruct (destroy _) as [[[]| |] st1]; mrun; done. }
  unfold do_reattach. mrun.
  match goal with
  | |- context [reattach pc cc g ?s] =>
      destruct (reattach_this pc cc g s c Hc) as (c' & Hthis); rewrite Hthis
  end.
  mrun.
  assert (joined (mkSt (set_client (Some c') (this st)) ∅ ∅ 0 (lib st) [] [])) as (J1 & J2 & J3).
  { split; [done|]. split; [by eexists|]. unfold cached. cbn. by rewrite Hpc, Hcc, Hg. }
  unfold the_client. mrun.
  destruct (c_host c' ≫= pd_data); mrun; intros _; (split; [done|split; [by eexists|done]]).
Qed.

Lemma doJoin_rejoin_true max a :
  hoare (fun _ => True) (doJoin_rejoin max a) (fun n st => n = Return true -> joined st).
Proof.
  unfold doJoin_rejoin.
  eapply hoare_bind with (mid := fun d st => destroyed (this st) = d).
  { by intros st _. }
  intros [|]; [by apply hoare_ret|]. change (fun st => destroyed (this st) = false) with live_backend.
  eapply hoare_bind; [apply (hoare_live any); unfold current_endpoint; by ran_auto|].
  intros [ip port]; cbv beta.
  eapply hoare_bind; [apply (hoare_live any); by ran_auto|]. intros ?; cbv beta.
  eapply hoare_bind with (mid := fun r st => live_backend st /\ (r <> Some (Return true))).
  { eapply hoare_try_catch with (mid := live_backend).
    - eapply hoare_weaken; [apply (hoare_live_returns any (fun r => r = None))| |].
      + ran_auto; apply ran_any_client_await.
      + returns_auto.
      + done.
      + by intros r st [H ->].
    - intros st Hst.
      match goal with |- live_backend (?m st).2 => assert (ran any m) as Hm end.
      { ran_auto; apply ran_any_client_await. }
      destruct (Hm st) as [F1 _ _ _ _ _ _ _ _]. unfold live_backend. by rewrite F1.
    - intros e st Hst. unfold rotate_server. mrun. done. }
  intros [n|]; cbv beta.
  { apply hoare_ret. intros st [_ H] ->. done. }
  apply hoare_pre_and.
  eapply hoare_bind; [apply (hoare_live any); by ran_auto|]. intros ?; cbv beta.
  eapply hoare_bind with (mid := fun r st => live_backend st /\ (r <> Some (Return true))).
  { eapply hoare_try_catch with (mid := live_backend).
    - eapply hoare_weaken; [apply (hoare_live_returns any (fun r => r = None))| |].
      + by ran_auto.
      + returns_auto.
      + done.
      + by intros r st [H ->].
    - intros st Hst.
      match goal with |- live_backend (?m st).2 => assert (ran any m) as Hm by by ran_auto end.
      destruct (Hm st) as [F1 _ _ _ _ _ _ _ _]. unfold live_backend. by rewrite F1.
    - intros e st Hst. destruct (includes _ e); mrun; done. }
  intros [n|]; cbv beta.
  { apply hoare_ret. intros st [_ H] ->. done. }
  apply hoare_pre_and.
  eapply hoare_bind; [apply doJoin_replace_true|]. intros b; cbv beta.
  apply hoare_ret. intros st H [= ->]. by apply H.
Qed.

Lemma doJoin_round_true max a :
  hoare (fun _ => True) (doJoin_round max a) (fun n st => n = Return true -> joined st).
Proof.
  intros st _. unfold doJoin_round, doJoin_round_with.
  unfold bind at 1, gets at 1. destruct (destroyed (this st)); [done|].
  destruct (a >=? max); [mrun; done|].
  unfold bind at 1, gets at 1. unfold bind at 1.
  destruct (when _ new_client st) as [[[]| |] st1]; [|done..].
  unfold bind at 1, gets at 1.
  destruct (negb (cached (this st1))); [|by apply doJoin_rejoin_true].
  unfold bind at 1.
  assert (returns (fun w => w <> Some (Return true))
            (doJoin_warmup_with initialSpawn max a)) as Hw.
  { unfold doJoin_warmup_with. returns_auto. }
  specialize (Hw st1).
  destruct (doJoin_warmup_with initialSpawn max a st1) as [[[n|]| |] st2]; try done.
  - cbn in Hw. cbn. intros ->. done.
  - by apply doJoin_rejoin_true.
Qed.

(** When [doJoin] returns true, the backend is live, it has a client and
    the three caches are set: the test [if (!this.client) return] that
    follows the call in [initialize] never fires. *)
Theorem doJoin_true (max attempt : Z) (st st' : St) :
  doJoin max attempt st = (Val true, st') ->
  destroyed (this st') = false
  /\ is_Some (client (this st'))
  /\ cached (this st') = true.
Proof.
  unfold doJoin. generalize (S (Z.to_nat (max - attempt))). intros fuel.
  revert attempt st. induction fuel as [|fuel IH]; intros a st; [done|].
  rewrite doJoin_fuel_S. intros H.
  apply bind_inv in H as [(n & st1 & E1 & H)|[(e & _ & [=])|[_ [=]]]].
  destruct n as [b|a'|a'|a']; [|by eapply IH..].
  injection H as -> <-.
  by apply (hoare_run _ _ _ _ _ _ (doJoin_round_true max a) I E1).
Qed.

Lemma doJoin_true_witness :
  destroyed (this (doJoin 5 0 rejoin_accepted).2) = false
  /\ is_Some (client (this (doJoin 5 0 rejoin_accepted).2))
  /\ cached (this (doJoin 5 0 rejoin_accepted).2) = true.
Proof. apply (doJoin_true 5 0 rejoin_accepted). by vm_compute. Defined.
